(** * Tocaia: the navigation and presentation engine of a Gopher client

    A shallow embedding of [tocaia.c]: the content classifier
    ([is_gopher_menu]), the text line counter and the text viewer loop, the
    menu line parser ([parse_gopher_line]), the address parser
    ([parse_gopher_address]), the navigation history ([navigate_to],
    [navigate_back], [navigate_forward]) and the menu navigation keys
    ([handle_menu_navigation]).  Further parts: the history under every
    operation ([free_navigation_history], reload and fetch), the screens
    ([draw_text_viewer], [draw_gopher_menu], [draw_header],
    [get_current_url]), the prompts and key actions
    ([handle_search_prompt], [handle_open_prompt], [handle_menu_action]),
    the connection ([write_all], [receive_gopher_data],
    [connect_and_send_request]) and the start of [main].

    Conventions.
    - A C string is the list of its characters before the terminating NUL
      ([cstring]); a [char] buffer that the code writes NULs into is a
      [list ascii] read through [c_str], which stops at the first NUL.
      The bytes a server sends may hold NULs: [page_content] keeps them
      all, and [is_gopher_menu], which takes the node, reads them through
      [c_str]; a function with a [content] argument is given the string
      they start with.
    - [int] values are [Z].  Signed overflow is undefined in C; the one
      library call whose result can leave the [int] range on hostile input
      ([atoi]) has its reduction to 32 bits written out.
    - [NavigationState] nodes live in a heap [gmap addr NavigationState];
      [malloc] hands out addresses that were never used before, so a node
      keeps its identity after it is freed. *)

From Stdlib Require Import ZArith Ascii String Lia.
From stdpp Require Import gmap list strings pretty.

Open Scope Z_scope.

Local Set Warnings "-clear-no-such-hyp".

(** ** The C library, as far as the program uses it *)

Abbreviation cstring := (list ascii).

(** A string literal as a C string. *)
Definition cs (s : string) : cstring := list_ascii_of_string s.

Definition NUL : ascii := "000"%char.
Definition TAB : ascii := "009"%char.
Definition LF : ascii := "010"%char.
Definition CR : ascii := "013"%char.
Definition SPACE : ascii := " "%char.

(** [isspace] and [isdigit] in the "C" locale (the program never calls
    [setlocale]). *)
Definition isspace (c : ascii) : bool :=
  let n := N_of_ascii c in
  ((n =? 32) || ((9 <=? n) && (n <=? 13)))%N.

Definition isdigit (c : ascii) : bool :=
  let n := N_of_ascii c in
  ((48 <=? n) && (n <=? 57))%N.

(** [s[i]]; reading the terminator gives NUL. *)
Definition char_at (s : cstring) (i : nat) : ascii := nth i s NUL.

(** The content of a buffer as a string: everything before the first NUL. *)
Fixpoint c_str (buf : list ascii) : cstring :=
  match buf with
  | [] => []
  | c :: r => if Ascii.eqb c NUL then [] else c :: c_str r
  end.

(** The string that starts at offset [p] of a buffer. *)
Definition str_at (buf : list ascii) (p : nat) : cstring := c_str (drop p buf).

(** [strchr s c]: offset of the first [c] in [s], [None] for NULL.  The
    terminator counts as part of the string. *)
Fixpoint strchr (s : cstring) (c : ascii) : option nat :=
  match s with
  | [] => if Ascii.eqb c NUL then Some 0%nat else None
  | x :: r => if Ascii.eqb x c then Some 0%nat else S <$> strchr r c
  end.

(** [strrchr s c]: offset of the last [c] in [s]. *)
Fixpoint strrchr (s : cstring) (c : ascii) : option nat :=
  match s with
  | [] => if Ascii.eqb c NUL then Some 0%nat else None
  | x :: r =>
      match strrchr r c with
      | Some i => Some (S i)
      | None => if Ascii.eqb x c then Some 0%nat else None
      end
  end.

(** The idiom [strncpy(dst, src, n); dst[n] = '\0';]. *)
Definition strncpy0 (src : cstring) (n : nat) : cstring := take n src.

(** [strcmp(s, t) == 0]. *)
Definition streq (s t : cstring) : bool := bool_decide (s = t).

(** [strncmp(s, t, n) == 0]. *)
Definition strneq (s t : cstring) (n : nat) : bool :=
  bool_decide (take n s = take n t).

(** 32-bit two's complement reduction. *)
Definition to_int (z : Z) : Z := (z + 2147483648) mod 4294967296 - 2147483648.

Definition INT_MAX : Z := 2147483647.

Definition digit_value (c : ascii) : Z := Z.of_N (N_of_ascii c) - 48.

Fixpoint atoi_digits (acc : Z) (s : cstring) : Z :=
  match s with
  | c :: r => if isdigit c then atoi_digits (10 * acc + digit_value c) r else acc
  | [] => acc
  end.

Fixpoint skip_spaces (s : cstring) : cstring :=
  match s with
  | c :: r => if isspace c then skip_spaces r else s
  | [] => []
  end.

(** [atoi]: leading white space, an optional sign, then the longest run of
    digits; 0 when there is none.  C leaves the result undefined when the
    number does not fit an [int]; the usual libraries reduce it to 32 bits,
    which is what [to_int] writes out. *)
Definition atoi (s : cstring) : Z :=
  match skip_spaces s with
  | c :: r =>
      if Ascii.eqb c "-" then to_int (- atoi_digits 0 r)
      else if Ascii.eqb c "+" then to_int (atoi_digits 0 r)
      else to_int (atoi_digits 0 (c :: r))
  | [] => 0
  end.

(** ** Constants and data types of [tocaia.c] *)

Definition MAX_HOST_LENGTH : nat := 256.
Definition MAX_SELECTOR_LENGTH : nat := 1024.
Definition MAX_DISPLAY_LENGTH : nat := 1024.
Definition MAX_URL_INPUT_LENGTH : nat := MAX_HOST_LENGTH + MAX_SELECTOR_LENGTH + 10.

Definition KEY_UP : ascii := "A"%char.
Definition KEY_DOWN : ascii := "B"%char.
Definition KEY_PGUP : ascii := "5"%char.
Definition KEY_PGDN : ascii := "6"%char.
Definition KEY_ENTER : ascii := LF.
Definition KEY_CARRIAGE_RETURN : ascii := CR.
Definition KEY_BACKSPACE : ascii := "127"%char.
Definition KEY_ESC : ascii := "027"%char.

(** A pointer to a [NavigationState]; [None] is NULL. *)
Definition addr := nat.

Module GopherItem.
Record t := mk {
  type : ascii;
  display_string : cstring;
  selector : cstring;
  host : cstring;
  port : Z;
  is_selectable : bool;
  menu_index : Z
}.
End GopherItem.

Module NavigationState.
Record t := mk {
  host : cstring;
  port : Z;
  selector : cstring;
  page_content : option cstring;
  prev : option addr;
  next : option addr
}.
End NavigationState.

Record winsize := mk_winsize { ws_row : Z; ws_col : Z }.

Record AppState := mk_AppState {
  current_nav : option addr;
  gopher_items : list GopherItem.t;
  total_items : Z;
  selectable_items : Z;
  selected_index : Z;
  scroll_offset : Z;
  text_scroll_line : Z;
  total_content_lines : Z;
  is_running : bool;
  terminal_size : winsize
}.

(** ** Content classifier *)

(** [is_gopher_menu(nav)]; the argument is the node [nav] points to.
    [page_content] holds the bytes received; [strchr] and [strncpy] read
    them as a string, which ends at the first NUL. *)
Definition is_gopher_menu (nav : option NavigationState.t) : bool :=
  match nav with
  | None => false
  | Some n =>
      match NavigationState.page_content n with
      | None => false
      | Some page_content =>
          let content := c_str page_content in
          let selector_type := char_at (NavigationState.selector n) 0 in
          if Ascii.eqb selector_type "0" || Ascii.eqb selector_type "4"
             || Ascii.eqb selector_type "5" || Ascii.eqb selector_type "6"
             || Ascii.eqb selector_type "9" || Ascii.eqb selector_type "g"
             || Ascii.eqb selector_type "I" || Ascii.eqb selector_type "h"
          then false
          else if Ascii.eqb selector_type NUL || Ascii.eqb selector_type "1"
          then true
          else
            let first_line :=
              match strchr content LF with
              | Some first_line_end =>
                  let len :=
                    if (MAX_DISPLAY_LENGTH <=? first_line_end)%nat
                    then (MAX_DISPLAY_LENGTH - 1)%nat
                    else first_line_end in
                  strncpy0 content len
              | None => strncpy0 content (MAX_DISPLAY_LENGTH - 1)
              end in
            match strchr first_line TAB with
            | None => false
            | Some _ => true
            end
      end
  end.

(** ** Text line count *)

(** The scanning loop of [calculate_text_lines]; [count] is the counter. *)
Fixpoint count_newlines (count : Z) (content : cstring) : Z :=
  match content with
  | [] => count
  | c :: r => count_newlines (if Ascii.eqb c LF then count + 1 else count) r
  end.

Definition set_total_content_lines (state : AppState) (v : Z) : AppState :=
  mk_AppState (current_nav state) (gopher_items state) (total_items state)
    (selectable_items state) (selected_index state) (scroll_offset state)
    (text_scroll_line state) v (is_running state) (terminal_size state).

Definition calculate_text_lines (state : AppState) (content : cstring) : AppState :=
  let count := count_newlines 0 content in
  let count :=
    match last content with
    | Some c => if Ascii.eqb c LF then count else count + 1
    | None => count
    end in
  set_total_content_lines state count.

(** ** Menu line parser *)

(** The loop that skips leading white space: how far the local pointer
    [str] advances. *)
Fixpoint leading_spaces (str : cstring) : nat :=
  match str with
  | c :: r => if isspace c then S (leading_spaces r) else 0%nat
  | [] => 0%nat
  end.

(** The loop that moves [end] back over trailing white space while
    [end > str]; [end] is an offset from [str]. *)
Fixpoint trim_end_loop (str : cstring) (e : nat) : nat :=
  match e with
  | O => O
  | S e' => if isspace (char_at str e) then trim_end_loop str e' else e
  end.

(** [trim_whitespace(buf)]: the content of the buffer afterwards.  The
    leading loop only moves the local pointer [str]; the buffer itself is
    written once, at [end[1]]. *)
Definition trim_whitespace (buf : cstring) : cstring :=
  let start := leading_spaces buf in
  let str := drop start buf in
  match str with
  | [] => buf
  | _ :: _ =>
      let e := trim_end_loop str (length str - 1) in
      take (start + e + 1) buf
  end.

(** The tokenizing loop of [parse_gopher_line]: [n] tabs are still to be
    looked for from offset [token]; every tab found is overwritten with
    NUL.  The result is the buffer and the offsets stored in
    [fields[4 - n ..]]; a field that is not in the list is NULL. *)
Fixpoint tokenize (n : nat) (line : list ascii) (token : nat) : list ascii * list nat :=
  match n with
  | O => (line, [])
  | S n' =>
      match strchr (str_at line token) TAB with
      | Some i =>
          let line := <[(token + i)%nat := NUL]> line in
          let token := (token + i + 1)%nat in
          let '(line, fields) := tokenize n' line token in
          (line, token :: fields)
      | None => (line, [])
      end
  end.

(** [parse_gopher_line(line, &item, current_host, current_port)]: [None]
    for FALSE, otherwise the item written. *)
Definition parse_gopher_line (line : list ascii) (current_host : cstring)
    (current_port : Z) : option GopherItem.t :=
  let len := length (c_str line) in
  let line :=
    if (0 <? len)%nat && Ascii.eqb (char_at (c_str line) (len - 1)) CR
    then <[(len - 1)%nat := NUL]> line
    else line in
  if Ascii.eqb (char_at (c_str line) 0) NUL
     || streq (c_str line) (cs ".")
     || (length (c_str line) <? 2)%nat
  then None
  else
    let type := char_at (c_str line) 0 in
    let line_content_start := 1%nat in
    let '(line, found) := tokenize 3 line line_content_start in
    let fields := line_content_start :: found in
    match Ascii.eqb type "i", fields !! 1%nat, fields !! 2%nat with
    | false, Some f1, Some f2 =>
        let display_string :=
          trim_whitespace
            (strncpy0 (str_at line line_content_start) (MAX_DISPLAY_LENGTH - 1)) in
        let selector := strncpy0 (str_at line f1) (MAX_SELECTOR_LENGTH - 1) in
        let host :=
          strncpy0
            (if negb (Ascii.eqb (char_at (str_at line f2) 0) NUL)
             then str_at line f2 else current_host)
            (MAX_HOST_LENGTH - 1) in
        let port :=
          match fields !! 3%nat with
          | Some f3 => atoi (str_at line f3)
          | None => current_port
          end in
        let is_selectable :=
          match strchr (cs "0127h") type with
          | Some _ => negb (streq host (cs "null.host"))
                      && negb (streq host (cs "error.host"))
          | None => false
          end in
        Some (GopherItem.mk type display_string selector host port is_selectable 0)
    | _, _, _ =>
        let display_string :=
          trim_whitespace
            (strncpy0 (str_at line line_content_start) (MAX_DISPLAY_LENGTH - 1)) in
        Some (GopherItem.mk type display_string [] [] 0 false 0)
    end.

(** The tokens [strtok] yields for the newline delimiter: the maximal non-empty runs of
    characters other than newline; [cur] is the run being read. *)
Fixpoint strtok_lines (cur : cstring) (data : cstring) : list cstring :=
  match data with
  | [] => match cur with [] => [] | _ => [cur] end
  | c :: r =>
      if Ascii.eqb c LF
      then match cur with [] => strtok_lines [] r | _ => cur :: strtok_lines [] r end
      else strtok_lines (cur ++ [c]) r
  end.

Definition set_menu_index (item : GopherItem.t) (v : Z) : GopherItem.t :=
  GopherItem.mk (GopherItem.type item) (GopherItem.display_string item)
    (GopherItem.selector item) (GopherItem.host item) (GopherItem.port item)
    (GopherItem.is_selectable item) v.

(** The body of the [while (line != NULL)] loop of
    [process_gopher_response], over the tokens in order. *)
Fixpoint process_lines (lines : list cstring) (current_host : cstring)
    (current_port : Z) (items : list GopherItem.t) (selectable : Z)
    : list GopherItem.t * Z :=
  match lines with
  | [] => (items, selectable)
  | line :: rest =>
      match parse_gopher_line line current_host current_port with
      | Some current_item =>
          let '(current_item, selectable) :=
            if GopherItem.is_selectable current_item
            then (set_menu_index current_item (selectable + 1), selectable + 1)
            else (current_item, selectable) in
          process_lines rest current_host current_port
            (items ++ [current_item]) selectable
      | None => process_lines rest current_host current_port items selectable
      end
  end.

(** [process_gopher_response(state, data)]; [nav] is the node
    [state->current_nav] points to.  The item array, which the code grows
    by doubling, is the list of the items stored. *)
Definition process_gopher_response (nav : NavigationState.t) (state : AppState)
    (data : cstring) : AppState :=
  let '(items, selectable) :=
    process_lines (strtok_lines [] data) (NavigationState.host nav)
      (NavigationState.port nav) [] 0 in
  mk_AppState (current_nav state) items (Z.of_nat (length items)) selectable 1
    (scroll_offset state) (text_scroll_line state) (total_content_lines state)
    (is_running state) (terminal_size state).

(** ** Menu navigation keys *)

(** The search loop of [handle_menu_navigation]: the array index of the
    item whose rank among the selectable ones is [selected], or -1. *)
Fixpoint find_selected (items : list GopherItem.t) (i : Z) (current_selectable : Z)
    (selected : Z) : Z :=
  match items with
  | [] => -1
  | item :: rest =>
      if GopherItem.is_selectable item
      then if current_selectable + 1 =? selected then i
           else find_selected rest (i + 1) (current_selectable + 1) selected
      else find_selected rest (i + 1) current_selectable selected
  end.

Definition set_selection (state : AppState) (selected scroll : Z) : AppState :=
  mk_AppState (current_nav state) (gopher_items state) (total_items state)
    (selectable_items state) selected scroll (text_scroll_line state)
    (total_content_lines state) (is_running state) (terminal_size state).

Definition handle_menu_navigation (state : AppState) (input : ascii) : AppState :=
  let viewable_rows :=
    if 4 <? ws_row (terminal_size state)
    then ws_row (terminal_size state) - 4 else 0 in
  if selectable_items state =? 0 then state
  else
    let selected_index :=
      if Ascii.eqb input KEY_UP then
        if 1 <? selected_index state
        then selected_index state - 1 else selectable_items state
      else if Ascii.eqb input KEY_DOWN then
        if selected_index state <? selectable_items state
        then selected_index state + 1 else 1
      else if Ascii.eqb input KEY_PGUP then
        let s := selected_index state - viewable_rows in
        if s <? 1 then 1 else s
      else if Ascii.eqb input KEY_PGDN then
        let s := selected_index state + viewable_rows in
        if selectable_items state <? s then selectable_items state else s
      else selected_index state in
    let selected_array_idx :=
      find_selected (take (Z.to_nat (total_items state)) (gopher_items state))
        0 0 selected_index in
    let scroll_offset :=
      if negb (selected_array_idx =? -1) then
        if selected_array_idx <? scroll_offset state then selected_array_idx
        else if scroll_offset state + viewable_rows <=? selected_array_idx
        then selected_array_idx - viewable_rows + 1
        else scroll_offset state
      else scroll_offset state in
    set_selection state selected_index scroll_offset.

(** ** Text viewer loop *)

(** What one turn of the polling loop finds: a pending resize (with the
    size [ioctl] then reports), nothing to read, the three bytes
    [ESC '[' key], or a single byte. *)
Inductive input_event :=
| EvResize (ws : winsize)
| EvIdle
| EvEscape (key : ascii)
| EvByte (c : ascii).

Definition set_text_scroll_line (state : AppState) (v : Z) : AppState :=
  mk_AppState (current_nav state) (gopher_items state) (total_items state)
    (selectable_items state) (selected_index state) (scroll_offset state)
    v (total_content_lines state) (is_running state) (terminal_size state).

Definition set_terminal_size (state : AppState) (ws : winsize) : AppState :=
  mk_AppState (current_nav state) (gopher_items state) (total_items state)
    (selectable_items state) (selected_index state) (scroll_offset state)
    (text_scroll_line state) (total_content_lines state) (is_running state) ws.

(** The two [if]s under "Clamp scroll position to prevent overscrolling". *)
Definition clamp_text_scroll (state : AppState) (viewable_rows : Z) : AppState :=
  let state :=
    if total_content_lines state - viewable_rows <? text_scroll_line state
    then set_text_scroll_line state (total_content_lines state - viewable_rows)
    else state in
  if text_scroll_line state <? 0 then set_text_scroll_line state 0 else state.

(** The arrow and page keys of the text viewer. *)
Definition text_scroll_key (state : AppState) (viewable_rows : Z) (key : ascii)
    : AppState :=
  if Ascii.eqb key KEY_UP && (0 <? text_scroll_line state) then
    set_text_scroll_line state (text_scroll_line state - 1)
  else if Ascii.eqb key KEY_DOWN then
    set_text_scroll_line state (text_scroll_line state + 1)
  else if Ascii.eqb key KEY_PGUP then
    let s := text_scroll_line state - viewable_rows in
    set_text_scroll_line state (if s <? 0 then 0 else s)
  else if Ascii.eqb key KEY_PGDN then
    set_text_scroll_line state (text_scroll_line state + viewable_rows)
  else state.

(** The [while (state->is_running)] loop of
    [handle_text_viewer_interaction], run over the events of its successive
    turns.  [renders] collects, for every call of [draw_text_viewer], the
    [text_scroll_line] it is called with (its [lines_to_skip]).  The loop
    ends at the first single byte other than ['a']; that byte is returned
    with the state reached, its own action (back, forward, reload, open,
    quit) belongs to the caller's model. *)
Fixpoint text_viewer_loop (state : AppState) (content : cstring)
    (events : list input_event) (renders : list Z)
    : AppState * list Z * option ascii :=
  match events with
  | [] => (state, renders, None)
  | ev :: rest =>
      if negb (is_running state) then (state, renders, None)
      else
        let viewable_rows :=
          if 4 <? ws_row (terminal_size state)
          then ws_row (terminal_size state) - 4 else 1 in
        let state := calculate_text_lines state content in
        let state := clamp_text_scroll state viewable_rows in
        match ev with
        | EvResize ws =>
            let state := set_terminal_size state ws in
            text_viewer_loop state content rest
              (renders ++ [text_scroll_line state])
        | EvIdle => text_viewer_loop state content rest renders
        | EvEscape key =>
            let state := text_scroll_key state viewable_rows key in
            text_viewer_loop state content rest
              (renders ++ [text_scroll_line state])
        | EvByte c =>
            if Ascii.eqb c "a"
            then text_viewer_loop state content rest
                   (renders ++ [text_scroll_line state])
            else (state, renders, Some c)
        end
  end.

(** [handle_text_viewer_interaction(state)] on the body [content] of the
    current node: one render on entry, then the loop. *)
Definition handle_text_viewer_interaction (state : AppState) (content : cstring)
    (events : list input_event) : AppState * list Z * option ascii :=
  text_viewer_loop state content events [text_scroll_line state].

(** The [while (state->is_running)] loop of
    [handle_gopher_menu_interaction] over the events of its successive
    turns, up to the first single byte: that byte goes to
    [handle_menu_action] and ends the loop. *)
Fixpoint menu_loop (state : AppState) (events : list input_event)
    : AppState * option ascii :=
  match events with
  | [] => (state, None)
  | ev :: rest =>
      if negb (is_running state) then (state, None)
      else
        match ev with
        | EvResize ws => menu_loop (set_terminal_size state ws) rest
        | EvIdle => menu_loop state rest
        | EvEscape key => menu_loop (handle_menu_navigation state key) rest
        | EvByte c => (state, Some c)
        end
  end.

(** ** Navigation history *)

(** The heap of [NavigationState] nodes and the next address [malloc]
    returns. *)
Record Memory := mk_Memory {
  heap : gmap addr NavigationState.t;
  next_addr : addr
}.

Definition set_next (n : NavigationState.t) (v : option addr) : NavigationState.t :=
  NavigationState.mk (NavigationState.host n) (NavigationState.port n)
    (NavigationState.selector n) (NavigationState.page_content n)
    (NavigationState.prev n) v.

Definition set_prev (n : NavigationState.t) (v : option addr) : NavigationState.t :=
  NavigationState.mk (NavigationState.host n) (NavigationState.port n)
    (NavigationState.selector n) (NavigationState.page_content n)
    v (NavigationState.next n).

Definition set_page_content (n : NavigationState.t) (v : option cstring)
    : NavigationState.t :=
  NavigationState.mk (NavigationState.host n) (NavigationState.port n)
    (NavigationState.selector n) v
    (NavigationState.prev n) (NavigationState.next n).

(** [create_nav_state(host, port, selector)]: the new node's address and
    the memory that holds it. *)
Definition create_nav_state (m : Memory) (host : cstring) (port : Z)
    (selector : cstring) : addr * Memory :=
  let new_state := next_addr m in
  let node :=
    NavigationState.mk (strncpy0 host (MAX_HOST_LENGTH - 1)) port
      (strncpy0 selector (MAX_SELECTOR_LENGTH - 1)) None None None in
  (new_state, mk_Memory (<[new_state := node]> (heap m)) (S new_state)).

(** The [while (forward_node)] loop of [free_forward_history].  Every turn
    frees one live node, so [fuel] = number of live nodes is enough;
    [None] stands for the read of a node that is not live (undefined in C). *)
Fixpoint free_forward_loop (fuel : nat) (h : gmap addr NavigationState.t)
    (forward_node : option addr) : option (gmap addr NavigationState.t) :=
  match forward_node with
  | None => Some h
  | Some temp =>
      match fuel with
      | O => None
      | S fuel' =>
          node ← h !! temp;
          free_forward_loop fuel' (delete temp h) (NavigationState.next node)
      end
  end.

Definition free_forward_history (m : Memory) (current_state : option addr)
    : option Memory :=
  match current_state with
  | None => Some m
  | Some cur =>
      node ← heap m !! cur;
      h ← free_forward_loop (size (heap m)) (heap m) (NavigationState.next node);
      node ← h !! cur;
      Some (mk_Memory (<[cur := set_next node None]> h) (next_addr m))
  end.

Definition set_current_reset (state : AppState) (cur : option addr) : AppState :=
  mk_AppState cur (gopher_items state) (total_items state)
    (selectable_items state) 1 0 0 (total_content_lines state)
    (is_running state) (terminal_size state).

Definition navigate_to (m : Memory) (state : AppState) (host : cstring)
    (port : Z) (selector : cstring) : option (Memory * AppState) :=
  let '(new_state, m) := create_nav_state m host port selector in
  m ← match current_nav state with
      | Some cur =>
          m ← free_forward_history m (Some cur);
          cur_node ← heap m !! cur;
          let h := <[cur := set_next cur_node (Some new_state)]> (heap m) in
          new_node ← h !! new_state;
          Some (mk_Memory (<[new_state := set_prev new_node (Some cur)]> h)
                  (next_addr m))
      | None => Some m
      end;
  Some (m, set_current_reset state (Some new_state)).

Definition navigate_back (m : Memory) (state : AppState)
    : option (Memory * AppState) :=
  match current_nav state with
  | Some cur =>
      node ← heap m !! cur;
      match NavigationState.prev node with
      | Some p => Some (m, set_current_reset state (Some p))
      | None => Some (m, state)
      end
  | None => Some (m, state)
  end.

Definition navigate_forward (m : Memory) (state : AppState)
    : option (Memory * AppState) :=
  match current_nav state with
  | Some cur =>
      node ← heap m !! cur;
      match NavigationState.next node with
      | Some n => Some (m, set_current_reset state (Some n))
      | None => Some (m, state)
      end
  | None => Some (m, state)
  end.

(** The assignment that ends [fetch_current_content]: the received
    response becomes the current node's [page_content]. *)
Definition fetch_current_content (m : Memory) (state : AppState)
    (response : cstring) : option (Memory * AppState) :=
  cur ← current_nav state;
  node ← heap m !! cur;
  Some (mk_Memory (<[cur := set_page_content node (Some response)]> (heap m))
          (next_addr m), state).

(** The two traversals of [free_navigation_history]: back to the head
    through [prev], then forward through [next]; here they collect the
    addresses met instead of freeing them. *)
Fixpoint find_head (fuel : nat) (h : gmap addr NavigationState.t) (head : addr)
    : option addr :=
  node ← h !! head;
  match NavigationState.prev node with
  | None => Some head
  | Some p =>
      match fuel with
      | O => None
      | S fuel' => find_head fuel' h p
      end
  end.

Fixpoint walk_next (fuel : nat) (h : gmap addr NavigationState.t)
    (head : option addr) : option (list addr) :=
  match head with
  | None => Some []
  | Some temp =>
      match fuel with
      | O => None
      | S fuel' =>
          node ← h !! temp;
          rest ← walk_next fuel' h (NavigationState.next node);
          Some (temp :: rest)
      end
  end.

(** The history chain, head first. *)
Definition history_chain (m : Memory) (state : AppState) : option (list addr) :=
  match current_nav state with
  | None => Some []
  | Some cur =>
      head ← find_head (size (heap m)) (heap m) cur;
      walk_next (size (heap m)) (heap m) (Some head)
  end.

(** The state [main] starts from: [memset(&state, 0, ...)], then
    [is_running = TRUE] and the terminal size; no node allocated yet. *)
Definition initial_memory : Memory := mk_Memory ∅ 0%nat.

Definition initial_state (ws : winsize) : AppState :=
  mk_AppState None [] 0 0 0 0 0 0 true ws.

(** History operations and their runs. *)
Inductive nav_op :=
| NavigateTo (host : cstring) (port : Z) (selector : cstring)
| Back
| Forward.

Definition nav_step (w : Memory * AppState) (op : nav_op)
    : option (Memory * AppState) :=
  match op with
  | NavigateTo host port selector => navigate_to w.1 w.2 host port selector
  | Back => navigate_back w.1 w.2
  | Forward => navigate_forward w.1 w.2
  end.

Fixpoint nav_run (ops : list nav_op) (w : Memory * AppState)
    : option (Memory * AppState) :=
  match ops with
  | [] => Some w
  | op :: rest => w' ← nav_step w op; nav_run rest w'
  end.

(** ** Address parser *)

(** [parse_gopher_address(address, host_out, &port_out, selector_out)]:
    [None] for FALSE, otherwise the three outputs.  [address] is the string
    passed in (a NULL pointer is rejected like the empty string). *)
Definition parse_gopher_address (address : cstring)
    : option (cstring * Z * cstring) :=
  if (length address =? 0)%nat then None
  else
    let temp_address := strncpy0 address (MAX_URL_INPUT_LENGTH - 1) in
    let parse_ptr :=
      if strneq temp_address (cs "gopher://") 9 then 9%nat else 0%nat in
    let host_port_str := parse_ptr in
    let port_out := 70 in
    let selector_out : cstring := [] in
    let '(temp_address, selector_out) :=
      match strchr (str_at temp_address parse_ptr) "/" with
      | Some i =>
          let first_slash := (parse_ptr + i)%nat in
          let temp_address := <[first_slash := NUL]> temp_address in
          (temp_address,
           strncpy0 (str_at temp_address (first_slash + 1))
             (MAX_SELECTOR_LENGTH - 1))
      | None => (temp_address, selector_out)
      end in
    let after_port : option (list ascii * Z) :=
      match strrchr (str_at temp_address host_port_str) ":" with
      | Some i =>
          let port_str := (host_port_str + i)%nat in
          let temp_address := <[port_str := NUL]> temp_address in
          if (0 <? length (str_at temp_address (port_str + 1)))%nat
          then Some (temp_address, atoi (str_at temp_address (port_str + 1)))
          else None
      | None => Some (temp_address, port_out)
      end in
    match after_port with
    | None => None
    | Some (temp_address, port_out) =>
        let host := str_at temp_address host_port_str in
        if (length host =? 0)%nat then None
        else if (match strchr host SPACE with Some _ => true | None => false end)
                || (match strchr host TAB with Some _ => true | None => false end)
                || (match strchr host LF with Some _ => true | None => false end)
        then None
        else if (match strchr host "." with Some _ => false | None => true end)
                && negb (isdigit (char_at host 0))
        then None
        else
          let host_out := strncpy0 host (MAX_HOST_LENGTH - 1) in
          if (port_out <=? 0) || (65535 <? port_out) then None
          else Some (host_out, port_out, selector_out)
    end.

(** ** Vocabulary of the properties *)

(** The first line of a body: what precedes its first newline. *)
Fixpoint first_line (body : cstring) : cstring :=
  match body with
  | [] => []
  | c :: r => if Ascii.eqb c LF then [] else c :: first_line r
  end.

Definition non_menu_types : list ascii :=
  ["0"; "4"; "5"; "6"; "9"; "g"; "I"; "h"]%char.

(** Number of occurrences of a character. *)
Definition count_char (c : ascii) (s : cstring) : Z :=
  Z.of_nat (length (filter (λ x, x = c) s)).

Definition clamp (lo hi x : Z) : Z := Z.max lo (Z.min hi x).

(** The rows left for content: [terminal_rows - 4], at least [least]. *)
Definition viewable_rows_of (state : AppState) (least : Z) : Z :=
  Z.max (ws_row (terminal_size state) - 4) least.

(** Number of selectable items of a menu. *)
Definition count_selectable (items : list GopherItem.t) : Z :=
  Z.of_nat (length (filter (λ it, GopherItem.is_selectable it = true) items)).

(** A body of ten lines and a text viewer on a terminal of 8 rows (4 rows
    of content), scrolled to line 6. *)
Definition ten_lines : cstring :=
  concat (replicate 10 (cs "text" ++ [LF])).

Definition viewer_at_6 : AppState :=
  mk_AppState (Some 0%nat) [] 0 0 1 0 6 10 true (mk_winsize 8 80).

(** The same viewer right after a navigation: scroll line 0. *)
Definition viewer_at_0 : AppState :=
  mk_AppState (Some 0%nat) [] 0 0 1 0 0 10 true (mk_winsize 8 80).

(** *** Shape of the history *)

(** A Location of the data model and the one a node records. *)
Record Location := mk_Location {
  loc_host : cstring;
  loc_port : Z;
  loc_selector : cstring
}.

Definition node_location (n : NavigationState.t) : Location :=
  mk_Location (NavigationState.host n) (NavigationState.port n)
    (NavigationState.selector n).

(** The size bounds of a Location: host of at most 255 bytes, selector of
    at most 1023 bytes. *)
Definition fits_location (l : Location) : Prop :=
  (length (loc_host l) ≤ 255)%nat ∧ (length (loc_selector l) ≤ 1023)%nat.

Definition navigate_to_location (w : Memory * AppState) (l : Location)
    : option (Memory * AppState) :=
  navigate_to w.1 w.2 (loc_host l) (loc_port l) (loc_selector l).

(** The main loop's fetch between two navigations, when there is one. *)
Definition receive (response : option cstring) (w : Memory * AppState)
    : option (Memory * AppState) :=
  match response with
  | Some r => fetch_current_content w.1 w.2 r
  | None => Some w
  end.

(** A node with no predecessor. *)
Definition is_head (h : gmap addr NavigationState.t) (a : addr) : Prop :=
  ∃ n, h !! a = Some n ∧ NavigationState.prev n = None.

Definition exactly_one_head (h : gmap addr NavigationState.t) : Prop :=
  ∃ a, is_head h a ∧ ∀ b, is_head h b → b = a.

Definition next_link (h : gmap addr NavigationState.t) : relation addr :=
  λ a b, ∃ n, h !! a = Some n ∧ NavigationState.next n = Some b.

Definition prev_link (h : gmap addr NavigationState.t) : relation addr :=
  λ a b, ∃ n, h !! a = Some n ∧ NavigationState.prev n = Some b.

(** One step along either link. *)
Definition linked (h : gmap addr NavigationState.t) : relation addr :=
  λ a b, next_link h a b ∨ prev_link h a b.

(** No node reaches itself by following [next] links, nor by following
    [prev] links. *)
Definition acyclic (h : gmap addr NavigationState.t) : Prop :=
  ∀ a, ¬ tc (next_link h) a a ∧ ¬ tc (prev_link h) a a.

(** A doubly linked segment: the nodes [l] in order, the first one with
    predecessor [p], the last one with successor [e]. *)
Fixpoint dllseg (h : gmap addr NavigationState.t) (p : option addr)
    (l : list addr) (e : option addr) : Prop :=
  match l with
  | [] => True
  | x :: r =>
      ∃ n, h !! x = Some n ∧ NavigationState.prev n = p
           ∧ NavigationState.next n = from_option Some e (head r)
           ∧ dllseg h (Some x) r e
  end.

(** The live nodes are exactly the nodes of one chain [l]. *)
Definition chain_at (h : gmap addr NavigationState.t) (l : list addr) : Prop :=
  NoDup l ∧ (∀ a, is_Some (h !! a) ↔ a ∈ l) ∧ dllseg h None l None.

Definition history_inv (w : Memory * AppState) : Prop :=
  (∀ a, is_Some (heap w.1 !! a) → (a < next_addr w.1)%nat) ∧
  match current_nav w.2 with
  | None => heap w.1 = ∅
  | Some cur => ∃ l, chain_at (heap w.1) l ∧ cur ∈ l
  end.

Definition is_navigate (op : nav_op) : bool :=
  match op with NavigateTo _ _ _ => true | _ => false end.

(** The node that records Location [l], with its content and links. *)
Definition node_of (l : Location) (content : option cstring)
    (p n : option addr) : NavigationState.t :=
  NavigationState.mk (loc_host l) (loc_port l) (loc_selector l) content p n.

(** Sample data. *)
Definition terminal_24x80 : winsize := mk_winsize 24 80.
Definition location_A : Location := mk_Location (cs "a.example.org") 70 [].
Definition location_B : Location := mk_Location (cs "b.example.org") 70 (cs "1/docs").
Definition location_C : Location := mk_Location (cs "c.example.org") 7070 (cs "0/readme.txt").

(** *** Lines and addresses *)

(** An optional field with the separator in front of it. *)
Definition opt_field (sep : ascii) (f : option cstring) : cstring :=
  match f with
  | Some p => sep :: p
  | None => []
  end.

(** White space removed on the left, on the right, on both sides. *)
Fixpoint ltrim (s : cstring) : cstring :=
  match s with
  | c :: r => if isspace c then ltrim r else s
  | [] => []
  end.

Definition rtrim (s : cstring) : cstring := reverse (ltrim (reverse s)).

Definition trim (s : cstring) : cstring := ltrim (rtrim s).

(** The link types a menu can follow. *)
Definition link_types : list ascii := ["0"; "1"; "2"; "7"; "h"]%char.

(** A buffer tail at which a string ends: the end of the array contents
    or a NUL. *)
Definition ends (t : list ascii) : Prop := t = [] ∨ ∃ r, t = NUL :: r.

(** Sample menu lines, without their line ends. *)
Definition home_line : cstring :=
  "1"%char :: cs "Home" ++ TAB :: cs "/" ++ TAB :: cs "example.org"
    ++ opt_field TAB (Some (cs "70")).

Definition info_line : cstring :=
  "i"%char :: cs "Info text" ++ opt_field TAB (Some [TAB; TAB]).

Definition two_field_info_line : cstring :=
  "i"%char :: cs "A" ++ opt_field TAB (Some (cs "B")).

Definition long_host : cstring := replicate 256 "a"%char.

Definition long_host_line : cstring :=
  "1"%char :: cs "Far" ++ TAB :: cs "/" ++ TAB :: long_host
    ++ opt_field TAB (Some (cs "70")).

(** A node whose selector has type 7, with a body whose first line has
    tabs. *)
Definition search_body : cstring := home_line ++ [CR; LF].

Definition search_node : NavigationState.t :=
  NavigationState.mk (cs "example.org") 70 (cs "7/search")
    (Some search_body) None None.

(** A body with a NUL in its first line, before the only tab, and a node
    of type 7 that holds it. *)
Definition nul_body : cstring := cs "ab" ++ NUL :: TAB :: cs "cd" ++ [LF].

Definition nul_node : NavigationState.t :=
  NavigationState.mk (cs "example.org") 70 (cs "7/s") (Some nul_body)
    None None.

(** A menu with three selectable items after an informational line, and a
    menu of informational lines only, as [process_gopher_response] builds
    them for a node at example.org. *)
Definition root_node : NavigationState.t :=
  NavigationState.mk (cs "example.org") 70 [] None None None.

Definition three_links_menu : AppState :=
  process_gopher_response root_node (initial_state terminal_24x80)
    (info_line ++ [CR; LF] ++ home_line ++ [CR; LF] ++ home_line ++ [CR; LF]
     ++ home_line ++ [CR; LF] ++ cs "." ++ [CR; LF]).

Definition info_only_menu : AppState :=
  process_gopher_response root_node (initial_state terminal_24x80)
    (info_line ++ [CR; LF] ++ two_field_info_line ++ [CR; LF]).

(** A number that is not negative, written in decimal. *)
Definition decimal (p : Z) : cstring := cs (pretty (Z.to_N p)).

(** What [parse_gopher_address] makes of an address once it is cut into
    host, port text and selector: the checks of the second half of the
    function. *)
Definition address_verdict (h : cstring) (pt : option cstring) (sel : cstring)
    : option (cstring * Z * cstring) :=
  match pt with
  | Some [] => None
  | _ =>
      let port_out := match pt with Some p => atoi p | None => 70 end in
      if (length h =? 0)%nat then None
      else if bool_decide (SPACE ∈ h) || bool_decide (TAB ∈ h)
              || bool_decide (LF ∈ h)
      then None
      else if bool_decide ("."%char ∉ h) && negb (isdigit (char_at h 0))
      then None
      else if (port_out <=? 0) || (65535 <? port_out) then None
      else Some (take 255 h, port_out, take 1023 sel)
  end.

(** An address written as [gopher://]host[:port][/selector]. *)
Definition address_of (scheme : bool) (h : cstring) (pt : option cstring)
    (sel : option cstring) : cstring :=
  (if scheme then cs "gopher://" else [])
  ++ h ++ opt_field ":" pt ++ opt_field "/" sel.

(** A host the parser takes as it is: not empty, at most 255 bytes, free
    of NUL, of space, tab and newline and of the two separators, with a dot
    in it or a digit in front. *)
Definition valid_host (h : cstring) : Prop :=
  h ≠ [] ∧ (length h ≤ 255)%nat
  ∧ (∀ c, c ∈ h → c ∉ [NUL; SPACE; TAB; LF; "/"; ":"]%char)
  ∧ ("."%char ∈ h ∨ isdigit (char_at h 0) = true).

(** The value of a run of decimal digits; 0 for the empty run. *)
Definition digits_value (ds : cstring) : Z :=
  foldl (λ acc c, 10 * acc + digit_value c) 0 ds.

(** A port text cut the way a number is read off its front: white space
    [ws], a sign [sign] or none, the digits [ds] that follow, as many as
    there are, and the rest [junk].  With neither sign nor digits the rest
    starts with no white space and no sign, so that [ws] is all the white
    space in front. *)
Definition number_cut (ws sign ds junk : cstring) : bool :=
  forallb isspace ws
  && (bool_decide (sign = []) || bool_decide (sign = cs "+")
      || bool_decide (sign = cs "-"))
  && forallb isdigit ds
  && negb (isdigit (char_at junk 0))
  && (if bool_decide (sign = []) && bool_decide (ds = [])
      then negb (isspace (char_at junk 0))
           && negb (Ascii.eqb (char_at junk 0) "+")
           && negb (Ascii.eqb (char_at junk 0) "-")
      else true).

(** The number such a text starts with; 0 when it has no digits. *)
Definition signed_value (sign ds : cstring) : Z :=
  if bool_decide (sign = cs "-") then - digits_value ds else digits_value ds.

(** Sample port texts that start with no number from 1 to 65535, each cut
    as above. *)
Definition rejected_port_texts
    : list (cstring * cstring * cstring * cstring) :=
  [ ([], cs "+", [], []);
    ([], cs "-", [], []);
    (cs " ", [], [], []);
    (cs " ", [], cs "0", []);
    ([], cs "+", cs "0", []);
    ([], cs "+", cs "65536", []);
    ([], [], cs "00", []);
    ([], [], cs "065536", []);
    ([], [], cs "0", []);
    ([], [], cs "65536", []);
    ([], cs "-", cs "1", []);
    ([], [], [], cs "x70");
    ([TAB; SPACE], cs "-", cs "070", cs "x") ].

Definition port_text (t : cstring * cstring * cstring * cstring) : cstring :=
  let '(ws, sign, ds, junk) := t in ws ++ sign ++ ds ++ junk.

(** Sample addresses: a host of 255 bytes and a selector of 1023 bytes,
    both within the bounds of a Location, and an address of 1291 bytes
    whose only blank is its last byte. *)
Definition host_255 : cstring := cs "a." ++ replicate 253 "a"%char.
Definition selector_1023 : cstring := replicate 1023 "x"%char.
Definition blank_after_1289 : cstring :=
  cs "a." ++ replicate 1288 "a"%char ++ [SPACE].

(** ** Sessions: the history under every operation of the program *)

(** The second loop of [free_navigation_history] is the loop of
    [free_forward_history], started at the head. *)
Definition free_navigation_history (m : Memory) (current_state : option addr)
    : option Memory :=
  match current_state with
  | None => Some m
  | Some cur =>
      head ← find_head (size (heap m)) (heap m) cur;
      h ← free_forward_loop (size (heap m)) (heap m) (Some head);
      Some (mk_Memory h (next_addr m))
  end.

(** The ['r'] key of both views: the body cached for the current node is
    freed and the pointer set to NULL. *)
Definition reload_current (m : Memory) (state : AppState)
    : option (Memory * AppState) :=
  cur ← current_nav state;
  node ← heap m !! cur;
  match NavigationState.page_content node with
  | Some _ =>
      Some (mk_Memory (<[cur := set_page_content node None]> (heap m))
              (next_addr m), state)
  | None => Some (m, state)
  end.

(** The fetch of [run_main_loop]: only when the current node has no body
    yet; [response] is what the server sends. *)
Definition load_current (m : Memory) (state : AppState) (response : cstring)
    : option (Memory * AppState) :=
  cur ← current_nav state;
  node ← heap m !! cur;
  match NavigationState.page_content node with
  | None => fetch_current_content m state response
  | Some _ => Some (m, state)
  end.

Inductive session_op :=
| Visit (host : cstring) (port : Z) (selector : cstring)
| GoBack
| GoForward
| Load (response : cstring)
| Reload.

Definition session_step (w : Memory * AppState) (op : session_op)
    : option (Memory * AppState) :=
  match op with
  | Visit host port selector => navigate_to w.1 w.2 host port selector
  | GoBack => navigate_back w.1 w.2
  | GoForward => navigate_forward w.1 w.2
  | Load response => load_current w.1 w.2 response
  | Reload => reload_current w.1 w.2
  end.

Fixpoint session_run (ops : list session_op) (w : Memory * AppState)
    : option (Memory * AppState) :=
  match ops with
  | [] => Some w
  | op :: rest => w' ← session_step w op; session_run rest w'
  end.

(** *** The history as a user sees it *)

(** A page of the history: its Location and the body cached for it. *)
Record Page := mk_Page {
  page_location : Location;
  page_body : option cstring
}.

Definition node_page (n : NavigationState.t) : Page :=
  mk_Page (node_location n) (NavigationState.page_content n).

(** The pages of the chain, head first, read from the memory. *)
Definition history_pages (w : Memory * AppState) : option (list Page) :=
  l ← history_chain w.1 w.2;
  mapM (λ a, node_page <$> heap w.1 !! a) l.

(** The place of the current node in the chain. *)
Definition history_position (w : Memory * AppState) : option nat :=
  l ← history_chain w.1 w.2;
  cur ← current_nav w.2;
  fst <$> list_find (λ a, a = cur) l.

(** A browser history: the pages in order and the place of the current
    one.  Visiting cuts the pages after the current one and adds the new
    page; going back and forward move the place, and stay when there is
    nowhere to go. *)
Definition browse_step (b : list Page * nat) (op : session_op) : list Page * nat :=
  let '(ps, i) := b in
  match op with
  | Visit host port selector =>
      let new :=
        mk_Page (mk_Location (take 255 host) port (take 1023 selector)) None in
      match ps with
      | [] => ([new], 0%nat)
      | _ :: _ => (take (S i) ps ++ [new], S i)
      end
  | GoBack => (ps, pred i)
  | GoForward => (ps, if decide (S i < length ps)%nat then S i else i)
  | Load response =>
      (alter (λ p, match page_body p with
                   | None => mk_Page (page_location p) (Some response)
                   | Some _ => p
                   end) i ps, i)
  | Reload => (alter (λ p, mk_Page (page_location p) None) i ps, i)
  end.

Definition browse (ops : list session_op) : list Page * nat :=
  foldl browse_step ([], 0%nat) ops.

(** The memory and the current pointer show the pages [ps] with the
    current one at place [i]. *)
Definition shows (w : Memory * AppState) (ps : list Page) (i : nat) : Prop :=
  (∀ a, is_Some (heap w.1 !! a) → (a < next_addr w.1)%nat) ∧
  ∃ l, chain_at (heap w.1) l
       ∧ Forall2 (λ a p, node_page <$> heap w.1 !! a = Some p) l ps
       ∧ current_nav w.2 = l !! i
       ∧ (l ≠ [] → (i < length l)%nat).

(** A session that starts with a visit, as every run of the program does. *)
Definition session_ready (ops : list session_op) : Prop :=
  ∃ host port selector rest, ops = Visit host port selector :: rest.

(** ** Terminal output *)

(** What the program writes to the terminal is the string of bytes it
    hands to [printf]; the buffering of [stdout] and the calls of
    [fflush] are left out. *)

Definition MAX_CONTENT_DISPLAY_WIDTH : nat := 78.

(** A string literal that starts with the escape character. *)
Definition esc (s : string) : cstring := "027"%char :: cs s.

Definition COLOR_RESET : cstring := esc "[0m".
Definition TEXT_COLOR : cstring := esc "[1;33m".
Definition DIRECTORY_COLOR : cstring := esc "[1;32m".
Definition CSO_COLOR : cstring := esc "[1;36m".
Definition ERROR_COLOR : cstring := esc "[1;31m".
Definition BINARY_COLOR : cstring := esc "[1;35m".
Definition SEARCH_COLOR : cstring := esc "[1;34m".
Definition TELNET_COLOR : cstring := esc "[1;37m".
Definition GIF_COLOR : cstring := esc "[1;35m".
Definition HTML_COLOR : cstring := esc "[1;36m".
Definition INFO_COLOR : cstring := esc "[0;90m".
Definition UNKNOWN_COLOR : cstring := esc "[1;91m".
Definition SELECTED_ITEM_COLOR : cstring := esc "[1;30;47m".
Definition HEADER_BG : cstring := esc "[48;5;17m".
Definition HEADER_FG : cstring := esc "[1;37m".

(** The conversion [%d] of [printf]. *)
Definition sprintf_d (z : Z) : cstring :=
  if z <? 0 then "-"%char :: cs (pretty (Z.to_N (- z)))
  else cs (pretty (Z.to_N z)).

(** [sprintf] into a buffer of [size] bytes: the string written, or
    [None] when it does not fit with its terminator (a write past the
    buffer, undefined in C). *)
Definition sprintf_into (size : nat) (s : cstring) : option cstring :=
  if (length s <? size)%nat then Some s else None.

Definition clear_terminal : cstring := esc "[H" ++ esc "[J".

Definition move_cursor (row col : Z) : cstring :=
  esc "[" ++ sprintf_d row ++ cs ";" ++ sprintf_d col ++ cs "H".

Definition print_string_at (str : cstring) (row col : Z) : cstring :=
  move_cursor row col ++ str.

Definition print_centered_string (str : cstring) (row term_width : Z) : cstring :=
  let len := Z.of_nat (length str) in
  let start_col := (term_width - len) ÷ 2 in
  let start_col := if start_col <? 1 then 1 else start_col in
  print_string_at str row start_col.

(** [get_gopher_item_color(type, selected)]. *)
Definition get_gopher_item_color (type : ascii) (selected : bool) : cstring :=
  if selected then SELECTED_ITEM_COLOR
  else if Ascii.eqb type "0" then TEXT_COLOR
  else if Ascii.eqb type "1" then DIRECTORY_COLOR
  else if Ascii.eqb type "2" then CSO_COLOR
  else if Ascii.eqb type "3" then ERROR_COLOR
  else if Ascii.eqb type "4" || Ascii.eqb type "5" || Ascii.eqb type "6"
          || Ascii.eqb type "9" then BINARY_COLOR
  else if Ascii.eqb type "7" then SEARCH_COLOR
  else if Ascii.eqb type "8" then TELNET_COLOR
  else if Ascii.eqb type "g" then GIF_COLOR
  else if Ascii.eqb type "h" then HTML_COLOR
  else if Ascii.eqb type "i" then INFO_COLOR
  else UNKNOWN_COLOR.

(** [get_current_url(nav, buffer, size)]: the content of [buffer]
    afterwards; [buffer[0] = 0] needs a buffer of one byte at least. *)
Definition get_current_url (nav : NavigationState.t) (size : nat)
    : option cstring :=
  let selector := NavigationState.selector nav in
  let host := NavigationState.host nav in
  if Ascii.eqb (char_at selector 0) NUL
     || (Ascii.eqb (char_at selector 0) "1" && Ascii.eqb (char_at selector 1) NUL)
  then
    let required_size := (length (cs "gopher://") + length host + 1 + 5 + 1)%nat in
    if (required_size <? size)%nat
    then sprintf_into size
           (cs "gopher://" ++ host ++ cs ":"
              ++ sprintf_d (NavigationState.port nav) ++ cs "/")
    else sprintf_into size []
  else
    let required_size :=
      (length (cs "gopher://") + length host + 1 + 5 + 1 + length selector + 1)%nat in
    if (required_size <? size)%nat
    then sprintf_into size
           (cs "gopher://" ++ host ++ cs ":"
              ++ sprintf_d (NavigationState.port nav) ++ cs "/" ++ selector)
    else sprintf_into size [].

(** [draw_header(state)]; [nav] is the node [state->current_nav] points
    to. *)
Definition draw_header (state : AppState) (nav : NavigationState.t)
    : option cstring :=
  url_buffer ← get_current_url nav MAX_URL_INPUT_LENGTH;
  let header_background := replicate MAX_CONTENT_DISPLAY_WIDTH SPACE in
  Some (HEADER_BG ++ HEADER_FG
        ++ print_centered_string header_background 1 (ws_col (terminal_size state))
        ++ print_centered_string url_buffer 1 (ws_col (terminal_size state))
        ++ COLOR_RESET
        ++ move_cursor 2 1).

(** The loop of [draw_gopher_menu].  [rows_left] is
    [available_rows - item_on_screen_count], which the loop counts down to
    0; an index outside the array is an undefined read. *)
Fixpoint draw_menu_rows (rows_left : nat) (state : AppState)
    (i item_on_screen_count start_col : Z) : option cstring :=
  match rows_left with
  | O => Some []
  | S rows_left' =>
      if i <? total_items state then
        item ← (if i <? 0 then None else gopher_items state !! Z.to_nat i);
        let is_selected :=
          GopherItem.is_selectable item
          && (GopherItem.menu_index item =? selected_index state) in
        let display_string := GopherItem.display_string item in
        display_buf ←
          (if GopherItem.is_selectable item then
             if (length display_string + 3 <? MAX_DISPLAY_LENGTH + 20)%nat
             then sprintf_into (MAX_DISPLAY_LENGTH + 20)
                    ((if is_selected then cs "->" else cs "  ")
                       ++ display_string)
             else Some (strncpy0 display_string (MAX_DISPLAY_LENGTH + 20 - 1))
           else
             if (length display_string + 3 <? MAX_DISPLAY_LENGTH + 20)%nat
             then sprintf_into (MAX_DISPLAY_LENGTH + 20)
                    (cs "  " ++ display_string)
             else Some (strncpy0 display_string (MAX_DISPLAY_LENGTH + 20 - 1)));
        let color := get_gopher_item_color (GopherItem.type item) is_selected in
        rest ← draw_menu_rows rows_left' state (i + 1)
                 (item_on_screen_count + 1) start_col;
        Some (color
              ++ print_string_at display_buf (4 + item_on_screen_count) start_col
              ++ COLOR_RESET ++ rest)
      else Some []
  end.

Definition draw_gopher_menu (state : AppState) (nav : NavigationState.t)
    : option cstring :=
  header ← draw_header state nav;
  let available_rows :=
    if 4 <? ws_row (terminal_size state)
    then ws_row (terminal_size state) - 4 else 0 in
  let start_col :=
    (ws_col (terminal_size state) - Z.of_nat MAX_CONTENT_DISPLAY_WIDTH) ÷ 2 + 1 in
  let start_col := if start_col <? 1 then 1 else start_col in
  rows ← draw_menu_rows (Z.to_nat available_rows) state (scroll_offset state)
           0 start_col;
  Some (clear_terminal ++ header ++ rows).

(** The first loop of [draw_text_viewer]: [ptr] after [lines_to_skip]
    lines are skipped. *)
Fixpoint skip_lines (lines_to_skip : nat) (ptr : cstring) : cstring :=
  match lines_to_skip with
  | O => ptr
  | S lines_to_skip' =>
      match ptr with
      | [] => ptr
      | _ :: _ =>
          match strchr ptr LF with
          | None => []
          | Some newline => skip_lines lines_to_skip' (drop (S newline) ptr)
          end
      end
  end.

(** The second loop of [draw_text_viewer]; [rows_left] is
    [available_rows - drawn_lines]. *)
Fixpoint draw_text_rows (rows_left : nat) (ptr : cstring)
    (drawn_lines start_col : Z) : cstring :=
  match rows_left with
  | O => []
  | S rows_left' =>
      match ptr with
      | [] => []
      | _ :: _ =>
          let next_newline := strchr ptr LF in
          let line_length :=
            match next_newline with
            | Some n => n
            | None => length ptr
            end in
          let copy_len :=
            if (MAX_CONTENT_DISPLAY_WIDTH <? line_length)%nat
            then MAX_CONTENT_DISPLAY_WIDTH else line_length in
          let temp_line := strncpy0 ptr copy_len in
          print_string_at temp_line (4 + drawn_lines) start_col
          ++ match next_newline with
             | Some n =>
                 draw_text_rows rows_left' (drop (S n) ptr) (drawn_lines + 1)
                   start_col
             | None => []
             end
      end
  end.

(** [draw_text_viewer(state, content)]; [nav] is the node
    [state->current_nav] points to. *)
Definition draw_text_viewer (state : AppState) (nav : NavigationState.t)
    (content : cstring) : option cstring :=
  header ← draw_header state nav;
  let available_rows :=
    if 4 <? ws_row (terminal_size state)
    then ws_row (terminal_size state) - 4 else 0 in
  let start_col :=
    (ws_col (terminal_size state) - Z.of_nat MAX_CONTENT_DISPLAY_WIDTH) ÷ 2 + 1 in
  let start_col := if start_col <? 1 then 1 else start_col in
  let ptr := skip_lines (Z.to_nat (text_scroll_line state)) content in
  Some (clear_terminal ++ header ++ TEXT_COLOR
        ++ draw_text_rows (Z.to_nat available_rows) ptr 0 start_col
        ++ COLOR_RESET).

(** The lines of a text: the pieces between newlines; a newline at the
    very end starts no further line. *)
Fixpoint text_lines_from (cur : cstring) (s : cstring) : list cstring :=
  match s with
  | [] => match cur with [] => [] | _ :: _ => [cur] end
  | c :: r =>
      if Ascii.eqb c LF then cur :: text_lines_from [] r
      else text_lines_from (cur ++ [c]) r
  end.

Definition text_lines (content : cstring) : list cstring :=
  text_lines_from [] content.

(** The column the content starts at: centred for a width of 78, never
    before column 1. *)
Definition content_column (state : AppState) : Z :=
  Z.max 1 ((ws_col (terminal_size state) - 78) ÷ 2 + 1).

(** An event that is a pending resize. *)
Definition is_resize (ev : input_event) : bool :=
  match ev with EvResize _ => true | _ => false end.

(** ** Prompts and key actions *)

(** [isprint] in the "C" locale: the characters from space to tilde. *)
Definition isprint (c : ascii) : bool :=
  let n := N_of_ascii c in
  ((32 <=? n) && (n <=? 126))%N.

(** The read loop of [handle_search_prompt].  [stdin] holds the bytes the
    successive calls of [read] return, and ends where the input ends;
    [query] is the buffer and [i] the index into it.  The result is the
    buffer, the index and the bytes not read; the echo on the terminal is
    left out. *)
Fixpoint search_prompt_loop (stdin : list ascii) (query : list ascii) (i : nat)
    : list ascii * nat * list ascii :=
  match stdin with
  | [] => (query, i, [])
  | c :: rest =>
      if Ascii.eqb c KEY_ENTER || Ascii.eqb c KEY_CARRIAGE_RETURN
      then (query, i, rest)
      else if Ascii.eqb c KEY_BACKSPACE || Ascii.eqb c "008"
      then search_prompt_loop rest query (if (0 <? i)%nat then (i - 1)%nat else i)
      else if Ascii.eqb c KEY_ESC || Ascii.eqb c "q"
      then (query, 0%nat, rest)
      else if isprint c && (i <? MAX_SELECTOR_LENGTH - 1)%nat
      then search_prompt_loop rest (<[i := c]> query) (S i)
      else search_prompt_loop rest query i
  end.

(** [handle_search_prompt(state, item)]: the world afterwards and the
    bytes left on the input. *)
Definition handle_search_prompt (m : Memory) (state : AppState)
    (item : GopherItem.t) (stdin : list ascii)
    : option (Memory * AppState * list ascii) :=
  let '(query, i, rest) :=
    search_prompt_loop stdin (replicate MAX_SELECTOR_LENGTH NUL) 0 in
  let query := c_str (<[i := NUL]> query) in
  if (0 <? i)%nat then
    if (length (GopherItem.selector item) + length query + 2
        <? MAX_SELECTOR_LENGTH * 2 + 2)%nat
    then
      full_selector ← sprintf_into (MAX_SELECTOR_LENGTH * 2 + 2)
                        (GopherItem.selector item ++ [TAB] ++ query);
      w ← navigate_to m state (GopherItem.host item) (GopherItem.port item)
            full_selector;
      Some (w, rest)
    else Some (m, state, rest)
  else Some (m, state, rest).

(** The read loop of [handle_open_prompt]. *)
Fixpoint open_prompt_loop (stdin : list ascii) (url_input : list ascii) (i : nat)
    : list ascii * nat * list ascii :=
  match stdin with
  | [] => (url_input, i, [])
  | c :: rest =>
      if Ascii.eqb c KEY_ENTER || Ascii.eqb c KEY_CARRIAGE_RETURN
      then (url_input, i, rest)
      else if Ascii.eqb c KEY_BACKSPACE || Ascii.eqb c "008"
      then open_prompt_loop rest url_input (if (0 <? i)%nat then (i - 1)%nat else i)
      else if Ascii.eqb c KEY_ESC
      then (url_input, 0%nat, rest)
      else if isprint c && (i <? MAX_URL_INPUT_LENGTH - 1)%nat
      then open_prompt_loop rest (<[i := c]> url_input) (S i)
      else open_prompt_loop rest url_input i
  end.

(** The [for (;;)] loop of [handle_open_prompt].  A turn that does not
    return has read one byte at least, so [fuel] = one more than the
    length of the input is enough. *)
Fixpoint open_prompt_turns (fuel : nat) (m : Memory) (state : AppState)
    (url_input : list ascii) (stdin : list ascii)
    : option (Memory * AppState * list ascii) :=
  match fuel with
  | O => None
  | S fuel' =>
      let url_input := <[0%nat := NUL]> url_input in
      let '(url_input, i, rest) := open_prompt_loop stdin url_input 0 in
      let url_input := <[i := NUL]> url_input in
      if (i =? 0)%nat then Some (m, state, rest)
      else
        match parse_gopher_address (c_str url_input) with
        | Some (new_host, new_port, new_selector) =>
            w ← navigate_to m state new_host new_port new_selector;
            Some (w, rest)
        | None => open_prompt_turns fuel' m state url_input (tail rest)
        end
  end.

Definition handle_open_prompt (m : Memory) (state : AppState)
    (stdin : list ascii) : option (Memory * AppState * list ascii) :=
  open_prompt_turns (S (length stdin)) m state
    (replicate MAX_URL_INPUT_LENGTH NUL) stdin.

(** The search of [handle_menu_action] for the item Enter activates. *)
Fixpoint find_activated (items : list GopherItem.t) (selected_index : Z)
    : option GopherItem.t :=
  match items with
  | [] => None
  | item :: rest =>
      if GopherItem.is_selectable item
         && (GopherItem.menu_index item =? selected_index)
      then Some item
      else find_activated rest selected_index
  end.

Definition set_is_running (state : AppState) (v : bool) : AppState :=
  mk_AppState (current_nav state) (gopher_items state) (total_items state)
    (selectable_items state) (selected_index state) (scroll_offset state)
    (text_scroll_line state) (total_content_lines state) v
    (terminal_size state).

(** [show_about_screen] changes nothing of the state and returns when a
    key is read; on an input that has ended it waits for ever. *)
Definition show_about_screen (stdin : list ascii) : option (list ascii) :=
  match stdin with
  | [] => None
  | _ :: rest => Some rest
  end.

(** [handle_menu_action(state, input)]. *)
Definition handle_menu_action (m : Memory) (state : AppState) (input : ascii)
    (stdin : list ascii) : option (Memory * AppState * list ascii) :=
  if Ascii.eqb input KEY_ENTER || Ascii.eqb input KEY_CARRIAGE_RETURN then
    match find_activated
            (take (Z.to_nat (total_items state)) (gopher_items state))
            (selected_index state) with
    | Some selected =>
        if Ascii.eqb (GopherItem.type selected) "7"
        then handle_search_prompt m state selected stdin
        else
          w ← navigate_to m state (GopherItem.host selected)
                (GopherItem.port selected) (GopherItem.selector selected);
          Some (w, stdin)
    | None => Some (m, state, stdin)
    end
  else if Ascii.eqb input "b" || Ascii.eqb input KEY_BACKSPACE then
    w ← navigate_back m state; Some (w, stdin)
  else if Ascii.eqb input "f" then
    w ← navigate_forward m state; Some (w, stdin)
  else if Ascii.eqb input "r" then
    w ← reload_current m state; Some (w, stdin)
  else if Ascii.eqb input "a" then
    rest ← show_about_screen stdin; Some (m, state, rest)
  else if Ascii.eqb input "o" then handle_open_prompt m state stdin
  else if Ascii.eqb input "q" then Some (m, set_is_running state false, stdin)
  else Some (m, state, stdin).

(** What [handle_text_viewer_interaction] does with the single byte that
    ends its loop.  The byte is never ['a']: on that one the loop shows the
    about screen, draws again and goes on. *)
Definition text_viewer_action (m : Memory) (state : AppState) (c : ascii)
    (stdin : list ascii) : option (Memory * AppState * list ascii) :=
  if Ascii.eqb c "b" || Ascii.eqb c KEY_BACKSPACE then
    w ← navigate_back m state; Some (w, stdin)
  else if Ascii.eqb c "f" then
    w ← navigate_forward m state; Some (w, stdin)
  else if Ascii.eqb c "r" then
    w ← reload_current m state; Some (w, stdin)
  else if Ascii.eqb c "o" then handle_open_prompt m state stdin
  else if Ascii.eqb c "q" then Some (m, set_is_running state false, stdin)
  else Some (m, state, stdin).

(** *** Numbering of the selectable items *)

(** The selectable items carry the numbers [k] + 1, [k] + 2, ... in
    order; the other items carry 0. *)
Fixpoint numbered (items : list GopherItem.t) (k : Z) : Prop :=
  match items with
  | [] => True
  | item :: rest =>
      if GopherItem.is_selectable item
      then GopherItem.menu_index item = k + 1 ∧ numbered rest (k + 1)
      else GopherItem.menu_index item = 0 ∧ numbered rest k
  end.

(** [idx] is the place of the [n]-th selectable item. *)
Definition is_nth_selectable (items : list GopherItem.t) (n : Z) (idx : nat)
    : Prop :=
  ∃ item, items !! idx = Some item
          ∧ GopherItem.is_selectable item = true
          ∧ count_selectable (take idx items) = n - 1.

(** One row of the menu: the colour, the text with its marker, the colour
    reset. *)
Definition menu_row (item : GopherItem.t) (selected : bool) (row col : Z)
    : cstring :=
  get_gopher_item_color (GopherItem.type item) selected
  ++ print_string_at
       ((if selected then cs "->" else cs "  ") ++ GopherItem.display_string item)
       row col
  ++ COLOR_RESET.

(** *** The line a prompt reads *)

(** A line editor on the text typed so far: Enter ends the line, a
    backspace (127 or 8) removes the last character, a cancel key empties
    the line and ends it, a printable character is added while the text is
    shorter than [limit], every other byte is dropped.  The result is the
    text and the input left. *)
Fixpoint read_line (cancel : ascii → bool) (limit : nat) (stdin : list ascii)
    (text : cstring) : cstring * list ascii :=
  match stdin with
  | [] => (text, [])
  | c :: rest =>
      if Ascii.eqb c KEY_ENTER || Ascii.eqb c KEY_CARRIAGE_RETURN
      then (text, rest)
      else if Ascii.eqb c KEY_BACKSPACE || Ascii.eqb c "008"
      then read_line cancel limit rest (take (length text - 1) text)
      else if cancel c then ([], rest)
      else if isprint c && (length text <? limit)%nat
      then read_line cancel limit rest (text ++ [c])
      else read_line cancel limit rest text
  end.

Definition search_cancel (c : ascii) : bool :=
  Ascii.eqb c KEY_ESC || Ascii.eqb c "q".

Definition open_cancel (c : ascii) : bool := Ascii.eqb c KEY_ESC.

(** ** The connection *)

(** The calls that can end the program: a call returns a value or the
    program dies with a message. *)
Inductive outcome (A : Type) :=
| Returns (a : A)
| Dies (message : cstring).
Arguments Returns {A} a.
Arguments Dies {A} message.

(** What one call of [write] does: the kernel takes some bytes (as many as
    it has room for, at most the bytes offered), the call is interrupted by
    a signal ([EINTR]), or it fails. *)
Inductive write_result :=
| Written (room : nat)
| WriteInterrupted
| WriteFailed.

(** [write_all(fd, buffer, len)] over the answers [os] of the successive
    calls of [write]: the value returned and the bytes that went out, in
    [wire]; [None] when the answers run out while the loop still runs. *)
Fixpoint write_all (os : list write_result) (buffer : cstring) (len : nat)
    (bytes_sent : nat) (wire : cstring) {struct os} : option (Z * cstring) :=
  match os with
  | [] => if (bytes_sent <? len)%nat then None
          else Some (Z.of_nat bytes_sent, wire)
  | answer :: os' =>
      if (bytes_sent <? len)%nat then
        match answer with
        | Written room =>
            let n_sent := (room `min` (len - bytes_sent))%nat in
            write_all os' buffer len (bytes_sent + n_sent)
              (wire ++ take n_sent (drop bytes_sent buffer))
        | WriteInterrupted => write_all os' buffer len bytes_sent wire
        | WriteFailed => Some (-1, wire)
        end
      else Some (Z.of_nat bytes_sent, wire)
  end.

(** How the stream from the server ends: the peer closes it ([read]
    returns 0) or a [read] fails. *)
Inductive stream_end := Closed | ReadError.

Definition INITIAL_BUFFER_SIZE : nat := 4096.

(** The loop of [receive_gopher_data].  [segments] are the pieces of the
    stream as they arrive: a [read] returns bytes of the first piece only,
    and leaves what does not fit.  [buffer] holds the [total_bytes] bytes
    received, [buffer_size] is the size allocated.  Every turn that goes on
    has read one byte at least, which bounds [fuel].  [None] stands for a
    [read] or a write past the buffer. *)
Fixpoint receive_loop (fuel : nat) (segments : list cstring) (e : stream_end)
    (buffer : cstring) (buffer_size : nat) : option (outcome cstring) :=
  match fuel with
  | O => None
  | S fuel' =>
      let total_bytes := length buffer in
      if (buffer_size <? total_bytes + 1)%nat then None
      else
        let count := (buffer_size - total_bytes - 1)%nat in
        match segments with
        | [] =>
            match e with
            | Closed => Some (Returns buffer)
            | ReadError => Some (Dies (cs "Error: Failed to read from socket."))
            end
        | segment :: rest =>
            match take count segment with
            | [] => Some (Returns buffer)
            | (_ :: _) as received =>
                let segments :=
                  match drop count segment with
                  | [] => rest
                  | (_ :: _) as left => left :: rest
                  end in
                let buffer := buffer ++ received in
                let buffer_size :=
                  if (buffer_size - 1 <=? length buffer)%nat
                  then (buffer_size * 2)%nat else buffer_size in
                receive_loop fuel' segments e buffer buffer_size
            end
        end
  end.

(** [receive_gopher_data(sock)]: the bytes of the buffer returned, before
    the terminator written at [buffer[total_bytes]]. *)
Definition receive_gopher_data (segments : list cstring) (e : stream_end)
    : option (outcome cstring) :=
  receive_loop (S (length (concat segments))) segments e [] INITIAL_BUFFER_SIZE.

(** The room the kernel offers in a run of answers, up to the first
    failure. *)
Fixpoint room_offered (os : list write_result) : nat :=
  match os with
  | Written room :: os' => (room + room_offered os')%nat
  | WriteInterrupted :: os' => room_offered os'
  | WriteFailed :: _ => 0%nat
  | [] => 0%nat
  end.

Fixpoint fails (os : list write_result) : bool :=
  match os with
  | Written _ :: os' => fails os'
  | WriteInterrupted :: os' => fails os'
  | WriteFailed :: _ => true
  | [] => false
  end.

(** What happens for one address of the host: [socket] fails, [connect]
    fails, or the connection is made. *)
Inductive attempt := SocketFails | ConnectFails | Connects.

(** The loop of [connect_and_send_request] over [he->h_addr_list]; [p] is
    the place of the address tried.  The result stands for [sock]: the
    place of the address connected to, [None] for -1. *)
Fixpoint connect_loop (addresses : list attempt) (p : nat) : option nat :=
  match addresses with
  | [] => None
  | SocketFails :: rest => connect_loop rest (S p)
  | ConnectFails :: rest => connect_loop rest (S p)
  | Connects :: _ => Some p
  end.

Definition CRLF : cstring := [CR; LF].

(** [connect_and_send_request(host, port, selector)]: [he] is what
    [gethostbyname] returns, as the fate of each address, [os] the answers
    of [write].  The result is the socket and the bytes sent. *)
Definition connect_and_send_request (he : option (list attempt))
    (selector : cstring) (os : list write_result)
    : option (outcome (nat * cstring)) :=
  match he with
  | None => Some (Dies (cs "Error: Failed to resolve host"))
  | Some addresses =>
      match connect_loop addresses 0 with
      | None => Some (Dies (cs "Error: Could not connect to host"))
      | Some sock =>
          let request_len := (length selector + length CRLF)%nat in
          if (MAX_SELECTOR_LENGTH + 3 <=? request_len)%nat
          then Some (Dies (cs "Error: The request is too long."))
          else
            request ← sprintf_into (MAX_SELECTOR_LENGTH + 3) (selector ++ CRLF);
            sent ← write_all os request request_len 0 [];
            if sent.1 =? Z.of_nat request_len
            then Some (Returns (sock, sent.2))
            else Some (Dies (cs "Error: Failed to send the request."))
      end
  end.

(** ** Start of the program *)

(** How [main] goes on from its arguments: it prints the help or the
    version and returns, it dies with a message, or it reaches
    [run_main_loop] with a state. *)
Inductive startup :=
| ShowsHelp
| ShowsVersion
| StartupDies (message : cstring)
| Starts (w : Memory * AppState).

(** [main(argc, argv)] up to the call of [run_main_loop]; [ws] is the
    terminal size [ioctl] reports. *)
Definition main_start (argv : list cstring) (ws : winsize) : option startup :=
  match argv !! 1%nat with
  | None => Some ShowsHelp
  | Some arg =>
      if streq arg (cs "-h") || streq arg (cs "--help") then Some ShowsHelp
      else if streq arg (cs "-v") || streq arg (cs "--version")
      then Some ShowsVersion
      else
        match parse_gopher_address arg with
        | None =>
            Some (StartupDies (cs "Error: Invalid Gopher address format."))
        | Some (initial_host, initial_port, initial_selector) =>
            w ← navigate_to initial_memory (initial_state ws) initial_host
                  initial_port initial_selector;
            match current_nav w.2 with
            | None =>
                Some (StartupDies
                        (cs "Error: Failed to initialize navigation state."))
            | Some _ => Some (Starts w)
            end
        end
  end.

(** * Properties *)

(** ** Characters and strings *)

Lemma strchr_Some_elem (s : cstring) (c : ascii) :
  c ≠ NUL → (is_Some (strchr s c) ↔ c ∈ s).
Proof.
  intros Hc. induction s as [|x r IH]; simpl.
  - destruct (Ascii.eqb_spec c NUL); [done|].
    split; [intros [? ?]; done | intros H; inversion H].
  - destruct (Ascii.eqb_spec x c) as [->|Hne].
    + split; [intros _; left | intros _; eauto].
    + rewrite elem_of_cons, <- IH. split.
      * intros [i Hi]. right. destruct (strchr r c); [eauto | done].
      * intros [->|[i Hi]]; [done|]. rewrite Hi. simpl. eauto.
Qed.

Lemma strchr_None_not_elem (s : cstring) (c : ascii) :
  c ≠ NUL → (strchr s c = None ↔ c ∉ s).
Proof.
  intros Hc. rewrite <- strchr_Some_elem by done.
  rewrite eq_None_not_Some. done.
Qed.

Lemma strchr_first_line (content : cstring) (i : nat) :
  strchr content LF = Some i → first_line content = take i content.
Proof.
  revert i. induction content as [|x r IH]; intros i; simpl.
  - done.
  - destruct (Ascii.eqb_spec x LF) as [->|Hne].
    + intros [= <-]. done.
    + destruct (strchr r LF) as [j|] eqn:Hj; simpl; [|done].
      intros [= <-]. simpl. f_equal. by apply IH.
Qed.

Lemma strchr_first_line_None (content : cstring) :
  strchr content LF = None → first_line content = content.
Proof.
  induction content as [|x r IH]; simpl; [done|].
  destruct (Ascii.eqb_spec x LF) as [->|Hne]; [done|].
  destruct (strchr r LF) eqn:Hj; simpl; [done|].
  intros _. f_equal. by apply IH.
Qed.

(** ** Content classifier *)

(** The line the classifier searches for a tab is the first line of the
    body, cut to 1023 bytes. *)
Lemma inspected_first_line (content : cstring) :
  match strchr content LF with
  | Some first_line_end =>
      strncpy0 content
        (if (MAX_DISPLAY_LENGTH <=? first_line_end)%nat
         then (MAX_DISPLAY_LENGTH - 1)%nat else first_line_end)
  | None => strncpy0 content (MAX_DISPLAY_LENGTH - 1)
  end = take 1023 (first_line content).
Proof.
  unfold strncpy0, MAX_DISPLAY_LENGTH.
  destruct (strchr content LF) as [i|] eqn:Hi.
  - rewrite (strchr_first_line _ _ Hi), take_take.
    destruct (Nat.leb_spec 1024 i); f_equal; lia.
  - by rewrite (strchr_first_line_None _ Hi).
Qed.

(** C3. The classifier: an absent body is not a menu; with a body, a
    selector that starts with one of 0 4 5 6 9 g I h is never a menu, an
    empty selector or one that starts with 1 always is, and any other
    selector is a menu exactly when the first line of the body as a string
    (the bytes before its first NUL), cut to 1023 bytes, contains a tab;
    for a body free of NUL that is the first line of the body itself. *)
Theorem is_gopher_menu_classifies (n : NavigationState.t) :
  (NavigationState.page_content n = None → is_gopher_menu (Some n) = false) ∧
  (∀ body, NavigationState.page_content n = Some body →
     (∀ c rest, NavigationState.selector n = c :: rest →
        c ∈ non_menu_types → is_gopher_menu (Some n) = false) ∧
     (NavigationState.selector n = [] → is_gopher_menu (Some n) = true) ∧
     (∀ rest, NavigationState.selector n = "1"%char :: rest →
        is_gopher_menu (Some n) = true) ∧
     (∀ c rest, NavigationState.selector n = c :: rest →
        c ∉ non_menu_types → c ≠ "1"%char → c ≠ NUL →
        (is_gopher_menu (Some n) = true
         ↔ TAB ∈ take 1023 (first_line (c_str body)))
        ∧ (NUL ∉ body →
           (is_gopher_menu (Some n) = true
            ↔ TAB ∈ take 1023 (first_line body))))).
Proof.
  split; [intros H; simpl; by rewrite H|].
  intros body Hbody. unfold is_gopher_menu. rewrite Hbody.
  split; [|split; [|split]].
  - intros c rest -> Hc. unfold char_at; simpl.
    unfold non_menu_types in Hc. rewrite !elem_of_cons, elem_of_nil in Hc.
    destruct Hc as [->|[->|[->|[->|[->|[->|[->|[->|[]]]]]]]]]; reflexivity.
  - intros ->. reflexivity.
  - intros rest ->. reflexivity.
  - intros c rest -> Hnm H1 Hnul. unfold char_at; simpl.
    unfold non_menu_types in Hnm.
    rewrite !not_elem_of_cons in Hnm.
    destruct Hnm as (?&?&?&?&?&?&?&?&_).
    rewrite !(proj2 (Ascii.eqb_neq c _)) by done. simpl.
    rewrite inspected_first_line.
    assert (Hiff : match strchr (take 1023 (first_line (c_str body))) TAB with
                   | Some _ => true
                   | None => false
                   end = true
                   ↔ TAB ∈ take 1023 (first_line (c_str body))).
    { rewrite <- (strchr_Some_elem _ TAB) by done.
      destruct (strchr (take 1023 (first_line (c_str body))) TAB); split;
        first [done | eauto | intros [? ?]; done]. }
    split; [exact Hiff|].
    intros Hfree.
    assert (Hid : c_str body = body).
    { clear -Hfree. induction body as [|x r IH]; [done|].
      apply not_elem_of_cons in Hfree as [Hx Hr]. simpl.
      destruct (Ascii.eqb_spec x NUL); [done|]. f_equal. by apply IH. }
    rewrite Hid in Hiff |- *. exact Hiff.
Qed.

(** Witness of C3: a selector of type 7 over a body free of NUL whose
    first line has a tab. *)
Lemma is_gopher_menu_classifies_witness :
  NavigationState.page_content search_node = Some search_body
  ∧ NavigationState.selector search_node = "7"%char :: cs "/search"
  ∧ ("7"%char ∉ non_menu_types)
  ∧ (NUL ∉ search_body)
  ∧ (is_gopher_menu (Some search_node) = true
     ↔ TAB ∈ take 1023 (first_line search_body)).
Proof.
  assert (Hnm : "7"%char ∉ non_menu_types).
  { unfold non_menu_types. rewrite !not_elem_of_cons.
    split_and!; try discriminate. apply not_elem_of_nil. }
  assert (Hfree : NUL ∉ search_body)
    by (apply (bool_decide_unpack _); vm_compute; exact I).
  split_and!; [reflexivity|reflexivity|exact Hnm|exact Hfree|].
  destruct (is_gopher_menu_classifies search_node) as [_ H].
  destruct (H search_body eq_refl) as (_ & _ & _ & H7).
  destruct (H7 "7"%char (cs "/search") eq_refl Hnm) as [_ Hb];
    [discriminate|discriminate|].
  exact (Hb Hfree).
Defined.

(** Counterexample to C3 as stated: a body the program can receive, under
    a selector of type 7, whose first line holds a tab after a NUL; the
    classifier does not see the tab and answers that it is not a menu. *)
Lemma tab_after_nul_is_not_seen :
  receive_gopher_data [nul_body] Closed = Some (Returns nul_body)
  ∧ NavigationState.page_content nul_node = Some nul_body
  ∧ NavigationState.selector nul_node = cs "7/s"
  ∧ first_line nul_body = cs "ab" ++ NUL :: TAB :: cs "cd"
  ∧ TAB ∈ take 1023 (first_line nul_body)
  ∧ is_gopher_menu (Some nul_node) = false.
Proof.
  split_and!; try (vm_compute; reflexivity).
  apply (bool_decide_unpack _). vm_compute. exact I.
Qed.

(** ** Text viewer *)

Lemma count_newlines_count_char (count : Z) (content : cstring) :
  count_newlines count content = count + count_char LF content.
Proof.
  revert count. unfold count_char.
  induction content as [|c r IH]; intros count; [simpl; lia|].
  cbn [count_newlines]. rewrite IH, filter_cons.
  destruct (Ascii.eqb_spec c LF), (decide (c = LF)); simpl length;
    try done; lia.
Qed.

(** The line count of a body: its newlines, plus one when the body is not
    empty and does not end in a newline. *)
Lemma calculate_text_lines_total (state : AppState) (content : cstring) :
  total_content_lines (calculate_text_lines state content) =
  count_char LF content +
  match last content with
  | Some c => if decide (c = LF) then 0 else 1
  | None => 0
  end.
Proof.
  unfold calculate_text_lines; simpl.
  rewrite count_newlines_count_char.
  destruct (last content) as [c|]; [|lia].
  destruct (Ascii.eqb_spec c LF), (decide (c = LF)); try done; lia.
Qed.

(** The clamp at the head of every turn of the viewer loop puts the scroll
    line into [0, max(total_lines - viewable_rows, 0)]. *)
Lemma clamp_text_scroll_range (state : AppState) (viewable_rows : Z) :
  text_scroll_line (clamp_text_scroll state viewable_rows) =
  clamp 0 (Z.max (total_content_lines state - viewable_rows) 0)
    (text_scroll_line state).
Proof.
  unfold clamp_text_scroll, clamp.
  destruct (Z.ltb_spec (total_content_lines state - viewable_rows)
              (text_scroll_line state)); simpl;
    match goal with
    | |- context [?a <? 0] => destruct (Z.ltb_spec a 0)
    end; simpl; lia.
Qed.

Lemma ten_lines_total (state : AppState) :
  total_content_lines (calculate_text_lines state ten_lines) = 10.
Proof. reflexivity. Qed.

(** C8. The render that follows a key press comes before the next clamp:
    on a body of ten lines with four rows of content, a Down arrow at scroll
    line 6 makes [draw_text_viewer] run with scroll line 7, outside
    [0, 6]; the state is clamped back to 6 only at the next turn, which does
    not render. *)
Theorem text_viewer_renders_unclamped_scroll :
  total_content_lines (calculate_text_lines viewer_at_6 ten_lines) = 10 ∧
  viewable_rows_of viewer_at_6 1 = 4 ∧
  (handle_text_viewer_interaction viewer_at_6 ten_lines
     [EvEscape KEY_DOWN]).1.2 = [6; 7] ∧
  (handle_text_viewer_interaction viewer_at_6 ten_lines
     [EvEscape KEY_DOWN; EvIdle]).1.2 = [6; 7] ∧
  text_scroll_line
    (handle_text_viewer_interaction viewer_at_6 ten_lines
       [EvEscape KEY_DOWN; EvIdle]).1.1 = 6 ∧
  (handle_text_viewer_interaction viewer_at_6 ten_lines
     [EvEscape KEY_PGDN]).1.2 = [6; 10] ∧
  (handle_text_viewer_interaction viewer_at_0 ten_lines
     (replicate 7 (EvEscape KEY_DOWN))).1.2 = [0; 1; 2; 3; 4; 5; 6; 7] ∧
  Z.max (10 - 4) 0 < 7.
Proof. repeat split; vm_compute; reflexivity. Qed.

(** ** Menu navigation keys *)

Lemma handle_menu_navigation_empty (state : AppState) (input : ascii) :
  selectable_items state = 0 → handle_menu_navigation state input = state.
Proof. intros H. unfold handle_menu_navigation. by rewrite H. Qed.

Lemma process_lines_selectable (lines : list cstring) (current_host : cstring)
    (current_port : Z) (items : list GopherItem.t) (selectable : Z) :
  ∃ new,
    process_lines lines current_host current_port items selectable =
      (items ++ new, selectable + count_selectable new).
Proof.
  revert items selectable.
  induction lines as [|line rest IH]; intros items selectable; simpl.
  - exists []. unfold count_selectable. simpl. by rewrite app_nil_r, Z.add_0_r.
  - destruct (parse_gopher_line line current_host current_port) as [item|].
    + destruct (GopherItem.is_selectable item) eqn:Hsel.
      * destruct (IH (items ++ [set_menu_index item (selectable + 1)])
                    (selectable + 1)) as [new ->].
        exists (set_menu_index item (selectable + 1) :: new).
        rewrite <- app_assoc. simpl. f_equal.
        unfold count_selectable. rewrite filter_cons. simpl.
        rewrite decide_True by done. simpl length. lia.
      * destruct (IH (items ++ [item]) selectable) as [new ->].
        exists (item :: new). rewrite <- app_assoc. simpl. f_equal.
        unfold count_selectable. rewrite filter_cons.
        rewrite decide_False by (rewrite Hsel; done). done.
    + apply IH.
Qed.

Lemma count_selectable_none (items : list GopherItem.t) :
  (∀ item, item ∈ items → GopherItem.is_selectable item = false) →
  count_selectable items = 0.
Proof.
  intros H. unfold count_selectable.
  induction items as [|it r IH]; [done|].
  rewrite filter_cons, decide_False.
  - apply IH. intros item Hin. apply H. by right.
  - rewrite (H it) by left. done.
Qed.

(** The selection stays on an ordinal of the menu. *)
Lemma handle_menu_navigation_range (state : AppState) (input : ascii) :
  1 ≤ selected_index state ≤ selectable_items state →
  selectable_items (handle_menu_navigation state input)
    = selectable_items state
  ∧ 1 ≤ selected_index (handle_menu_navigation state input)
      ≤ selectable_items state.
Proof.
  intros Hn. unfold handle_menu_navigation.
  destruct (Z.eqb_spec (selectable_items state) 0); [lia|]. simpl.
  split; [done|].
  destruct (Z.ltb_spec 4 (ws_row (terminal_size state)));
    repeat match goal with
    | |- context [Ascii.eqb ?a ?b] => destruct (Ascii.eqb a b)
    end;
    repeat match goal with
    | |- context [?a <? ?b] => destruct (Z.ltb_spec a b)
    end; lia.
Qed.

Lemma menu_loop_range (events : list input_event) : ∀ state,
  1 ≤ selected_index state ≤ selectable_items state →
  selectable_items (menu_loop state events).1 = selectable_items state
  ∧ 1 ≤ selected_index (menu_loop state events).1 ≤ selectable_items state.
Proof.
  induction events as [|ev rest IH]; intros state Hn; simpl; [done|].
  destruct (is_running state); simpl; [|done].
  destruct ev as [ws| |key|c]; simpl; try done.
  - apply (IH (set_terminal_size state ws)). done.
  - by apply IH.
  - destruct (handle_menu_navigation_range state key Hn) as [Hs Hr].
    destruct (IH (handle_menu_navigation state key)) as [Hs' Hr'].
    + by rewrite Hs.
    + rewrite Hs', Hs. split; [done|]. by rewrite Hs in Hr'.
Qed.

(** In a menu just built with at least one selectable item, and after any
    number of turns of the menu loop, the selection is in [1, last]. *)
Lemma menu_selection_in_range (nav : NavigationState.t) (state : AppState)
    (data : cstring) (events : list input_event) :
  let menu := process_gopher_response nav state data in
  1 ≤ selectable_items menu →
  1 ≤ selected_index (menu_loop menu events).1
    ≤ selectable_items (menu_loop menu events).1.
Proof.
  intros menu Hlast.
  assert (Hsel : selected_index menu = 1).
  { unfold menu, process_gopher_response. by destruct (process_lines _ _ _ _ _). }
  destruct (menu_loop_range events menu) as [Hs Hr]; [lia|].
  by rewrite Hs.
Qed.

(** C9. With at least one selectable item and the selection on an ordinal
    in [1, last]: Up goes from n to n-1 and wraps from 1 to the last
    ordinal, Down goes from n to n+1 and wraps from the last ordinal to 1,
    PageUp and PageDown move by viewable_rows down and up, clamped into
    [1, last]. *)
Theorem menu_navigation_keys (state : AppState) :
  let n := selected_index state in
  let last := selectable_items state in
  let rows := viewable_rows_of state 0 in
  1 ≤ last → 1 ≤ n ≤ last →
  (1 < n → selected_index (handle_menu_navigation state KEY_UP) = n - 1) ∧
  (n = 1 → selected_index (handle_menu_navigation state KEY_UP) = last) ∧
  (n < last → selected_index (handle_menu_navigation state KEY_DOWN) = n + 1) ∧
  (n = last → selected_index (handle_menu_navigation state KEY_DOWN) = 1) ∧
  selected_index (handle_menu_navigation state KEY_PGUP) =
    clamp 1 last (n - rows) ∧
  selected_index (handle_menu_navigation state KEY_PGDN) =
    clamp 1 last (n + rows).
Proof.
  intros n last rows Hlast Hn. subst n last rows.
  unfold handle_menu_navigation, viewable_rows_of, clamp.
  destruct (Z.eqb_spec (selectable_items state) 0); [lia|].
  simpl.
  destruct (Z.ltb_spec 4 (ws_row (terminal_size state)));
  repeat split; intros;
    repeat match goal with
    | |- context [?a <? ?b] => destruct (Z.ltb_spec a b)
    end; simpl; lia.
Qed.

(** Witness of C9: three selectable items, selection on the first. *)
Lemma menu_navigation_keys_witness :
  1 ≤ selectable_items three_links_menu
  ∧ 1 ≤ selected_index three_links_menu ≤ selectable_items three_links_menu
  ∧ selectable_items three_links_menu = 3
  ∧ selected_index three_links_menu = 1
  ∧ selected_index (handle_menu_navigation three_links_menu KEY_UP) = 3
  ∧ selected_index (handle_menu_navigation three_links_menu KEY_DOWN) = 2
  ∧ selected_index (handle_menu_navigation three_links_menu KEY_PGUP) =
      clamp 1 3 (1 - viewable_rows_of three_links_menu 0)
  ∧ selected_index (handle_menu_navigation three_links_menu KEY_PGDN) =
      clamp 1 3 (1 + viewable_rows_of three_links_menu 0).
Proof.
  assert (H1 : 1 ≤ selectable_items three_links_menu) by (vm_compute; discriminate).
  assert (H2 : 1 ≤ selected_index three_links_menu
               ≤ selectable_items three_links_menu)
    by (split; vm_compute; discriminate).
  assert (H3 : selectable_items three_links_menu = 3) by reflexivity.
  assert (H4 : selected_index three_links_menu = 1) by reflexivity.
  destruct (menu_navigation_keys three_links_menu H1 H2)
    as (_ & Hup & Hdown & _ & Hpgup & Hpgdn).
  refine (conj H1 (conj H2 (conj H3 (conj H4 _)))).
  split_and!.
  - rewrite (Hup H4). exact H3.
  - rewrite Hdown by (rewrite H3, H4; lia). rewrite H4. reflexivity.
  - rewrite Hpgup, H3, H4. reflexivity.
  - rewrite Hpgdn, H3, H4. reflexivity.
Defined.

(** C10. A menu without selectable items: every navigation key leaves the
    state, and so the selected ordinal and the scroll offset, as it is. *)
Theorem navigation_without_selectable_items (nav : NavigationState.t)
    (state : AppState) (data : cstring) (input : ascii) :
  let menu := process_gopher_response nav state data in
  (∀ item, item ∈ gopher_items menu → GopherItem.is_selectable item = false) →
  handle_menu_navigation menu input = menu ∧
  selected_index (handle_menu_navigation menu input) = selected_index menu ∧
  scroll_offset (handle_menu_navigation menu input) = scroll_offset menu.
Proof.
  intros menu Hnone.
  assert (Hzero : selectable_items menu = 0).
  { subst menu. unfold process_gopher_response in *.
    destruct (process_lines_selectable (strtok_lines [] data)
                (NavigationState.host nav) (NavigationState.port nav) [] 0)
      as [new Hnew].
    rewrite Hnew in *. simpl in *. by apply count_selectable_none. }
  rewrite (handle_menu_navigation_empty _ _ Hzero). done.
Qed.

(** Witness of C10: a menu of informational lines only. *)
Lemma navigation_without_selectable_items_witness :
  (∀ item, item ∈ gopher_items info_only_menu →
     GopherItem.is_selectable item = false)
  ∧ length (gopher_items info_only_menu) = 2%nat
  ∧ handle_menu_navigation info_only_menu KEY_DOWN = info_only_menu.
Proof.
  assert (H : ∀ item, item ∈ gopher_items info_only_menu →
                GopherItem.is_selectable item = false).
  { apply Forall_forall. vm_compute. repeat constructor. }
  split_and!; [exact H|reflexivity|].
  exact (proj1 (navigation_without_selectable_items root_node
                  (initial_state terminal_24x80)
                  (info_line ++ [CR; LF] ++ two_field_info_line ++ [CR; LF])
                  KEY_DOWN H)).
Defined.

(** ** Navigation history *)

Lemma from_option_head (l : list addr) : from_option Some None (head l) = head l.
Proof. by destruct l. Qed.

Lemma dllseg_agree h h' p l e :
  (∀ x, x ∈ l → h' !! x = h !! x) → dllseg h p l e → dllseg h' p l e.
Proof.
  revert p. induction l as [|x r IH]; intros p Hag; simpl; [done|].
  intros (n & Hn & Hp & Hnx & Hrest). exists n.
  rewrite Hag by left. split_and!; try done.
  apply IH; [|done]. intros y Hy. apply Hag. by right.
Qed.

Lemma dllseg_app h p l1 l2 e :
  dllseg h p (l1 ++ l2) e ↔
  dllseg h p l1 (from_option Some e (head l2))
  ∧ dllseg h (from_option Some p (last l1)) l2 e.
Proof.
  revert p. induction l1 as [|x r IH]; intros p; simpl.
  - tauto.
  - setoid_rewrite IH.
    assert (Hh : from_option Some e (head (r ++ l2)) =
                 from_option Some (from_option Some e (head l2)) (head r))
      by (by destruct r).
    assert (Hl : from_option Some (Some x) (last r) =
                 from_option Some p (last (x :: r))).
    { destruct r as [|y r]; [done|]. rewrite last_cons_cons.
      destruct (last (y :: r)) eqn:Hlast; [done|].
      by apply last_None in Hlast. }
    rewrite Hh, Hl. split.
    + intros (n & H1 & H2 & H3 & H4 & H5). split; [|exact H5].
      exists n. auto.
    + intros [(n & H1 & H2 & H3 & H4) H5]. exists n. auto.
Qed.

(** Where a node's links point, by its position in the segment. *)
Lemma dllseg_lookup h p l e i a :
  dllseg h p l e → l !! i = Some a →
  ∃ n, h !! a = Some n
       ∧ NavigationState.prev n = match i with O => p | S j => l !! j end
       ∧ NavigationState.next n = from_option Some e (l !! S i).
Proof.
  revert p i. induction l as [|x r IH]; intros p i; simpl; [done|].
  intros (n & Hn & Hp & Hnx & Hrest). destruct i as [|i]; simpl.
  - intros [= <-]. exists n. split_and!; try done.
    rewrite Hnx. by destruct r.
  - intros Hi. destruct (IH _ _ Hrest Hi) as (n' & ? & Hp' & ?).
    exists n'. split_and!; try done.
Qed.

(** *** A heap that is one chain *)

Section Chain.
Context (h : gmap addr NavigationState.t) (l : list addr).
Hypothesis Hchain : chain_at h l.

Lemma chain_at_lookup i a :
  l !! i = Some a →
  ∃ n, h !! a = Some n
       ∧ NavigationState.prev n = match i with O => None | S j => l !! j end
       ∧ NavigationState.next n = l !! S i.
Proof.
  intros Hi. destruct Hchain as (_ & _ & Hseg).
  destruct (dllseg_lookup _ _ _ _ _ _ Hseg Hi) as (n & ? & ? & Hnx).
  exists n. split_and!; try done. rewrite Hnx. by destruct (l !! S i).
Qed.

Lemma chain_at_next_link a b :
  next_link h a b → ∃ i, l !! i = Some a ∧ l !! S i = Some b.
Proof.
  intros (n & Hn & Hnx).
  assert (Ha : a ∈ l) by (apply Hchain; eauto).
  apply list_elem_of_lookup in Ha as [i Hi].
  destruct (chain_at_lookup _ _ Hi) as (n' & Hn' & _ & Hnx').
  exists i. split; [done|]. congruence.
Qed.

Lemma chain_at_prev_link a b :
  prev_link h a b → ∃ i, l !! S i = Some a ∧ l !! i = Some b.
Proof.
  intros (n & Hn & Hp).
  assert (Ha : a ∈ l) by (apply Hchain; eauto).
  apply list_elem_of_lookup in Ha as [i Hi].
  destruct (chain_at_lookup _ _ Hi) as (n' & Hn' & Hp' & _).
  destruct i as [|i]; [congruence|].
  exists i. split; [done|]. congruence.
Qed.

Lemma chain_at_linked a b : linked h a b → b ∈ l.
Proof.
  intros [H|H].
  - destruct (chain_at_next_link _ _ H) as (i & _ & Hb).
    by eapply list_elem_of_lookup_2.
  - destruct (chain_at_prev_link _ _ H) as (i & _ & Hb).
    by eapply list_elem_of_lookup_2.
Qed.

(** Along [next] the position in the chain grows, along [prev] it
    shrinks. *)
Lemma chain_at_next_path x y :
  tc (next_link h) x y →
  ∃ i j, (i < j)%nat ∧ l !! i = Some x ∧ l !! j = Some y.
Proof.
  induction 1 as [x y H|x y z H _ (i & j & Hij & Hi & Hj)].
  - destruct (chain_at_next_link _ _ H) as (i & ? & ?).
    exists i, (S i). split_and!; [lia|done..].
  - destruct (chain_at_next_link _ _ H) as (k & ? & Hk).
    assert (S k = i) by (eapply NoDup_lookup; [apply Hchain|done..]).
    exists k, j. split_and!; [lia|done..].
Qed.

Lemma chain_at_prev_path x y :
  tc (prev_link h) x y →
  ∃ i j, (j < i)%nat ∧ l !! i = Some x ∧ l !! j = Some y.
Proof.
  induction 1 as [x y H|x y z H _ (i & j & Hij & Hi & Hj)].
  - destruct (chain_at_prev_link _ _ H) as (i & ? & ?).
    exists (S i), i. split_and!; [lia|done..].
  - destruct (chain_at_prev_link _ _ H) as (k & ? & Hk).
    assert (k = i) by (eapply NoDup_lookup; [apply Hchain|done..]).
    exists (S k), j. split_and!; [lia|done..].
Qed.

Lemma chain_at_acyclic : acyclic h.
Proof.
  intros a. split; intros Htc.
  - destruct (chain_at_next_path _ _ Htc) as (i & j & Hij & Hi & Hj).
    assert (i = j) by (eapply NoDup_lookup; [apply Hchain|done..]). lia.
  - destruct (chain_at_prev_path _ _ Htc) as (i & j & Hij & Hi & Hj).
    assert (i = j) by (eapply NoDup_lookup; [apply Hchain|done..]). lia.
Qed.

Lemma chain_at_one_head : l ≠ [] → exactly_one_head h.
Proof.
  intros Hne.
  assert (is_Some (l !! 0%nat)) as [x Hx].
  { apply lookup_lt_is_Some. clear Hchain. destruct l; [done|simpl; lia]. }
  exists x. split.
  - destruct (chain_at_lookup 0 x Hx) as (n & ? & ? & _). by exists n.
  - intros b (n & Hn & Hp).
    assert (Hb : b ∈ l) by (apply Hchain; eauto).
    apply list_elem_of_lookup in Hb as [i Hi].
    destruct (chain_at_lookup _ _ Hi) as (n' & Hn' & Hp' & _).
    destruct i as [|i]; [congruence|].
    assert (is_Some (l !! i)) as [y Hy].
    { apply lookup_lt_is_Some. apply lookup_lt_Some in Hi. lia. }
    congruence.
Qed.

Lemma chain_at_size : size h = length l.
Proof.
  destruct Hchain as (Hnd & Hdom & _).
  rewrite <- size_dom, <- (size_list_to_set (C := gset addr) l) by done.
  f_equal. apply set_eq. intros a.
  rewrite elem_of_dom, elem_of_list_to_set. apply Hdom.
Qed.

End Chain.

(** The freeing loop terminates and removes exactly the forward segment. *)
Lemma free_forward_loop_spec l2 : ∀ h p fuel,
  dllseg h p l2 None → NoDup l2 → (length l2 ≤ fuel)%nat →
  free_forward_loop fuel h (head l2) = Some (foldr delete h l2).
Proof.
  induction l2 as [|x r IH]; intros h p fuel Hseg Hnd Hfuel; simpl.
  - by destruct fuel.
  - destruct fuel as [|fuel]; [simpl in Hfuel; lia|].
    destruct Hseg as (n & Hn & _ & Hnx & Hrest). simpl.
    rewrite Hn. simpl. rewrite Hnx, from_option_head.
    apply NoDup_cons in Hnd as [Hx Hnd].
    rewrite (IH (delete x h) (Some x) fuel).
    + by rewrite delete_foldr_delete.
    + eapply dllseg_agree; [|done]. intros y Hy.
      apply lookup_delete_ne. intros ->. done.
    + done.
    + simpl in Hfuel. lia.
Qed.

Lemma walk_next_spec l : ∀ h p fuel,
  dllseg h p l None → (length l ≤ fuel)%nat →
  walk_next fuel h (head l) = Some l.
Proof.
  induction l as [|x r IH]; intros h p fuel Hseg Hfuel; simpl.
  - by destruct fuel.
  - destruct fuel as [|fuel]; [simpl in Hfuel; lia|].
    destruct Hseg as (n & Hn & _ & Hnx & Hrest). simpl.
    rewrite Hn. simpl. rewrite Hnx, from_option_head.
    rewrite (IH h (Some x) fuel); [done|done|simpl in Hfuel; lia].
Qed.

Lemma find_head_spec l1 : ∀ h x a e fuel,
  dllseg h None (x :: l1 ++ [a]) e → (S (length l1) ≤ fuel)%nat →
  find_head fuel h a = Some x.
Proof.
  induction l1 as [|b l1 IH] using rev_ind; intros h x a e fuel Hseg Hfuel.
  - destruct fuel as [|fuel]; [lia|].
    destruct (dllseg_lookup _ _ _ _ 1 a Hseg eq_refl) as (n & Hn & Hp & _).
    simpl in Hp. simpl. rewrite Hn. simpl. rewrite Hp.
    destruct (dllseg_lookup _ _ _ _ 0 x Hseg eq_refl) as (n' & Hn' & Hp' & _).
    destruct fuel; simpl; rewrite Hn'; simpl; by rewrite Hp'.
  - rewrite length_app in Hfuel. simpl in Hfuel.
    destruct fuel as [|fuel]; [lia|].
    assert (Ha : (x :: (l1 ++ [b]) ++ [a]) !! (S (S (length l1))) = Some a).
    { change (x :: (l1 ++ [b]) ++ [a]) with ((x :: l1 ++ [b]) ++ [a]).
      apply list_lookup_middle. simpl. rewrite length_app. simpl. lia. }
    destruct (dllseg_lookup _ _ _ _ _ a Hseg Ha) as (n & Hn & Hp & _).
    assert (Hb : (x :: (l1 ++ [b]) ++ [a]) !! (S (length l1)) = Some b).
    { simpl. rewrite <- app_assoc. by apply list_lookup_middle. }
    rewrite Hb in Hp.
    simpl. rewrite Hn. simpl. rewrite Hp.
    apply (IH h x b (Some a)); [|lia].
    change (x :: (l1 ++ [b]) ++ [a]) with ((x :: l1 ++ [b]) ++ [a]) in Hseg.
    apply dllseg_app in Hseg as [Hseg _]. exact Hseg.
Qed.

(** The traversal of the chain finds every live node, head first. *)
Lemma history_chain_spec m state cur l :
  current_nav state = Some cur → chain_at (heap m) l → cur ∈ l →
  history_chain m state = Some l.
Proof.
  intros Hcur Hc Hin. unfold history_chain. rewrite Hcur.
  pose proof (chain_at_size _ _ Hc) as Hsize.
  destruct Hc as (Hnd & Hdom & Hseg).
  apply list_elem_of_split in Hin as (l1 & l2 & ->).
  assert (Hhead : ∃ x, find_head (size (heap m)) (heap m) cur = Some x
                       ∧ head (l1 ++ cur :: l2) = Some x).
  { destruct l1 as [|x l1].
    - exists cur. split; [|done].
      destruct Hseg as (n & Hn & Hp & _).
      destruct (size (heap m)); simpl; rewrite Hn; simpl; by rewrite Hp.
    - exists x. split; [|done].
      apply (find_head_spec l1 (heap m) x cur (head l2)).
      + replace ((x :: l1) ++ cur :: l2) with ((x :: l1 ++ [cur]) ++ l2) in Hseg
          by (simpl; by rewrite <- app_assoc).
        apply dllseg_app in Hseg as [Hseg _].
        by rewrite from_option_head in Hseg.
      + rewrite Hsize, length_app. simpl. lia. }
  destruct Hhead as (x & -> & Hx). simpl. rewrite <- Hx.
  eapply walk_next_spec; [done|lia].
Qed.

(** [navigate_to] on a well-formed history: it returns, the new node gets
    the address [malloc] hands out, becomes current, and the history is
    again one chain. *)
Lemma navigate_to_inv w host port selector :
  history_inv w →
  ∃ w', navigate_to w.1 w.2 host port selector = Some w'
        ∧ history_inv w'
        ∧ current_nav w'.2 = Some (next_addr w.1).
Proof.
  destruct w as [m state]. intros [Hlt Hcur]. simpl in *.
  unfold navigate_to, create_nav_state.
  set (new := next_addr m).
  set (N0 := NavigationState.mk _ _ _ _ _ _).
  destruct (current_nav state) as [cur|] eqn:Hc.
  - destruct Hcur as (l & Hchain & Hin).
    apply list_elem_of_split in Hin as (l1 & l2 & ->).
    pose proof (chain_at_size _ _ Hchain) as Hsize.
    destruct Hchain as (Hnd & Hdom & Hseg).
    assert (Hnew : ∀ a, a ∈ l1 ++ cur :: l2 → a ≠ new).
    { intros a Ha ->. apply Hdom, Hlt in Ha. lia. }
    assert (Hcn : cur ≠ new) by (apply Hnew; set_solver).
    assert (Hn2 : new ∉ l2) by (intros ?; eapply Hnew; [|done]; set_solver).
    apply dllseg_app in Hseg as [Hseg1 Hseg2].
    destruct Hseg2 as (nc & Hnc & Hpc & Hnxc & Hseg2).
    apply NoDup_app in Hnd as (Hnd1 & Hdisj & Hnd2).
    apply NoDup_cons in Hnd2 as [Hcur2 Hnd2].
    unfold free_forward_history. simpl.
    rewrite lookup_insert_ne by done. rewrite Hnc. simpl.
    rewrite Hnxc, from_option_head.
    rewrite (free_forward_loop_spec l2 _ (Some cur)); cycle 1.
    { eapply dllseg_agree; [|done]. intros y Hy.
      apply lookup_insert_ne. intros <-. done. }
    { done. }
    { rewrite map_size_insert_None.
      - rewrite Hsize, length_app. simpl. lia.
      - apply eq_None_not_Some. intros Hs. apply Hlt in Hs. lia. }
    simpl.
    rewrite lookup_foldr_delete_not_elem_of, lookup_insert_ne, Hnc by done.
    simpl. rewrite lookup_insert_eq. simpl.
    rewrite lookup_insert_ne, lookup_insert_ne,
      lookup_foldr_delete_not_elem_of, lookup_insert_eq by done.
    simpl. eexists. split; [reflexivity|]. simpl. split; [|done].
    unfold history_inv. simpl.
    set (H4 := <[new := _]> _).
    assert (Hl_new : H4 !! new = Some (set_prev N0 (Some cur)))
      by apply lookup_insert_eq.
    assert (Hl_cur : H4 !! cur =
                     Some (set_next (set_next nc None) (Some new))).
    { unfold H4. rewrite lookup_insert_ne by done. apply lookup_insert_eq. }
    assert (Hl_old : ∀ a, a ≠ new → a ≠ cur → a ∉ l2 → H4 !! a = heap m !! a).
    { intros a ? ? ?. unfold H4.
      rewrite !lookup_insert_ne, lookup_foldr_delete_not_elem_of,
        lookup_insert_ne by done. done. }
    assert (Hl_gone : ∀ a, a ∈ l2 → H4 !! a = None).
    { intros a Ha. unfold H4.
      rewrite !lookup_insert_ne.
      - by apply lookup_foldr_delete.
      - intros <-. done.
      - intros <-. done.
      - intros <-. done. }
    split.
    + intros a [n Hn]. destruct (decide (a = new)) as [->|Han]; [lia|].
      destruct (decide (a = cur)) as [->|Hac].
      { assert (Hs : is_Some (heap m !! cur)) by eauto.
        apply Hlt in Hs. lia. }
      destruct (decide (a ∈ l2)) as [Hal|Hal].
      { rewrite Hl_gone in Hn by done. done. }
      rewrite Hl_old in Hn by done.
      assert (Hs : is_Some (heap m !! a)) by eauto.
      apply Hlt in Hs. lia.
    + exists (l1 ++ [cur; new]). split; [|set_solver].
      split_and!.
      * apply NoDup_app. split_and!; [done| |].
        -- intros a Ha Ha'. apply elem_of_cons in Ha' as [->|Ha'].
           ++ eapply Hdisj; [done|left].
           ++ apply list_elem_of_singleton in Ha' as ->.
              eapply Hnew; [|done]. set_solver.
        -- apply NoDup_cons. split; [set_solver|]. apply NoDup_singleton.
      * intros a. destruct (decide (a = new)) as [->|Han].
        { rewrite Hl_new. split; [set_solver|eauto]. }
        destruct (decide (a = cur)) as [->|Hac].
        { rewrite Hl_cur. split; [set_solver|eauto]. }
        destruct (decide (a ∈ l2)) as [Hal|Hal].
        { rewrite Hl_gone by done. split; [intros [? ?]; done|].
          intros Ha. apply elem_of_app in Ha as [Ha|Ha].
          - exfalso. eapply Hdisj; [done|]. by right.
          - set_solver. }
        rewrite Hl_old, Hdom by done. set_solver.
      * apply dllseg_app. split.
        -- eapply dllseg_agree; [|exact Hseg1].
           intros a Ha. apply Hl_old.
           ++ apply Hnew. set_solver.
           ++ intros ->. eapply Hdisj; [done|left].
           ++ intros Ha2. eapply Hdisj; [done|by right].
        -- simpl. eexists. split; [exact Hl_cur|]. split_and!; try done.
           eexists. split; [exact Hl_new|]. done.
  - simpl. eexists. split; [reflexivity|]. simpl. split; [|done].
    unfold history_inv. simpl. rewrite Hcur. split.
    + intros a [n Hn]. apply lookup_insert_Some in Hn as [[<- _]|[_ Hn]];
        [lia|]. by rewrite lookup_empty in Hn.
    + exists [new]. split; [|set_solver]. split_and!.
      * apply NoDup_singleton.
      * intros a. rewrite lookup_insert_is_Some, list_elem_of_singleton.
        split; [intros [->|[_ [? H]]]; [done|by rewrite lookup_empty in H]
               | intros ->; by left].
      * simpl. eexists. split; [apply lookup_insert_eq|]. done.
Qed.

Lemma navigate_back_inv w :
  history_inv w →
  ∃ w', navigate_back w.1 w.2 = Some w' ∧ history_inv w' ∧ w'.1 = w.1
        ∧ (is_Some (current_nav w.2) ↔ is_Some (current_nav w'.2)).
Proof.
  destruct w as [m state]. intros [Hlt Hcur]. simpl in *.
  unfold navigate_back.
  destruct (current_nav state) as [cur|] eqn:Hc.
  - destruct Hcur as (l & Hchain & Hin).
    assert (is_Some (heap m !! cur)) as [n Hn] by (by apply Hchain).
    rewrite Hn. simpl.
    destruct (NavigationState.prev n) as [p|] eqn:Hp.
    + eexists. split; [reflexivity|]. simpl. split_and!; [|done|split; eauto].
      split; [done|]. simpl. exists l. split; [done|].
      eapply chain_at_linked; [done|]. right. exists n. eauto.
    + eexists. split; [reflexivity|]. simpl. split_and!; [|done|by rewrite Hc].
      split; [done|]. simpl. rewrite Hc. eauto.
  - eexists. split; [reflexivity|]. simpl. split_and!; [|done|by rewrite Hc].
    split; [done|]. simpl. by rewrite Hc.
Qed.

Lemma navigate_forward_inv w :
  history_inv w →
  ∃ w', navigate_forward w.1 w.2 = Some w' ∧ history_inv w' ∧ w'.1 = w.1
        ∧ (is_Some (current_nav w.2) ↔ is_Some (current_nav w'.2)).
Proof.
  destruct w as [m state]. intros [Hlt Hcur]. simpl in *.
  unfold navigate_forward.
  destruct (current_nav state) as [cur|] eqn:Hc.
  - destruct Hcur as (l & Hchain & Hin).
    assert (is_Some (heap m !! cur)) as [n Hn] by (by apply Hchain).
    rewrite Hn. simpl.
    destruct (NavigationState.next n) as [p|] eqn:Hp.
    + eexists. split; [reflexivity|]. simpl. split_and!; [|done|split; eauto].
      split; [done|]. simpl. exists l. split; [done|].
      eapply chain_at_linked; [done|]. left. exists n. eauto.
    + eexists. split; [reflexivity|]. simpl. split_and!; [|done|by rewrite Hc].
      split; [done|]. simpl. rewrite Hc. eauto.
  - eexists. split; [reflexivity|]. simpl. split_and!; [|done|by rewrite Hc].
    split; [done|]. simpl. by rewrite Hc.
Qed.

Lemma initial_inv ws : history_inv (initial_memory, initial_state ws).
Proof.
  split; simpl; [|done]. intros a [n Hn]. by rewrite lookup_empty in Hn.
Qed.

Lemma nav_step_inv w op :
  history_inv w →
  ∃ w', nav_step w op = Some w' ∧ history_inv w'
        ∧ (if is_navigate op then is_Some (current_nav w'.2)
           else w'.1 = w.1
                ∧ (is_Some (current_nav w.2) ↔ is_Some (current_nav w'.2))).
Proof.
  intros Hinv. destruct op as [host port selector| |]; simpl.
  - destruct (navigate_to_inv w host port selector Hinv) as (w' & ? & ? & Hc).
    exists w'. split_and!; [done..|]. rewrite Hc. eauto.
  - destruct (navigate_back_inv w Hinv) as (w' & ? & ? & ? & ?). eauto.
  - destruct (navigate_forward_inv w Hinv) as (w' & ? & ? & ? & ?). eauto.
Qed.

Lemma nav_run_inv ops : ∀ w,
  history_inv w →
  ∃ w', nav_run ops w = Some w' ∧ history_inv w'
        ∧ (if existsb is_navigate ops then is_Some (current_nav w'.2)
           else is_Some (current_nav w.2) ↔ is_Some (current_nav w'.2)).
Proof.
  induction ops as [|op ops IH]; intros w Hinv; simpl.
  - exists w. done.
  - destruct (nav_step_inv w op Hinv) as (w1 & -> & Hinv1 & Hop). simpl.
    destruct (IH w1 Hinv1) as (w' & -> & Hinv' & Hops).
    exists w'. split_and!; [done..|].
    destruct (is_navigate op), (existsb is_navigate ops); simpl;
      try done.
    + by apply Hops.
    + destruct Hop as [_ Hop]. by rewrite Hop.
Qed.

(** What the invariant says about a history with a current node. *)
Lemma history_inv_chain w cur :
  history_inv w → current_nav w.2 = Some cur →
  ∃ l, history_chain w.1 w.2 = Some l ∧ cur ∈ l ∧ NoDup l
       ∧ (∀ a, a ∈ l ↔ is_Some (heap w.1 !! a))
       ∧ exactly_one_head (heap w.1) ∧ acyclic (heap w.1).
Proof.
  intros [_ Hinv] Hcur. rewrite Hcur in Hinv.
  destruct Hinv as (l & Hchain & Hin). exists l.
  split_and!.
  - by eapply history_chain_spec.
  - done.
  - apply Hchain.
  - intros a. symmetry. apply Hchain.
  - eapply chain_at_one_head; [done|]. intros ->. by apply elem_of_nil in Hin.
  - by eapply chain_at_acyclic.
Qed.

(** C2. Every run of NavigateTo, Back and Forward from the empty history
    returns.  Before the first NavigateTo the history holds no node; from
    the first NavigateTo on, the chain is made of all live nodes, has
    exactly one node with no predecessor and is acyclic.  Back and Forward
    leave the memory, and so every node's prev and next, as it is: they
    only move the current pointer (and reset the view). *)
Theorem history_chain_invariant (ws : winsize) (ops : list nav_op) :
  ∃ w, nav_run ops (initial_memory, initial_state ws) = Some w
    ∧ (existsb is_navigate ops = false →
         heap w.1 = ∅ ∧ current_nav w.2 = None)
    ∧ (existsb is_navigate ops = true →
         ∃ l cur, history_chain w.1 w.2 = Some l
           ∧ current_nav w.2 = Some cur ∧ cur ∈ l ∧ NoDup l
           ∧ (∀ a, a ∈ l ↔ is_Some (heap w.1 !! a))
           ∧ exactly_one_head (heap w.1) ∧ acyclic (heap w.1))
    ∧ (∀ op w', is_navigate op = false → nav_step w op = Some w' →
         w'.1 = w.1
         ∧ (w'.2 = w.2 ∨ ∃ p, w'.2 = set_current_reset w.2 (Some p))).
Proof.
  destruct (nav_run_inv ops _ (initial_inv ws)) as (w & Hrun & Hinv & Hcur).
  exists w. split_and!; [done| | |].
  - intros Hno. rewrite Hno in Hcur. simpl in Hcur.
    destruct (current_nav w.2) as [cur|] eqn:Hc.
    + destruct (proj2 Hcur) as [? ?]; [eauto|done].
    + destruct Hinv as [_ Hinv]. by rewrite Hc in Hinv.
  - intros Hnav. rewrite Hnav in Hcur. destruct Hcur as [cur Hc].
    destruct (history_inv_chain w cur Hinv Hc) as (l & ? & ? & ? & ? & ? & ?).
    exists l, cur. done.
  - intros op w' Hop Hstep. destruct w as [m state].
    destruct op as [? ? ?| |]; [done| |]; simpl in Hstep.
    + unfold navigate_back in Hstep.
      destruct (current_nav state); [|injection Hstep as <-; eauto].
      destruct (heap m !! a) as [n|]; [|done]. simpl in Hstep.
      destruct (NavigationState.prev n); injection Hstep as <-; eauto.
    + unfold navigate_forward in Hstep.
      destruct (current_nav state); [|injection Hstep as <-; eauto].
      destruct (heap m !! a) as [n|]; [|done]. simpl in Hstep.
      destruct (NavigationState.next n); injection Hstep as <-; eauto.
Qed.

(** Witness of C2 on a run that goes back and forth around two
    navigations. *)
Lemma history_chain_invariant_witness :
  existsb is_navigate
    [NavigateTo (cs "a.example.org") 70 []; Back;
     NavigateTo (cs "b.example.org") 70 (cs "1/docs"); Back; Forward] = true
  ∧ ∃ w l, nav_run
        [NavigateTo (cs "a.example.org") 70 []; Back;
         NavigateTo (cs "b.example.org") 70 (cs "1/docs"); Back; Forward]
        (initial_memory, initial_state terminal_24x80) = Some w
      ∧ history_chain w.1 w.2 = Some l
      ∧ exactly_one_head (heap w.1) ∧ acyclic (heap w.1).
Proof.
  split; [reflexivity|].
  destruct (history_chain_invariant terminal_24x80
    [NavigateTo (cs "a.example.org") 70 []; Back;
     NavigateTo (cs "b.example.org") 70 (cs "1/docs"); Back; Forward])
    as (w & Hrun & _ & Hnav & _).
  destruct (Hnav eq_refl) as (l & cur & Hchain & _ & _ & _ & _ & Hhead & Hacyc).
  exists w, l. split_and!; [exact Hrun|exact Hchain|exact Hhead|exact Hacyc].
Defined.

(** Counterexample to C2 as stated: a run without NavigateTo (here Back,
    then Forward) keeps the history empty, which has no node without
    predecessor, so not exactly one. *)
Lemma empty_history_has_no_head :
  nav_run [Back; Forward] (initial_memory, initial_state terminal_24x80)
    = Some (initial_memory, initial_state terminal_24x80)
  ∧ ¬ exactly_one_head (heap initial_memory).
Proof.
  split; [reflexivity|].
  intros (a & (n & Hn & _) & _). simpl in Hn. by rewrite lookup_empty in Hn.
Qed.

Lemma strncpy0_fits (s : cstring) (n : nat) :
  (length s ≤ n)%nat → strncpy0 s n = s.
Proof. apply take_ge. Qed.

(** C1. NavigateTo(A), NavigateTo(B), Back, NavigateTo(C) from the empty
    history, with or without a fetched body for A and B: before the last
    call the chain is [a; b] with B's node live and holding its body; after
    it the live nodes are exactly A's and C's, linked a -> c and c -> a, the
    chain is [a; c] with c current, B's node is freed, and no path of links
    leads from c to it. *)
Theorem navigate_to_prunes_forward_history (ws : winsize) (A B C : Location)
    (body_A body_B : option cstring) :
  fits_location A → fits_location B → fits_location C →
  let a := 0%nat in
  let b := 1%nat in
  let c := 2%nat in
  ∃ w1 w2 w3 w4,
    navigate_to_location (initial_memory, initial_state ws) A
      ≫= receive body_A = Some w1
    ∧ navigate_to_location w1 B ≫= receive body_B = Some w2
    ∧ navigate_back w2.1 w2.2 = Some w3
    ∧ navigate_to_location w3 C = Some w4
    ∧ current_nav w1.2 = Some a
    ∧ current_nav w2.2 = Some b
    ∧ current_nav w3.2 = Some a
    ∧ heap w3.1 = {[ a := node_of A body_A None (Some b);
                     b := node_of B body_B (Some a) None ]}
    ∧ history_chain w3.1 w3.2 = Some [a; b]
    ∧ current_nav w4.2 = Some c
    ∧ heap w4.1 = {[ a := node_of A body_A None (Some c);
                     c := node_of C None (Some a) None ]}
    ∧ history_chain w4.1 w4.2 = Some [a; c]
    ∧ heap w4.1 !! b = None
    ∧ ¬ rtc (linked (heap w4.1)) c b.
Proof.
  intros HA HB HC a b c.
  exists (mk_Memory {[ a := node_of A body_A None None ]} 1%nat,
          set_current_reset (initial_state ws) (Some a)).
  exists (mk_Memory {[ a := node_of A body_A None (Some b);
                       b := node_of B body_B (Some a) None ]} 2%nat,
          set_current_reset (initial_state ws) (Some b)).
  exists (mk_Memory {[ a := node_of A body_A None (Some b);
                       b := node_of B body_B (Some a) None ]} 2%nat,
          set_current_reset (initial_state ws) (Some a)).
  exists (mk_Memory {[ a := node_of A body_A None (Some c);
                       c := node_of C None (Some a) None ]} 3%nat,
          set_current_reset (initial_state ws) (Some c)).
  destruct A as [hA pA sA], B as [hB pB sB], C as [hC pC sC].
  unfold fits_location in *. cbn [loc_host loc_selector] in *.
  destruct HA, HB, HC.
  unfold navigate_to_location, navigate_to, create_nav_state, node_of.
  cbn [loc_host loc_port loc_selector fst snd heap current_nav].
  rewrite !strncpy0_fits
    by (unfold MAX_HOST_LENGTH, MAX_SELECTOR_LENGTH; simpl; lia).
  split_and!; try (destruct body_A, body_B; vm_compute; reflexivity).
  intros Hpath. apply rtc_inv_r in Hpath as [Heq|(y & _ & Hlink)]; [done|].
  assert (Hnode : ∀ n, ({[ a := NavigationState.mk hA pA sA body_A None (Some c);
                          c := NavigationState.mk hC pC sC None (Some a) None ]}
                        : gmap addr NavigationState.t) !! y = Some n →
                       NavigationState.next n ≠ Some b
                       ∧ NavigationState.prev n ≠ Some b).
  { intros n Hn. apply lookup_insert_Some in Hn as [[_ <-]|[_ Hn]].
    - done.
    - apply lookup_singleton_Some in Hn as [_ <-]. done. }
  destruct Hlink as [(n & Hn & Hl)|(n & Hn & Hl)];
    destruct (Hnode n Hn); done.
Qed.

(** Witness of C1 on three sample Locations, B with a fetched body. *)
Lemma navigate_to_prunes_forward_history_witness :
  fits_location location_A ∧ fits_location location_B
  ∧ fits_location location_C
  ∧ ∃ w1 w2 w3 w4,
      navigate_to_location (initial_memory, initial_state terminal_24x80)
        location_A ≫= receive None = Some w1
      ∧ navigate_to_location w1 location_B
          ≫= receive (Some (cs "iWelcome")) = Some w2
      ∧ navigate_back w2.1 w2.2 = Some w3
      ∧ navigate_to_location w3 location_C = Some w4
      ∧ current_nav w1.2 = Some 0%nat
      ∧ current_nav w2.2 = Some 1%nat
      ∧ current_nav w3.2 = Some 0%nat
      ∧ heap w3.1 =
          {[ 0%nat := node_of location_A None None (Some 1%nat);
             1%nat := node_of location_B (Some (cs "iWelcome"))
                        (Some 0%nat) None ]}
      ∧ history_chain w3.1 w3.2 = Some [0; 1]%nat
      ∧ current_nav w4.2 = Some 2%nat
      ∧ heap w4.1 =
          {[ 0%nat := node_of location_A None None (Some 2%nat);
             2%nat := node_of location_C None (Some 0%nat) None ]}
      ∧ history_chain w4.1 w4.2 = Some [0; 2]%nat
      ∧ heap w4.1 !! 1%nat = None
      ∧ ¬ rtc (linked (heap w4.1)) 2%nat 1%nat.
Proof.
  assert (HA : fits_location location_A) by (split; simpl; lia).
  assert (HB : fits_location location_B) by (split; simpl; lia).
  assert (HC : fits_location location_C) by (split; simpl; lia).
  split_and!; [exact HA|exact HB|exact HC|].
  exact (navigate_to_prunes_forward_history terminal_24x80
           location_A location_B location_C None (Some (cs "iWelcome"))
           HA HB HC).
Defined.

(** ** Buffers *)

Lemma c_str_app (a t : list ascii) : NUL ∉ a → c_str (a ++ t) = a ++ c_str t.
Proof.
  induction a as [|x a IH]; intros Hnul; simpl; [done|].
  apply not_elem_of_cons in Hnul as [Hx Ha].
  destruct (Ascii.eqb_spec x NUL); [done|]. by rewrite IH.
Qed.

Lemma c_str_ends (t : list ascii) : ends t → c_str t = [].
Proof. intros [->|[r ->]]; reflexivity. Qed.

Lemma c_str_id (a : list ascii) : NUL ∉ a → c_str a = a.
Proof.
  intros H. rewrite <- (app_nil_r a) at 1. rewrite c_str_app by done.
  simpl. apply app_nil_r.
Qed.

Lemma str_at_app (pre rest : list ascii) (p : nat) :
  p = length pre → str_at (pre ++ rest) p = c_str rest.
Proof. intros ->. unfold str_at. by rewrite drop_app_length. Qed.

Lemma str_at_field (pre f t : list ascii) (p : nat) :
  p = length pre → NUL ∉ f → ends t → str_at (pre ++ f ++ t) p = f.
Proof.
  intros Hp Hf Ht. rewrite str_at_app, c_str_app, c_str_ends by done.
  apply app_nil_r.
Qed.

Lemma strchr_app (a rest : cstring) (c : ascii) :
  c ∉ a → strchr (a ++ rest) c = (λ i, length a + i)%nat <$> strchr rest c.
Proof.
  induction a as [|x a IH]; intros Hc; simpl.
  - by destruct (strchr rest c).
  - apply not_elem_of_cons in Hc as [Hx Ha].
    destruct (Ascii.eqb_spec x c); [done|]. rewrite IH by done.
    by destruct (strchr rest c).
Qed.

Lemma strchr_found (a rest : cstring) (c : ascii) :
  c ∉ a → strchr (a ++ c :: rest) c = Some (length a).
Proof.
  intros Hc. rewrite strchr_app by done. simpl.
  rewrite Ascii.eqb_refl. simpl. f_equal. lia.
Qed.

Lemma strrchr_found (a rest : cstring) (c : ascii) :
  c ≠ NUL → c ∉ rest → strrchr (a ++ c :: rest) c = Some (length a).
Proof.
  intros Hnul Hc.
  assert (Hrest : strrchr rest c = None).
  { induction rest as [|x r IH]; simpl.
    - by destruct (Ascii.eqb_spec c NUL).
    - apply not_elem_of_cons in Hc as [Hx Hr]. rewrite IH by done.
      by destruct (Ascii.eqb_spec x c). }
  induction a as [|x a IH]; simpl.
  - by rewrite Hrest, Ascii.eqb_refl.
  - by rewrite IH.
Qed.

Lemma strrchr_None (s : cstring) (c : ascii) :
  c ≠ NUL → c ∉ s → strrchr s c = None.
Proof.
  intros Hnul. induction s as [|x r IH]; intros Hc; simpl.
  - by destruct (Ascii.eqb_spec c NUL).
  - apply not_elem_of_cons in Hc as [Hx Hr]. rewrite IH by done.
    by destruct (Ascii.eqb_spec x c).
Qed.

Lemma insert_middle (pre rest : list ascii) (x y : ascii) (p : nat) :
  p = length pre → <[p := y]> (pre ++ x :: rest) = pre ++ y :: rest.
Proof.
  intros ->. induction pre as [|z pre IH]; simpl; [done|]. by rewrite IH.
Qed.

Lemma char_at_0 (s : cstring) :
  NUL ∉ s → (char_at s 0 = NUL ↔ s = []).
Proof.
  destruct s as [|c r]; simpl; [done|]. intros H.
  apply not_elem_of_cons in H as [H _]. split; [intros Hc; by symmetry in Hc|done].
Qed.

(** ** Menu line parser *)

Lemma tokenize_tab (n : nat) (pre f rest : list ascii) (token : nat) :
  token = length pre → TAB ∉ f → NUL ∉ f →
  tokenize (S n) (pre ++ f ++ TAB :: rest) token =
  let '(line, fields) :=
    tokenize n ((pre ++ f ++ [NUL]) ++ rest) (length (pre ++ f ++ [NUL])) in
  (line, length (pre ++ f ++ [NUL]) :: fields).
Proof.
  intros -> Ht Hn. cbn [tokenize].
  rewrite str_at_app, c_str_app by done. cbn [c_str].
  change (Ascii.eqb TAB NUL) with false. cbv iota.
  rewrite strchr_found by done.
  rewrite (app_assoc pre f), insert_middle by (by rewrite length_app).
  replace (length pre + length f + 1)%nat with (length (pre ++ f ++ [NUL]))
    by (rewrite !length_app; simpl; lia).
  by rewrite <- !app_assoc.
Qed.

Lemma tokenize_none (n : nat) (pre f t : list ascii) (token : nat) :
  token = length pre → TAB ∉ f → NUL ∉ f → ends t →
  tokenize n (pre ++ f ++ t) token = (pre ++ f ++ t, []).
Proof.
  intros Hp Ht Hn He. destruct n; [done|]. cbn [tokenize].
  rewrite str_at_field by done.
  by rewrite (proj2 (strchr_None_not_elem f TAB ltac:(done)) Ht).
Qed.

(** Tokenizing writes only at and after [token]. *)
Lemma tokenize_prefix (n : nat) : ∀ buf token line fields,
  tokenize n buf token = (line, fields) → take token line = take token buf.
Proof.
  induction n as [|n IH]; intros buf token line fields; cbn [tokenize].
  - by intros [= <- _].
  - destruct (strchr (str_at buf token) TAB) as [i|]; [|by intros [= <- _]].
    destruct (tokenize n _ _) as [line' fields'] eqn:Hrec.
    intros [= <- _]. apply IH in Hrec.
    replace token with (min token (token + i + 1)) at 1 2 by lia.
    rewrite <- !take_take, Hrec, !take_take.
    replace (min token (token + i + 1)) with token by lia.
    apply take_insert_ge. lia.
Qed.

Lemma strchr_link_types (ty : ascii) :
  ty ≠ NUL → (is_Some (strchr (cs "0127h") ty) ↔ ty ∈ link_types).
Proof. intros H. by apply strchr_Some_elem. Qed.

(** The line the parser works on once a trailing CR is cut off. *)
Lemma strip_cr (content : list ascii) (cr : bool) :
  NUL ∉ content → content ≠ [] →
  (cr = false → last content ≠ Some CR) →
  let line := content ++ (if cr then [CR] else []) in
  let len := length (c_str line) in
  ∃ t, ends t ∧
    (if (0 <? len)%nat && Ascii.eqb (char_at (c_str line) (len - 1)) CR
     then <[(len - 1)%nat := NUL]> line else line) = content ++ t.
Proof.
  intros Hnul Hne Hcr line len. subst line len. destruct cr.
  - exists [NUL]. split; [right; eauto|].
    rewrite c_str_id
      by (rewrite elem_of_app, list_elem_of_singleton; intros [?|?]; done).
    rewrite length_app. simpl length.
    replace (length content + 1 - 1)%nat with (length content) by lia.
    replace (0 <? length content + 1)%nat with true
      by (symmetry; apply Nat.ltb_lt; lia).
    unfold char_at. rewrite app_nth2, Nat.sub_diag by lia. simpl.
    by apply insert_middle.
  - exists []. split; [by left|]. rewrite app_nil_r, c_str_id by done.
    assert (Hlast : char_at content (length content - 1) ≠ CR).
    { unfold char_at. rewrite nth_lookup.
      replace (length content - 1)%nat with (pred (length content)) by lia.
      rewrite <- last_lookup.
      destruct (last content) as [c|] eqn:Hl; simpl.
      - intros ->. by apply Hcr.
      - by apply last_None in Hl. }
    destruct (Ascii.eqb_spec (char_at content (length content - 1)) CR);
      [done|]. by rewrite andb_false_r.
Qed.

Lemma c_str_field (a t : list ascii) : NUL ∉ a → ends t → c_str (a ++ t) = a.
Proof.
  intros Ha Ht. rewrite c_str_app, c_str_ends by done. apply app_nil_r.
Qed.

(** What the tokenizer leaves of a line with display, selector and host
    fields, and perhaps a port field. *)
Lemma tokenize_link (ty : ascii) (d s h : cstring) (pf : option cstring)
    (t : list ascii) :
  NUL ∉ d → NUL ∉ s → NUL ∉ h → (∀ p, pf = Some p → NUL ∉ p) →
  TAB ∉ d → TAB ∉ s → TAB ∉ h → ends t →
  ∃ line found f1 f2,
    tokenize 3 ((ty :: d ++ TAB :: s ++ TAB :: h ++ opt_field TAB pf) ++ t) 1
      = (line, found)
    ∧ str_at line 1 = d
    ∧ found !! 0%nat = Some f1 ∧ str_at line f1 = s
    ∧ found !! 1%nat = Some f2 ∧ str_at line f2 = h
    ∧ match pf with
      | Some p => ∃ f3, found !! 2%nat = Some f3 ∧ str_at line f3 = p
      | None => found !! 2%nat = None
      end.
Proof.
  intros Nd Ns Nh Np Td Ts Th Ht.
  set (pre1 := [ty] ++ d ++ [NUL]).
  set (pre2 := pre1 ++ s ++ [NUL]).
  assert (E1 : ∀ r, str_at (pre1 ++ r) 1 = d).
  { intros r. unfold pre1. rewrite <- !app_assoc.
    apply (str_at_field [ty] d (NUL :: r)); [done|done|right; eauto]. }
  assert (E2 : ∀ r, str_at (pre2 ++ r) (length pre1) = s).
  { intros r. unfold pre2. rewrite <- !app_assoc.
    apply (str_at_field pre1 s (NUL :: r)); [done|done|right; eauto]. }
  destruct pf as [p|]; simpl opt_field.
  - set (pre3 := pre2 ++ h ++ [NUL]).
    exists (pre3 ++ p ++ t), [length pre1; length pre2; length pre3],
      (length pre1), (length pre2).
    split_and!.
    + replace ((ty :: d ++ TAB :: s ++ TAB :: h ++ TAB :: p) ++ t)
        with ([ty] ++ d ++ TAB :: (s ++ TAB :: (h ++ TAB :: (p ++ t))))
        by (repeat (progress (simpl; rewrite <- ?app_assoc)); done).
      rewrite tokenize_tab by done. fold pre1.
      rewrite tokenize_tab by done. fold pre2.
      rewrite tokenize_tab by done. fold pre3. reflexivity.
    + unfold pre3, pre2. rewrite <- !app_assoc. apply E1.
    + done.
    + unfold pre3. rewrite <- !app_assoc. apply E2.
    + done.
    + unfold pre3. rewrite <- !app_assoc.
      apply (str_at_field pre2 h (NUL :: p ++ t)); [done|done|right; eauto].
    + exists (length pre3). split; [done|].
      apply str_at_field; [done|by apply Np|done].
  - exists (pre2 ++ h ++ t), [length pre1; length pre2],
      (length pre1), (length pre2).
    split_and!.
    + replace ((ty :: d ++ TAB :: s ++ TAB :: h ++ []) ++ t)
        with ([ty] ++ d ++ TAB :: (s ++ TAB :: (h ++ t)))
        by (repeat (progress (simpl; rewrite <- ?app_assoc)); done).
      rewrite tokenize_tab by done. fold pre1.
      rewrite tokenize_tab by done. fold pre2.
      rewrite tokenize_none by done. reflexivity.
    + unfold pre2. rewrite <- !app_assoc. apply E1.
    + done.
    + apply E2.
    + done.
    + by apply str_at_field.
    + done.
Qed.

(** C4. A line that is not of type i and has its display, selector and
    host fields: the item's host is the host field, or the current host
    when the field is empty, cut to its first 255 bytes; its port is the
    port field read by atoi, or the current port when there is no port
    field; and it is selectable exactly when its type is one of 0 1 2 7 h
    and that host is neither null.host nor error.host. *)
Theorem parse_gopher_line_link (ty : ascii) (d s h : cstring)
    (pf : option cstring) (cr : bool) (current_host : cstring)
    (current_port : Z) :
  let content := ty :: d ++ TAB :: s ++ TAB :: h ++ opt_field TAB pf in
  let line := content ++ (if cr then [CR] else []) in
  ty ≠ NUL → ty ≠ "i"%char → NUL ∉ content →
  TAB ∉ d → TAB ∉ s → TAB ∉ h →
  (cr = false → last content ≠ Some CR) →
  ∃ item,
    parse_gopher_line line current_host current_port = Some item
    ∧ GopherItem.type item = ty
    ∧ GopherItem.selector item = take 1023 s
    ∧ GopherItem.host item =
        take 255 (match h with [] => current_host | _ :: _ => h end)
    ∧ GopherItem.port item =
        match pf with Some p => atoi p | None => current_port end
    ∧ (GopherItem.is_selectable item = true ↔
         ty ∈ link_types
         ∧ GopherItem.host item ≠ cs "null.host"
         ∧ GopherItem.host item ≠ cs "error.host").
Proof.
  intros content line Hty Hi Hnul Td Ts Th Hcr.
  assert (Nd : NUL ∉ d) by (intros ?; apply Hnul; subst content; set_solver).
  assert (Ns : NUL ∉ s) by (intros ?; apply Hnul; subst content; set_solver).
  assert (Nh : NUL ∉ h) by (intros ?; apply Hnul; subst content; set_solver).
  assert (Np : ∀ p, pf = Some p → NUL ∉ p).
  { intros p -> ?. apply Hnul. subst content. simpl. set_solver. }
  destruct (strip_cr content cr Hnul ltac:(done) Hcr) as (t & Ht & Hstrip).
  destruct (tokenize_link ty d s h pf t Nd Ns Nh Np Td Ts Th Ht)
    as (buf & found & f1 & f2 & Htok & Ed & Hf1 & Es & Hf2 & Eh & Hport).
  unfold parse_gopher_line. subst line. cbv zeta in Hstrip |- *.
  rewrite Hstrip.
  rewrite (c_str_field content t) by done.
  assert (Hlen : (3 ≤ length content)%nat).
  { subst content. simpl. rewrite !length_app. simpl.
    rewrite !length_app. simpl. lia. }
  replace (char_at content 0) with ty by done.
  rewrite (proj2 (Ascii.eqb_neq ty NUL)) by done.
  rewrite (proj2 (Ascii.eqb_neq ty "i")) by done.
  unfold streq at 1.
  rewrite bool_decide_eq_false_2
    by (intros Heq; rewrite Heq in Hlen; simpl in Hlen; lia).
  replace (length content <? 2)%nat with false
    by (symmetry; apply Nat.ltb_ge; lia).
  cbn [orb]. unfold content. rewrite Htok.
  change ((1%nat :: found) !! 1%nat) with (found !! 0%nat).
  change ((1%nat :: found) !! 2%nat) with (found !! 1%nat).
  change ((1%nat :: found) !! 3%nat) with (found !! 2%nat).
  rewrite Hf1, Hf2, Es, Eh.
  eexists. split; [reflexivity|]. cbn [GopherItem.type GopherItem.selector
    GopherItem.host GopherItem.port GopherItem.is_selectable].
  assert (Ehost : (if negb (Ascii.eqb (char_at h 0) NUL) then h
                   else current_host) =
                  match h with [] => current_host | _ :: _ => h end).
  { destruct h as [|c r]; [done|]. unfold char_at. cbn [nth].
    apply not_elem_of_cons in Nh as [Hc _].
    by rewrite (proj2 (Ascii.eqb_neq c NUL)) by done. }
  rewrite Ehost. unfold strncpy0, MAX_HOST_LENGTH, MAX_SELECTOR_LENGTH.
  split_and!; try done.
  - destruct pf as [p|].
    + destruct Hport as (f3 & -> & ->). done.
    + by rewrite Hport.
  - rewrite <- strchr_link_types by done. unfold streq.
    destruct (strchr (cs "0127h") ty) as [i|].
    + rewrite andb_true_iff, !negb_true_iff, !bool_decide_eq_false.
      split; [intros [? ?]; eauto|intros (_ & ? & ?); done].
    + split; [done|intros ([? ?] & _); done].
Qed.

(** Witness of C4: the line of the Home link, with its CR. *)
Lemma parse_gopher_line_link_witness :
  (NUL ∉ home_line) ∧ (TAB ∉ cs "Home") ∧ (TAB ∉ cs "/")
  ∧ (TAB ∉ cs "example.org")
  ∧ ∃ item,
      parse_gopher_line (home_line ++ [CR]) (cs "gopher.example.net") 7070
        = Some item
      ∧ GopherItem.type item = "1"%char
      ∧ GopherItem.selector item = take 1023 (cs "/")
      ∧ GopherItem.host item = take 255 (cs "example.org")
      ∧ GopherItem.port item = atoi (cs "70")
      ∧ (GopherItem.is_selectable item = true ↔
           "1"%char ∈ link_types
           ∧ GopherItem.host item ≠ cs "null.host"
           ∧ GopherItem.host item ≠ cs "error.host").
Proof.
  assert (H0 : NUL ∉ home_line) by (apply (bool_decide_unpack _); vm_compute; exact I).
  assert (H1 : TAB ∉ cs "Home") by (apply (bool_decide_unpack _); vm_compute; exact I).
  assert (H2 : TAB ∉ cs "/") by (apply (bool_decide_unpack _); vm_compute; exact I).
  assert (H3 : TAB ∉ cs "example.org") by (apply (bool_decide_unpack _); vm_compute; exact I).
  split_and!; [exact H0|exact H1|exact H2|exact H3|].
  apply (parse_gopher_line_link "1" (cs "Home") (cs "/") (cs "example.org")
           (Some (cs "70")) true (cs "gopher.example.net") 7070);
    [discriminate|discriminate|exact H0|exact H1|exact H2|exact H3
    |discriminate].
Defined.

(** Counterexample to C4 as stated: a host field of 256 bytes is not the
    item's host, which keeps its first 255 bytes. *)
Lemma long_host_is_cut :
  ∃ item,
    parse_gopher_line long_host_line (cs "gopher.example.net") 70 = Some item
    ∧ GopherItem.host item = replicate 255 "a"%char
    ∧ GopherItem.host item ≠ long_host.
Proof.
  eexists. split; [vm_compute; reflexivity|]. split; [reflexivity|].
  intros H. apply (f_equal length) in H. vm_compute in H. discriminate.
Qed.

(** *** What [trim_whitespace] leaves in the buffer *)

Lemma ltrim_drop (s : cstring) : ltrim s = drop (leading_spaces s) s.
Proof.
  induction s as [|c r IH]; simpl; [done|]. by destruct (isspace c).
Qed.

Lemma leading_spaces_take (s : cstring) :
  Forall (λ c, isspace c = true) (take (leading_spaces s) s).
Proof.
  induction s as [|c r IH]; simpl; [constructor|].
  destruct (isspace c) eqn:Hc; simpl; [|constructor]. by constructor.
Qed.

Lemma ltrim_spaces_app (sp s : cstring) :
  Forall (λ c, isspace c = true) sp → ltrim (sp ++ s) = ltrim s.
Proof. induction 1 as [|c sp Hc _ IH]; simpl; [done|]. by rewrite Hc. Qed.

Lemma ltrim_nonspace (x : ascii) (r : cstring) :
  isspace x = false → ltrim (x :: r) = x :: r.
Proof. intros H. simpl. by rewrite H. Qed.

Lemma ltrim_app_nonempty (u v : cstring) :
  ltrim u ≠ [] → ltrim (u ++ v) = ltrim u ++ v.
Proof.
  induction u as [|c u IH]; simpl; [done|].
  destruct (isspace c); [apply IH|done].
Qed.

Lemma rtrim_snoc_space (s : cstring) (c : ascii) :
  isspace c = true → rtrim (s ++ [c]) = rtrim s.
Proof. intros H. unfold rtrim. rewrite reverse_snoc. simpl. by rewrite H. Qed.

Lemma rtrim_snoc_nonspace (s : cstring) (c : ascii) :
  isspace c = false → rtrim (s ++ [c]) = s ++ [c].
Proof.
  intros H. unfold rtrim. rewrite reverse_snoc, ltrim_nonspace by done.
  by rewrite reverse_cons, reverse_involutive.
Qed.

Lemma trim_end_loop_le (str : cstring) (e : nat) :
  (trim_end_loop str e ≤ e)%nat.
Proof.
  induction e as [|e IH]; simpl; [lia|].
  destruct (isspace (char_at str (S e))); lia.
Qed.

Lemma trim_end_loop_app (a b : cstring) (e : nat) :
  (e < length a)%nat → trim_end_loop (a ++ b) e = trim_end_loop a e.
Proof.
  induction e as [|e IH]; intros He; simpl; [done|].
  unfold char_at. rewrite app_nth1 by lia.
  rewrite IH by lia. done.
Qed.

(** On a string that starts with a visible character the backward loop
    stops on the last visible one. *)
Lemma trim_end_loop_rtrim (x : ascii) (r : cstring) :
  isspace x = false →
  take (trim_end_loop (x :: r) (length (x :: r) - 1) + 1) (x :: r)
  = rtrim (x :: r).
Proof.
  intros Hx. induction r as [|c r IH] using rev_ind.
  - simpl. unfold rtrim. rewrite reverse_singleton. simpl. by rewrite Hx.
  - rewrite app_comm_cons.
    replace (length ((x :: r) ++ [c]) - 1)%nat with (S (length r))
      by (rewrite length_app; simpl; lia).
    cbn [trim_end_loop].
    replace (char_at ((x :: r) ++ [c]) (S (length r))) with c.
    2:{ unfold char_at. rewrite app_nth2 by (simpl; lia).
        simpl. by rewrite Nat.sub_diag. }
    destruct (isspace c) eqn:Hc.
    + rewrite trim_end_loop_app by (simpl; lia).
      rewrite rtrim_snoc_space by done. rewrite <- IH.
      replace (length (x :: r) - 1)%nat with (length r) by (simpl; lia).
      apply take_app_le.
      pose proof (trim_end_loop_le (x :: r) (length r)). simpl. lia.
    + rewrite rtrim_snoc_nonspace by done.
      apply take_ge. rewrite length_app. simpl. lia.
Qed.

Lemma rtrim_head (x : ascii) (r : cstring) :
  isspace x = false → ∃ r', rtrim (x :: r) = x :: r'.
Proof.
  intros Hx. rewrite <- trim_end_loop_rtrim by done.
  rewrite Nat.add_1_r. simpl. eauto.
Qed.

Lemma rtrim_spaces_app (sp : cstring) (x : ascii) (r : cstring) :
  isspace x = false → rtrim (sp ++ x :: r) = sp ++ rtrim (x :: r).
Proof.
  intros Hx. unfold rtrim at 1. rewrite reverse_app.
  rewrite ltrim_app_nonempty.
  - by rewrite reverse_app, reverse_involutive.
  - destruct (rtrim_head x r Hx) as [r' Hr]. unfold rtrim in Hr.
    intros Hnil. rewrite Hnil in Hr. done.
Qed.

Lemma rtrim_spaces (s : cstring) :
  Forall (λ c, isspace c = true) s → rtrim s = [].
Proof.
  intros H. unfold rtrim.
  assert (Hrev : Forall (λ c, isspace c = true) (reverse s))
    by (by apply Forall_reverse).
  rewrite <- (app_nil_r (reverse s)), ltrim_spaces_app by done. done.
Qed.

(** Up to leading white space, [trim_whitespace] trims. *)
Lemma trim_whitespace_ltrim (buf : cstring) :
  ltrim (trim_whitespace buf) = trim buf.
Proof.
  unfold trim_whitespace, trim.
  pose proof (leading_spaces_take buf) as Hsp.
  pose proof (take_drop (leading_spaces buf) buf) as Hsplit.
  destruct (drop (leading_spaces buf) buf) as [|x r] eqn:Hstr.
  - rewrite app_nil_r in Hsplit. rewrite Hsplit in Hsp.
    rewrite (rtrim_spaces buf Hsp). simpl.
    by rewrite ltrim_drop, Hstr.
  - assert (Hx : isspace x = false).
    { pose proof (ltrim_drop buf) as Hl. rewrite Hstr in Hl.
      clear -Hl. induction buf as [|c b IH]; simpl in Hl; [done|].
      destruct (isspace c) eqn:Hc; [by apply IH|].
      injection Hl as -> _. done. }
    assert (Hlen : length (take (leading_spaces buf) buf) = leading_spaces buf).
    { rewrite length_take. clear. induction buf as [|c b IH]; simpl; [done|].
      destruct (isspace c); simpl; lia. }
    set (e := trim_end_loop (x :: r) (length (x :: r) - 1)).
    set (start := leading_spaces buf) in *.
    set (sp := take start buf) in *.
    rewrite <- Hsplit.
    rewrite take_app, (take_ge sp), Hlen by lia.
    replace (start + e + 1 - start)%nat with (e + 1)%nat by lia.
    rewrite rtrim_spaces_app, !ltrim_spaces_app by done.
    unfold e. by rewrite trim_end_loop_rtrim.
Qed.

(** What the tokenizer leaves of a line that ends up informational. *)
Lemma tokenize_info (ty : ascii) (d : cstring) (rest : option cstring)
    (t : list ascii) :
  NUL ∉ d → TAB ∉ d → ends t →
  ∃ line found,
    tokenize 3 ((ty :: d ++ opt_field TAB rest) ++ t) 1 = (line, found)
    ∧ str_at line 1 = d
    ∧ (rest = None → found = [])
    ∧ (∀ r, rest = Some r → NUL ∉ r → TAB ∉ r → ∃ f1, found = [f1]).
Proof.
  intros Nd Td Ht. destruct rest as [r|]; simpl opt_field.
  - replace ((ty :: d ++ TAB :: r) ++ t) with ([ty] ++ d ++ TAB :: (r ++ t))
      by (repeat (progress (simpl; rewrite <- ?app_assoc)); done).
    rewrite tokenize_tab by done.
    set (pre1 := [ty] ++ d ++ [NUL]).
    destruct (tokenize 2 (pre1 ++ r ++ t) (length pre1))
      as [line found] eqn:Hrec.
    exists line, (length pre1 :: found). split_and!; [done| |done|].
    + apply tokenize_prefix in Hrec. rewrite take_app_length in Hrec.
      rewrite <- (take_drop (length pre1) line), Hrec.
      unfold pre1. rewrite <- !app_assoc.
      apply (str_at_field [ty] d (NUL :: _)); [done|done|right; eauto].
    + intros r' [= <-] Nr Tr. rewrite tokenize_none in Hrec by done.
      injection Hrec as _ <-. eauto.
  - rewrite app_nil_r.
    change ((ty :: d) ++ t) with ([ty] ++ d ++ t).
    rewrite tokenize_none by done.
    eexists _, _. split_and!; [done| |done|done].
    by apply str_at_field.
Qed.

(** C5. A line that is not skipped and is of type i, or lacks the selector
    or the host field: the item is not selectable, its selector and host
    are empty and its port is 0; its display text, leading white space
    aside, is the first tab-separated field of the line after the type
    character, cut to 1023 bytes and trimmed on both sides. *)
Theorem parse_gopher_line_info (ty : ascii) (d : cstring)
    (rest : option cstring) (cr : bool) (current_host : cstring)
    (current_port : Z) :
  let content := ty :: d ++ opt_field TAB rest in
  let line := content ++ (if cr then [CR] else []) in
  ty ≠ NUL → NUL ∉ content → TAB ∉ d →
  (2 ≤ length content)%nat →
  (cr = false → last content ≠ Some CR) →
  (ty = "i"%char ∨ rest = None ∨ ∃ r, rest = Some r ∧ TAB ∉ r) →
  ∃ item,
    parse_gopher_line line current_host current_port = Some item
    ∧ GopherItem.type item = ty
    ∧ GopherItem.is_selectable item = false
    ∧ ltrim (GopherItem.display_string item) = trim (take 1023 d)
    ∧ GopherItem.selector item = []
    ∧ GopherItem.host item = []
    ∧ GopherItem.port item = 0.
Proof.
  intros content line Hty Hnul Td Hlen Hcr Hinfo.
  assert (Nd : NUL ∉ d) by (intros ?; apply Hnul; subst content; set_solver).
  assert (Nr : ∀ r, rest = Some r → NUL ∉ r).
  { intros r -> ?. apply Hnul. subst content. simpl. set_solver. }
  destruct (strip_cr content cr Hnul ltac:(done) Hcr) as (t & Ht & Hstrip).
  destruct (tokenize_info ty d rest t Nd Td Ht)
    as (buf & found & Htok & Ed & Hnone & Hone).
  exists (GopherItem.mk ty (trim_whitespace (take 1023 d)) [] [] 0 false 0).
  split; [|split_and!; try done; apply trim_whitespace_ltrim].
  unfold parse_gopher_line. subst line. cbv zeta in Hstrip |- *.
  rewrite Hstrip. rewrite (c_str_field content t) by done.
  replace (char_at content 0) with ty by done.
  rewrite (proj2 (Ascii.eqb_neq ty NUL)) by done.
  unfold streq at 1.
  rewrite bool_decide_eq_false_2
    by (intros Heq; rewrite Heq in Hlen; simpl in Hlen; lia).
  replace (length content <? 2)%nat with false
    by (symmetry; apply Nat.ltb_ge; lia).
  cbn [orb]. unfold content. rewrite Htok, Ed.
  unfold strncpy0, MAX_DISPLAY_LENGTH. simpl Nat.sub.
  destruct (Ascii.eqb_spec ty "i") as [->|Hi]; [done|].
  destruct Hinfo as [?|[Hrest|(r & Hrest & Tr)]]; [done| |].
  - by rewrite (Hnone Hrest).
  - destruct (Hone r Hrest (Nr r Hrest) Tr) as [f1 ->]. done.
Qed.

(** Witness of C5: the informational line of the specification. *)
Lemma parse_gopher_line_info_witness :
  (NUL ∉ info_line) ∧ (TAB ∉ cs "Info text") ∧ (2 ≤ length info_line)%nat
  ∧ last info_line ≠ Some CR
  ∧ ∃ item,
      parse_gopher_line info_line (cs "gopher.example.net") 7070 = Some item
      ∧ GopherItem.type item = "i"%char
      ∧ GopherItem.is_selectable item = false
      ∧ ltrim (GopherItem.display_string item) = trim (take 1023 (cs "Info text"))
      ∧ GopherItem.selector item = []
      ∧ GopherItem.host item = []
      ∧ GopherItem.port item = 0.
Proof.
  assert (H0 : NUL ∉ info_line) by (apply (bool_decide_unpack _); vm_compute; exact I).
  assert (H1 : TAB ∉ cs "Info text") by (apply (bool_decide_unpack _); vm_compute; exact I).
  assert (H2 : (2 ≤ length info_line)%nat) by (simpl; lia).
  assert (H3 : last info_line ≠ Some CR) by discriminate.
  split_and!; [exact H0|exact H1|exact H2|exact H3|].
  exact (parse_gopher_line_info "i" (cs "Info text") (Some [TAB; TAB]) false
           (cs "gopher.example.net") 7070
           ltac:(discriminate) H0 H1 H2 (λ _, H3) (or_introl eq_refl)).
Defined.

(** Counterexample to C5 as stated: the display text of "iA<TAB>B" is "A",
    the first field, not the rest of the line trimmed. *)
Lemma info_display_is_first_field :
  ∃ item,
    parse_gopher_line two_field_info_line (cs "gopher.example.net") 70
      = Some item
    ∧ GopherItem.display_string item = cs "A"
    ∧ trim (drop 1 two_field_info_line) = cs "A" ++ TAB :: cs "B"
    ∧ GopherItem.display_string item ≠ trim (drop 1 two_field_info_line).
Proof.
  eexists. split; [vm_compute; reflexivity|].
  split_and!; [reflexivity|reflexivity|discriminate].
Qed.

(** [trim_whitespace] does not remove leading white space: its first loop
    moves a local pointer only. *)
Lemma trim_whitespace_keeps_leading :
  trim_whitespace (cs "  Info  ") = cs "  Info"
  ∧ trim_whitespace (cs "   ") = cs "   ".
Proof. split; reflexivity. Qed.

(** ** Decimal numbers and [atoi] *)

Lemma pretty_N_char_digit (d : N) :
  (d < 10)%N →
  isdigit (pretty_N_char d) = true
  ∧ digit_value (pretty_N_char d) = Z.of_N d.
Proof.
  intros Hd.
  assert (d = 0 ∨ d = 1 ∨ d = 2 ∨ d = 3 ∨ d = 4 ∨ d = 5 ∨ d = 6 ∨ d = 7
          ∨ d = 8 ∨ d = 9)%N as Hcases by lia.
  destruct Hcases as [->|[->|[->|[->|[->|[->|[->|[->|[->| ->]]]]]]]]];
    split; reflexivity.
Qed.

Lemma isdigit_not_special (c : ascii) :
  isdigit c = true →
  isspace c = false ∧ c ≠ "-"%char ∧ c ≠ "+"%char ∧ c ≠ NUL
  ∧ c ≠ "/"%char ∧ c ≠ ":"%char.
Proof.
  unfold isdigit, isspace. intros H.
  apply andb_true_iff in H as [H1 H2].
  apply N.leb_le in H1, H2.
  split_and!.
  - apply orb_false_iff. split; [apply N.eqb_neq; lia|].
    apply andb_false_iff. right. apply N.leb_gt. lia.
  - intros ->. vm_compute in H1. done.
  - intros ->. vm_compute in H1. done.
  - intros ->. vm_compute in H1. done.
  - intros ->. vm_compute in H1. done.
  - intros ->. vm_compute in H2. done.
Qed.

(** The digits [pretty_N_go] puts in front of [s], and what [atoi]'s digit
    loop computes on them. *)
Lemma pretty_N_go_digits (x : N) : ∀ s,
  ∃ ds, cs (pretty_N_go x s) = ds ++ cs s
        ∧ Forall (λ c, isdigit c = true) ds
        ∧ ((0 < x)%N → ds ≠ [])
        ∧ ∀ acc rest,
            atoi_digits acc (ds ++ rest) =
            atoi_digits (acc * 10 ^ Z.of_nat (length ds) + Z.of_N x) rest.
Proof.
  induction (N.lt_wf_0 x) as [x _ IH]. intros s.
  destruct (decide (x = 0)%N) as [->|Hx].
  - exists []. rewrite pretty_N_go_0. split_and!; [done|constructor|lia|].
    intros acc rest. simpl. f_equal. lia.
  - rewrite pretty_N_go_step by lia.
    destruct (IH (x `div` 10)%N ltac:(apply N.div_lt; lia)
                (String (pretty_N_char (x `mod` 10)) s))
      as (ds & Heq & Hds & _ & Hval).
    destruct (pretty_N_char_digit (x `mod` 10)%N
                ltac:(apply N.mod_lt; lia)) as [Hdig Hdv].
    exists (ds ++ [pretty_N_char (x `mod` 10)]). split_and!.
    + rewrite Heq. simpl. by rewrite <- app_assoc.
    + apply Forall_app. split; [done|]. by repeat constructor.
    + intros _. by destruct ds.
    + intros acc rest. rewrite <- app_assoc. simpl. rewrite Hval. simpl.
      rewrite Hdig, Hdv. f_equal. rewrite length_app. simpl.
      rewrite Nat2Z.inj_add, Z.pow_add_r by lia.
      pose proof (N.div_mod x 10 ltac:(lia)) as Hdm.
      rewrite Hdm at 3. rewrite N2Z.inj_add, N2Z.inj_mul.
      change (Z.of_N 10) with 10. change (10 ^ Z.of_nat 1) with 10. lia.
Qed.

Lemma decimal_digits (p : Z) :
  0 ≤ p →
  ∃ d ds, decimal p = d :: ds
          ∧ Forall (λ c, isdigit c = true) (d :: ds)
          ∧ ∀ rest, atoi_digits 0 ((d :: ds) ++ rest) = atoi_digits p rest.
Proof.
  intros Hp. unfold decimal, pretty, pretty_N.
  destruct (decide (Z.to_N p = 0)%N) as [H0|H0].
  - assert (p = 0) as -> by (destruct p; [done|done|lia]).
    exists "0"%char, []. split_and!; [done|by repeat constructor|done].
  - destruct (pretty_N_go_digits (Z.to_N p) EmptyString)
      as (ds & Heq & Hds & Hne & Hval).
    simpl in Heq. rewrite app_nil_r in Heq.
    destruct ds as [|d ds]; [by destruct Hne; [lia|]|].
    exists d, ds. split_and!; [done|done|].
    intros rest. rewrite Hval. f_equal. rewrite Z2N.id by done. lia.
Qed.

(** [atoi] reads back a decimal number that fits an [int], whatever
    follows it, as long as that is not one more digit. *)
Lemma atoi_decimal (p : Z) (rest : cstring) :
  0 ≤ p ≤ INT_MAX → isdigit (char_at rest 0) = false →
  atoi (decimal p ++ rest) = p.
Proof.
  intros Hp Hrest.
  destruct (decimal_digits p ltac:(lia)) as (d & ds & Heq & Hds & Hval).
  unfold atoi. rewrite Heq.
  apply Forall_cons in Hds as Hd. destruct Hd as [Hd _].
  destruct (isdigit_not_special d Hd) as (Hsp & Hminus & Hplus & _).
  simpl app. cbn [skip_spaces]. rewrite Hsp.
  rewrite (proj2 (Ascii.eqb_neq d "-")), (proj2 (Ascii.eqb_neq d "+")) by done.
  change (d :: ds ++ rest) with ((d :: ds) ++ rest). rewrite Hval.
  assert (Hstop : atoi_digits p rest = p).
  { destruct rest as [|c r]; [done|]. unfold char_at in Hrest.
    cbn [nth] in Hrest. cbn [atoi_digits]. by rewrite Hrest. }
  rewrite Hstop. unfold to_int, INT_MAX in *.
  rewrite Z.mod_small by lia. lia.
Qed.

(** ** Address parser *)

Lemma strchr_is_Some_bool (s : cstring) (c : ascii) :
  c ≠ NUL →
  match strchr s c with Some _ => true | None => false end = bool_decide (c ∈ s).
Proof.
  intros Hc. destruct (strchr s c) as [i|] eqn:Hs.
  - symmetry. apply bool_decide_eq_true_2, strchr_Some_elem; eauto.
  - symmetry. apply bool_decide_eq_false_2.
    by apply strchr_None_not_elem.
Qed.

(** The parser cuts an address of at most 1289 bytes at its first slash
    and, before that, at its last colon. *)
Lemma parse_gopher_address_cut (scheme : bool) (h : cstring)
    (pt sel : option cstring) :
  let address := address_of scheme h pt sel in
  address ≠ [] → (length address ≤ 1289)%nat → NUL ∉ address →
  "/"%char ∉ h →
  (∀ p, pt = Some p → ("/"%char ∉ p) ∧ (":"%char ∉ p)) →
  (pt = None → ":"%char ∉ h) →
  (scheme = false → take 9 address ≠ cs "gopher://") →
  parse_gopher_address address = address_verdict h pt (default [] sel).
Proof.
  intros address Hne Hlen Hnul Hsl Hpt Hcolon Hscheme.
  set (pre := if scheme then cs "gopher://" else []).
  set (hp := h ++ opt_field ":" pt).
  assert (Haddr : address = pre ++ hp ++ opt_field "/" sel).
  { unfold address, address_of, hp, pre. by rewrite <- !app_assoc. }
  assert (Nbody : NUL ∉ hp ++ opt_field "/" sel).
  { intros ?. apply Hnul. rewrite Haddr. set_solver. }
  assert (Nhp : NUL ∉ hp) by (intros ?; apply Nbody; set_solver).
  assert (Nh : NUL ∉ h) by (intros ?; apply Nhp; unfold hp; set_solver).
  assert (Shp : "/"%char ∉ hp).
  { unfold hp. destruct pt as [p|]; simpl; [|by rewrite app_nil_r].
    destruct (Hpt p eq_refl) as [? _].
    rewrite elem_of_app, elem_of_cons. intros [?|[?|?]]; done. }
  unfold parse_gopher_address.
  replace (length address =? 0)%nat with false
    by (symmetry; apply Nat.eqb_neq; by destruct address).
  assert (Hmax : (MAX_URL_INPUT_LENGTH - 1 = 1289)%nat) by reflexivity.
  rewrite Hmax, strncpy0_fits by done. clear Hmax.
  assert (Hpp : (if strneq address (cs "gopher://") 9 then 9 else 0)%nat
                = length pre).
  { unfold strneq, pre. destruct scheme.
    - rewrite bool_decide_eq_true_2; [done|].
      rewrite Haddr. unfold pre. by rewrite take_app_length'.
    - rewrite bool_decide_eq_false_2; [done|]. by apply Hscheme. }
  rewrite Hpp. clear Hpp.
  rewrite Haddr. rewrite (str_at_app pre _ (length pre)) by done.
  rewrite c_str_id by done.
  (* the first slash *)
  assert (Hslash : ∃ t1, ends t1 ∧
    match strchr (hp ++ opt_field "/" sel) "/" with
    | Some i =>
        (<[(length pre + i)%nat := NUL]> (pre ++ hp ++ opt_field "/" sel),
         strncpy0
           (str_at (<[(length pre + i)%nat := NUL]>
                      (pre ++ hp ++ opt_field "/" sel))
              (length pre + i + 1))
           (MAX_SELECTOR_LENGTH - 1))
    | None => (pre ++ hp ++ opt_field "/" sel, [])
    end = (pre ++ hp ++ t1, take 1023 (default [] sel))).
  { destruct sel as [s|]; simpl opt_field.
    - exists (NUL :: s). split; [right; eauto|].
      rewrite strchr_found by done.
      rewrite (app_assoc pre hp), insert_middle by (by rewrite length_app).
      f_equal; [by rewrite <- app_assoc|].
      replace ((pre ++ hp) ++ NUL :: s) with (((pre ++ hp) ++ [NUL]) ++ s ++ [])
        by (by rewrite app_nil_r, <- !app_assoc).
      rewrite str_at_field; [done| |set_solver|by left].
      rewrite !length_app. simpl. lia.
    - exists []. split; [by left|].
      rewrite app_nil_r.
      by rewrite (proj2 (strchr_None_not_elem hp "/" ltac:(done)) Shp). }
  destruct Hslash as (t1 & Ht1 & ->).
  (* the last colon before it *)
  rewrite (str_at_field pre hp t1) by done.
  assert (Hhost : ∀ t, ends t → str_at (pre ++ h ++ t) (length pre) = h)
    by (intros t Ht; by apply str_at_field).
  assert (Hverdict : ∀ temp_address port_out,
    str_at temp_address (length pre) = h →
    (if (length (str_at temp_address (length pre)) =? 0)%nat then None
     else
       if match strchr (str_at temp_address (length pre)) SPACE with
          | Some _ => true | None => false end
          || match strchr (str_at temp_address (length pre)) TAB with
             | Some _ => true | None => false end
          || match strchr (str_at temp_address (length pre)) LF with
             | Some _ => true | None => false end
       then None
       else
         if match strchr (str_at temp_address (length pre)) "." with
            | Some _ => false | None => true end
            && negb (isdigit (char_at (str_at temp_address (length pre)) 0))
         then None
         else
           if (port_out <=? 0) || (65535 <? port_out) then None
           else Some (strncpy0 (str_at temp_address (length pre))
                        (MAX_HOST_LENGTH - 1),
                      port_out, take 1023 (default [] sel)))
    = (if (length h =? 0)%nat then None
       else if bool_decide (SPACE ∈ h) || bool_decide (TAB ∈ h)
               || bool_decide (LF ∈ h)
       then None
       else if bool_decide ("."%char ∉ h) && negb (isdigit (char_at h 0))
       then None
       else if (port_out <=? 0) || (65535 <? port_out) then None
       else Some (take 255 h, port_out, take 1023 (default [] sel)))).
  { intros temp_address port_out ->.
    rewrite !strchr_is_Some_bool by done.
    replace (match strchr h "." with Some _ => false | None => true end)
      with (bool_decide ("."%char ∉ h)); [done|].
    rewrite <- (negb_involutive
      (match strchr h "." with Some _ => false | None => true end)).
    replace (negb (match strchr h "." with Some _ => false | None => true end))
      with (match strchr h "." with Some _ => true | None => false end)
      by (by destruct (strchr h ".")).
    rewrite strchr_is_Some_bool by done.
    by rewrite bool_decide_not. }
  unfold address_verdict. destruct pt as [p|].
  - destruct (Hpt p eq_refl) as [Sp Cp].
    assert (Np : NUL ∉ p) by (intros ?; apply Nhp; unfold hp; set_solver).
    unfold hp. simpl opt_field. rewrite strrchr_found by done.
    replace (pre ++ (h ++ ":"%char :: p) ++ t1)
      with ((pre ++ h) ++ ":"%char :: (p ++ t1))
      by (by rewrite <- !app_assoc).
    rewrite insert_middle by (by rewrite length_app).
    assert (Hp : str_at ((pre ++ h) ++ NUL :: p ++ t1)
                   (length pre + length h + 1) = p).
    { replace ((pre ++ h) ++ NUL :: p ++ t1)
        with (((pre ++ h) ++ [NUL]) ++ p ++ t1)
        by (by rewrite <- !app_assoc).
      apply str_at_field; [|done..]. rewrite !length_app. simpl. lia. }
    rewrite Hp. destruct p as [|c p]; [done|].
    replace (0 <? length (c :: p))%nat with true by done.
    apply Hverdict. rewrite <- app_assoc.
    apply (Hhost (NUL :: (c :: p) ++ t1)). right; eauto.
  - unfold hp. simpl opt_field. rewrite app_nil_r.
    rewrite strrchr_None by (try done; by apply Hcolon).
    apply Hverdict, Hhost. done.
Qed.

Lemma valid_host_chars (h : cstring) :
  valid_host h →
  (NUL ∉ h) ∧ (SPACE ∉ h) ∧ (TAB ∉ h) ∧ (LF ∉ h) ∧ ("/"%char ∉ h)
  ∧ (":"%char ∉ h).
Proof.
  intros (_ & _ & Hc & _).
  split_and!; intros Hin; apply (Hc _ Hin); rewrite !elem_of_cons; tauto.
Qed.

Lemma address_verdict_accept (h : cstring) (pt : option cstring)
    (sel : cstring) (port : Z) :
  valid_host h → pt ≠ Some [] →
  match pt with Some p => atoi p | None => 70 end = port →
  1 ≤ port ≤ 65535 → (length sel ≤ 1023)%nat →
  address_verdict h pt sel = Some (h, port, sel).
Proof.
  intros Hh Hpt Hport Hrange Hsel.
  destruct (valid_host_chars h Hh) as (_ & Hsp & Htab & Hlf & _ & _).
  destruct Hh as (Hne & Hlen & _ & Hdot).
  unfold address_verdict.
  assert (Hbody :
    (if (length h =? 0)%nat then None
     else if bool_decide (SPACE ∈ h) || bool_decide (TAB ∈ h)
             || bool_decide (LF ∈ h)
     then None
     else if bool_decide ("."%char ∉ h) && negb (isdigit (char_at h 0))
     then None
     else if (port <=? 0) || (65535 <? port) then None
     else Some (take 255 h, port, take 1023 sel)) = Some (h, port, sel)).
  { replace (length h =? 0)%nat with false
      by (symmetry; apply Nat.eqb_neq; by destruct h).
    rewrite !bool_decide_eq_false_2 by done. simpl.
    replace (bool_decide ("."%char ∉ h) && negb (isdigit (char_at h 0)))
      with false.
    2:{ symmetry. apply andb_false_iff. destruct Hdot as [Hd|Hd].
        - left. by apply bool_decide_eq_false_2; intros ?.
        - right. by rewrite Hd. }
    replace (port <=? 0) with false by (symmetry; apply Z.leb_gt; lia).
    replace (65535 <? port) with false by (symmetry; apply Z.ltb_ge; lia).
    simpl. by rewrite !take_ge by done. }
  destruct pt as [[|c p]|]; [done| |]; by rewrite Hport.
Qed.

Lemma address_verdict_host (h : cstring) (pt : option cstring) (sel : cstring) :
  h = [] ∨ SPACE ∈ h ∨ TAB ∈ h ∨ LF ∈ h
  ∨ (("."%char ∉ h) ∧ isdigit (char_at h 0) = false) →
  address_verdict h pt sel = None.
Proof.
  intros Hbad. unfold address_verdict.
  assert (Hbody : ∀ port : Z,
    (if (length h =? 0)%nat then None
     else if bool_decide (SPACE ∈ h) || bool_decide (TAB ∈ h)
             || bool_decide (LF ∈ h)
     then None
     else if bool_decide ("."%char ∉ h) && negb (isdigit (char_at h 0))
     then None
     else if (port <=? 0) || (65535 <? port) then None
     else Some (take 255 h, port, take 1023 sel)) = None).
  { intros port. destruct (length h =? 0)%nat eqn:Hl; [done|].
    destruct Hbad as [->|[H|[H|[H|[H1 H2]]]]]; [done|..].
    - by rewrite (bool_decide_eq_true_2 _ H).
    - rewrite (bool_decide_eq_true_2 _ H). by rewrite orb_true_r.
    - rewrite (bool_decide_eq_true_2 _ H). by rewrite orb_true_r.
    - rewrite (bool_decide_eq_true_2 _ H1), H2. simpl.
      by destruct (_ || _ || _). }
  destruct pt as [[|c p]|]; [done|apply Hbody..].
Qed.

Lemma address_verdict_port (h : cstring) (p sel : cstring) :
  atoi p ≤ 0 ∨ 65535 < atoi p → address_verdict h (Some p) sel = None.
Proof.
  intros Hport. unfold address_verdict. destruct p as [|c p]; [done|].
  cbv zeta.
  replace ((atoi (c :: p) <=? 0) || (65535 <? atoi (c :: p))) with true.
  - destruct (length h =? 0)%nat; [done|].
    destruct (_ || _ || _); [done|]. by destruct (_ && _).
  - symmetry. apply orb_true_iff.
    destruct Hport; [left; by apply Z.leb_le | right; by apply Z.ltb_lt].
Qed.

Lemma decimal_chars (p : Z) (c : ascii) :
  0 ≤ p → c ∈ decimal p → isdigit c = true.
Proof.
  intros Hp Hc.
  destruct (decimal_digits p Hp) as (d & ds & Heq & Hds & _).
  rewrite Heq in Hc. by eapply Forall_forall in Hds.
Qed.

(** C6. A valid host, a port in 1..65535 written in decimal and a selector
    of at most 1023 bytes, in an address of at most 1289 bytes:
    gopher://h:p/s parses to (h, p, s), gopher://h/s to (h, 70, s), and
    gopher://h:p to (h, p, empty). *)
Theorem parse_gopher_address_round_trip (h : cstring) (p : Z) (s : cstring) :
  valid_host h → 1 ≤ p ≤ 65535 → NUL ∉ s → (length s ≤ 1023)%nat →
  (length (cs "gopher://" ++ h ++ ":"%char :: decimal p ++ "/"%char :: s)
   ≤ 1289)%nat →
  parse_gopher_address
    (cs "gopher://" ++ h ++ ":"%char :: decimal p ++ "/"%char :: s)
    = Some (h, p, s)
  ∧ parse_gopher_address (cs "gopher://" ++ h ++ "/"%char :: s)
    = Some (h, 70, s)
  ∧ parse_gopher_address (cs "gopher://" ++ h ++ ":"%char :: decimal p)
    = Some (h, p, []).
Proof.
  intros Hh Hp Ns Hs Hlen.
  destruct (valid_host_chars h Hh) as (Nh & _ & _ & _ & Hslash & Hcolon).
  assert (Hdec : ∀ c, c ∈ decimal p → isdigit c = true)
    by (intros c; apply decimal_chars; lia).
  assert (Hdec' : ∀ c, isdigit c = false → c ∉ decimal p).
  { intros c Hc Hin. apply Hdec in Hin. congruence. }
  assert (Hatoi : atoi (decimal p) = p).
  { rewrite <- (app_nil_r (decimal p)). apply atoi_decimal; [|done].
    unfold INT_MAX. lia. }
  assert (Hdne : decimal p ≠ []).
  { destruct (decimal_digits p ltac:(lia)) as (d & ds & -> & _). done. }
  assert (Nscheme : NUL ∉ cs "gopher://")
    by (apply (bool_decide_unpack _); vm_compute; exact I).
  assert (Nd : NUL ∉ decimal p) by (by apply Hdec').
  assert (Hlen' : (length h + length (decimal p) + length s ≤ 1278)%nat).
  { rewrite length_app, length_app in Hlen. simpl in Hlen.
    rewrite length_app in Hlen. simpl in Hlen. lia. }
  split_and!.
  - change (cs "gopher://" ++ h ++ ":"%char :: decimal p ++ "/"%char :: s)
      with (address_of true h (Some (decimal p)) (Some s)).
    rewrite parse_gopher_address_cut.
    + apply address_verdict_accept; try done. by intros [= ?].
    + done.
    + done.
    + unfold address_of. simpl opt_field.
      rewrite !not_elem_of_app, !not_elem_of_cons. done.
    + exact Hslash.
    + intros q [= <-]. split; by apply Hdec'.
    + done.
    + done.
  - change (cs "gopher://" ++ h ++ "/"%char :: s)
      with (address_of true h None (Some s)).
    rewrite parse_gopher_address_cut.
    + apply address_verdict_accept; try done.
    + done.
    + unfold address_of. simpl. rewrite !length_app. simpl. lia.
    + unfold address_of. simpl opt_field.
      rewrite !not_elem_of_app, !not_elem_of_cons. split_and!; try done.
      apply not_elem_of_nil.
    + exact Hslash.
    + done.
    + intros _. exact Hcolon.
    + done.
  - replace (cs "gopher://" ++ h ++ ":"%char :: decimal p)
      with (address_of true h (Some (decimal p)) None)
      by (unfold address_of; simpl opt_field; by rewrite app_nil_r).
    rewrite parse_gopher_address_cut.
    + apply address_verdict_accept; try done; [by intros [= ?]|simpl; lia].
    + done.
    + unfold address_of. simpl. rewrite !length_app. simpl.
      rewrite length_app. simpl. lia.
    + unfold address_of. simpl opt_field.
      rewrite !not_elem_of_app, !not_elem_of_cons. split_and!; try done.
      apply not_elem_of_nil.
    + exact Hslash.
    + intros q [= <-]. split; by apply Hdec'.
    + done.
    + done.
Qed.

(** Witness of C6. *)
Lemma parse_gopher_address_round_trip_witness :
  valid_host (cs "example.org") ∧ 1 ≤ 7070 ≤ 65535
  ∧ (NUL ∉ cs "1/docs/index") ∧ (length (cs "1/docs/index") ≤ 1023)%nat
  ∧ parse_gopher_address
      (cs "gopher://" ++ cs "example.org" ++ ":"%char :: decimal 7070
         ++ "/"%char :: cs "1/docs/index")
      = Some (cs "example.org", 7070, cs "1/docs/index")
  ∧ parse_gopher_address
      (cs "gopher://" ++ cs "example.org" ++ "/"%char :: cs "1/docs/index")
      = Some (cs "example.org", 70, cs "1/docs/index")
  ∧ parse_gopher_address
      (cs "gopher://" ++ cs "example.org" ++ ":"%char :: decimal 7070)
      = Some (cs "example.org", 7070, []).
Proof.
  assert (Hh : valid_host (cs "example.org")).
  { unfold valid_host. split_and!.
    - discriminate.
    - simpl. lia.
    - apply Forall_forall. apply (bool_decide_unpack _). vm_compute. exact I.
    - left. apply (bool_decide_unpack _). vm_compute. exact I. }
  assert (Hp : 1 ≤ 7070 ≤ 65535) by lia.
  assert (Hn : NUL ∉ cs "1/docs/index")
    by (apply (bool_decide_unpack _); vm_compute; exact I).
  assert (Hs : (length (cs "1/docs/index") ≤ 1023)%nat) by (simpl; lia).
  refine (conj Hh (conj Hp (conj Hn (conj Hs _)))).
  apply (parse_gopher_address_round_trip (cs "example.org") 7070
           (cs "1/docs/index") Hh Hp Hn Hs).
  apply Nat.leb_le. vm_compute. reflexivity.
Defined.

(** Counterexample to C6 as stated: with a host of 255 bytes and a
    selector of 1023 bytes the address has 1294 bytes; the parser reads
    its first 1289 and returns a selector that lacks the last 5 bytes. *)
Lemma long_address_loses_selector_bytes :
  valid_host host_255
  ∧ length host_255 = 255%nat ∧ length selector_1023 = 1023%nat
  ∧ parse_gopher_address
      (cs "gopher://" ++ host_255 ++ ":"%char :: decimal 65535
         ++ "/"%char :: selector_1023)
    = Some (host_255, 65535, replicate 1018 "x"%char)
  ∧ parse_gopher_address
      (cs "gopher://" ++ host_255 ++ ":"%char :: decimal 65535
         ++ "/"%char :: selector_1023)
    ≠ Some (host_255, 65535, selector_1023).
Proof.
  assert (Hparse : parse_gopher_address
      (cs "gopher://" ++ host_255 ++ ":"%char :: decimal 65535
         ++ "/"%char :: selector_1023)
    = Some (host_255, 65535, replicate 1018 "x"%char))
    by (vm_compute; reflexivity).
  assert (Hh : valid_host host_255).
  { unfold valid_host. split_and!.
    - intros H. apply (f_equal length) in H. vm_compute in H. discriminate.
    - apply Nat.leb_le. vm_compute. reflexivity.
    - apply Forall_forall. apply (bool_decide_unpack _). vm_compute. exact I.
    - left. apply (bool_decide_unpack _). vm_compute. exact I. }
  refine (conj Hh (conj _ (conj _ (conj Hparse _)))).
  - reflexivity.
  - reflexivity.
  - rewrite Hparse. intros H. apply (f_equal (λ r, length <$> (snd <$> r))) in H.
    vm_compute in H. discriminate.
Qed.

(** Every string is an address in that form, in one way. *)
Lemma address_of_covers (address : cstring) :
  ∃ scheme h pt sel,
    address = address_of scheme h pt sel
    ∧ ("/"%char ∉ h)
    ∧ (∀ p, pt = Some p → ("/"%char ∉ p) ∧ (":"%char ∉ p))
    ∧ (pt = None → ":"%char ∉ h)
    ∧ (scheme = false → take 9 address ≠ cs "gopher://").
Proof.
  assert (Hrest : ∀ rest : cstring, ∃ h pt sel,
    rest = h ++ opt_field ":" pt ++ opt_field "/" sel
    ∧ ("/"%char ∉ h)
    ∧ (∀ p, pt = Some p → ("/"%char ∉ p) ∧ (":"%char ∉ p))
    ∧ (pt = None → ":"%char ∉ h)).
  { intros rest.
    assert (Hhp : ∃ hp sel, rest = hp ++ opt_field "/" sel ∧ "/"%char ∉ hp).
    { destruct (decide ("/"%char ∈ rest)) as [Hin|Hout].
      - apply list_elem_of_split_l in Hin as (hp & s & -> & Hhp).
        by exists hp, (Some s).
      - exists rest, None. by rewrite app_nil_r. }
    destruct Hhp as (hp & sel & -> & Hhp).
    destruct (decide (":"%char ∈ hp)) as [Hin|Hout].
    - apply list_elem_of_split_r in Hin as (h & p & -> & Hp).
      rewrite not_elem_of_app, not_elem_of_cons in Hhp.
      destruct Hhp as (Hh & _ & Hps).
      exists h, (Some p), sel. split_and!; try done.
      + by rewrite <- app_assoc.
      + by intros q [= <-].
    - exists hp, None, sel. split_and!; done. }
  destruct (decide (take 9 address = cs "gopher://")) as [Hs|Hs].
  - destruct (Hrest (drop 9 address)) as (h & pt & sel & Heq & ? & ? & ?).
    exists true, h, pt, sel. split_and!; try done.
    unfold address_of. by rewrite <- Heq, <- Hs, take_drop.
  - destruct (Hrest address) as (h & pt & sel & Heq & ? & ? & ?).
    exists false, h, pt, sel. split_and!; done.
Qed.

(** The parser reads the first 1289 bytes of its input and no more. *)
Lemma parse_gopher_address_take (address : cstring) :
  parse_gopher_address address = parse_gopher_address (take 1289 address).
Proof.
  unfold parse_gopher_address.
  change (MAX_URL_INPUT_LENGTH - 1)%nat with 1289%nat.
  unfold strncpy0.
  rewrite take_take, Nat.min_id.
  destruct address as [|c r]; reflexivity.
Qed.

Lemma skip_spaces_app (ws rest : cstring) :
  forallb isspace ws = true → isspace (char_at rest 0) = false →
  skip_spaces (ws ++ rest) = rest.
Proof.
  intros Hws Hrest. induction ws as [|c ws IH]; cbn [app skip_spaces].
  - destruct rest as [|x r]; [done|]. unfold char_at in Hrest.
    cbn [nth] in Hrest. cbn [skip_spaces]. by rewrite Hrest.
  - cbn [forallb] in Hws. apply andb_true_iff in Hws as [Hc Hws].
    rewrite Hc. by apply IH.
Qed.

Lemma atoi_digits_app (ds junk : cstring) (acc : Z) :
  forallb isdigit ds = true → isdigit (char_at junk 0) = false →
  atoi_digits acc (ds ++ junk)
  = foldl (λ acc c, 10 * acc + digit_value c) acc ds.
Proof.
  intros Hds Hjunk. revert acc. induction ds as [|d ds IH]; intros acc.
  - destruct junk as [|x r]; [done|]. unfold char_at in Hjunk.
    cbn [nth] in Hjunk. cbn [app atoi_digits foldl]. by rewrite Hjunk.
  - cbn [forallb] in Hds. apply andb_true_iff in Hds as [Hd Hds].
    cbn [app atoi_digits foldl]. rewrite Hd. by apply IH.
Qed.

Lemma digits_value_nonneg (ds : cstring) :
  forallb isdigit ds = true → 0 ≤ digits_value ds.
Proof.
  assert (H : ∀ acc, 0 ≤ acc → forallb isdigit ds = true →
              0 ≤ foldl (λ acc c, 10 * acc + digit_value c) acc ds).
  { induction ds as [|d ds IH]; intros acc Hacc Hds; [done|].
    cbn [forallb] in Hds. apply andb_true_iff in Hds as [Hd Hds].
    cbn [foldl]. apply IH; [|done].
    unfold isdigit in Hd. apply andb_true_iff in Hd as [Hd _].
    apply N.leb_le in Hd. unfold digit_value. lia. }
  apply H. lia.
Qed.

(** [atoi] on a text cut as a number is read gives the number it starts
    with, as long as that fits an [int]. *)
Lemma atoi_number_cut (ws sign ds junk : cstring) :
  number_cut ws sign ds junk = true → digits_value ds ≤ INT_MAX →
  atoi (ws ++ sign ++ ds ++ junk) = signed_value sign ds.
Proof.
  unfold number_cut. intros Hcut Hmax.
  apply andb_true_iff in Hcut as [Hcut Hbare].
  apply andb_true_iff in Hcut as [Hcut Hjunk].
  apply andb_true_iff in Hcut as [Hcut Hds].
  apply andb_true_iff in Hcut as [Hws Hsign].
  apply negb_true_iff in Hjunk.
  pose proof (digits_value_nonneg ds Hds) as Hnn.
  assert (Hint : ∀ v, 0 ≤ v ≤ INT_MAX → to_int v = v ∧ to_int (- v) = - v).
  { intros v Hv. unfold to_int, INT_MAX in *.
    split; rewrite Z.mod_small by lia; lia. }
  destruct (Hint (digits_value ds) ltac:(lia)) as [Hpos Hneg].
  unfold atoi, signed_value.
  apply orb_true_iff in Hsign as [Hsign|Hsign];
    [apply orb_true_iff in Hsign as [Hsign|Hsign]|];
    apply bool_decide_eq_true in Hsign; subst sign.
  - (* no sign *)
    rewrite bool_decide_eq_false_2 by discriminate.
    rewrite app_nil_l.
    destruct ds as [|d ds'].
    + rewrite app_nil_l.
      rewrite !bool_decide_eq_true_2 in Hbare by done.
      cbn [andb] in Hbare.
      apply andb_true_iff in Hbare as [Hbare Hminus].
      apply andb_true_iff in Hbare as [Hsp Hplus].
      apply negb_true_iff in Hsp, Hplus, Hminus.
      rewrite skip_spaces_app by done.
      destruct junk as [|x r]; [done|].
      unfold char_at in Hjunk, Hplus, Hminus.
      cbn [nth] in Hjunk, Hplus, Hminus.
      rewrite Hminus, Hplus. cbn [atoi_digits]. by rewrite Hjunk.
    + cbn [forallb] in Hds. apply andb_true_iff in Hds as Hd. destruct Hd as [Hd _].
      destruct (isdigit_not_special d Hd) as (Hsp & Hminus & Hplus & _).
      rewrite skip_spaces_app by done.
      change (((d :: ds') ++ junk)) with (d :: (ds' ++ junk)).
      cbv iota.
      rewrite (proj2 (Ascii.eqb_neq d "-")), (proj2 (Ascii.eqb_neq d "+"))
        by done.
      change (d :: ds' ++ junk) with ((d :: ds') ++ junk).
      rewrite (atoi_digits_app (d :: ds') junk 0) by done.
      exact Hpos.
  - (* a plus sign *)
    rewrite bool_decide_eq_false_2 by discriminate.
    rewrite skip_spaces_app by done.
    change (cs "+" ++ ds ++ junk) with ("+"%char :: (ds ++ junk)).
    cbv iota. change (Ascii.eqb "+" "-") with false.
    change (Ascii.eqb "+" "+") with true. cbv iota.
    rewrite atoi_digits_app by done. exact Hpos.
  - (* a minus sign *)
    rewrite bool_decide_eq_true_2 by done.
    rewrite skip_spaces_app by done.
    change (cs "-" ++ ds ++ junk) with ("-"%char :: (ds ++ junk)).
    cbv iota. change (Ascii.eqb "-" "-") with true. cbv iota.
    rewrite atoi_digits_app by done. exact Hneg.
Qed.

(** C7. An address is rejected when, cut within its first 1289 bytes (the
    parser reads no more) into scheme, host part, port text after the last
    colon and selector after the first slash, it is empty; when its host
    part is empty, contains a space, a tab or a newline, or has no dot and
    no digit in front; when the colon is followed by nothing; and when the
    number its port text starts with (after white space and a sign, if
    any; 0 when no digit follows) is not from 1 to 65535, as long as the
    digits fit an int. *)
Theorem parse_gopher_address_rejects (address : cstring) (scheme : bool)
    (h : cstring) (pt sel : option cstring) :
  take 1289 address = address_of scheme h pt sel →
  NUL ∉ address →
  "/"%char ∉ h →
  (∀ p, pt = Some p → ("/"%char ∉ p) ∧ (":"%char ∉ p)) →
  (pt = None → ":"%char ∉ h) →
  (scheme = false → take 9 address ≠ cs "gopher://") →
  address = []
  ∨ h = []
  ∨ SPACE ∈ h ∨ TAB ∈ h ∨ LF ∈ h
  ∨ (("."%char ∉ h) ∧ isdigit (char_at h 0) = false)
  ∨ pt = Some []
  ∨ (∃ ws sign ds junk,
       pt = Some (ws ++ sign ++ ds ++ junk)
       ∧ number_cut ws sign ds junk = true
       ∧ digits_value ds ≤ INT_MAX
       ∧ (signed_value sign ds ≤ 0 ∨ 65535 < signed_value sign ds)) →
  parse_gopher_address address = None.
Proof.
  intros Hcut Hnul Hsl Hpt Hcolon Hscheme Hbad.
  destruct (decide (address = [])) as [Hempty|Hne].
  { by rewrite Hempty. }
  rewrite parse_gopher_address_take, Hcut.
  assert (Hne' : address_of scheme h pt sel ≠ []).
  { rewrite <- Hcut. destruct address; [done|discriminate]. }
  assert (Hlen : (length (address_of scheme h pt sel) ≤ 1289)%nat).
  { rewrite <- Hcut, length_take. lia. }
  assert (Hnul' : NUL ∉ address_of scheme h pt sel).
  { rewrite <- Hcut. rewrite <- (take_drop 1289 address) in Hnul.
    by apply not_elem_of_app in Hnul as [? _]. }
  assert (Hscheme' : scheme = false →
            take 9 (address_of scheme h pt sel) ≠ cs "gopher://").
  { intros Hs. rewrite <- Hcut, take_take. by apply Hscheme. }
  rewrite parse_gopher_address_cut by done.
  destruct Hbad as [?|[H|[H|[H|[H|[H|[H|H]]]]]]]; [done|..].
  - apply address_verdict_host. by left.
  - apply address_verdict_host. tauto.
  - apply address_verdict_host. tauto.
  - apply address_verdict_host. tauto.
  - apply address_verdict_host. tauto.
  - by rewrite H.
  - destruct H as (ws & sign & ds & junk & -> & Hnum & Hmax & Hv).
    apply address_verdict_port. by rewrite atoi_number_cut.
Qed.

(** Witness of C7: port texts with a lone sign, a blank, leading zeros, a
    sign before 0 or 65536, a negative number, a letter in front. *)
Lemma parse_gopher_address_rejects_witness :
  Forall (λ t, parse_gopher_address
                 (cs "gopher://example.org:" ++ port_text t) = None)
    rejected_port_texts.
Proof.
  unfold rejected_port_texts.
  repeat match goal with
  | |- Forall _ [] => apply Forall_nil_2
  | |- Forall _ (_ :: _) => apply Forall_cons; split; [cbv beta|]
  | |- parse_gopher_address (_ ++ port_text (?ws, ?sign, ?ds, ?junk)) = None =>
      apply (parse_gopher_address_rejects _ true (cs "example.org")
               (Some (ws ++ sign ++ ds ++ junk)) None);
      [ vm_compute; reflexivity
      | apply (bool_decide_unpack _); vm_compute; exact I
      | apply (bool_decide_unpack _); vm_compute; exact I
      | intros p [= <-]; split; apply (bool_decide_unpack _); vm_compute;
        exact I
      | discriminate
      | discriminate
      | do 7 right; exists ws, sign, ds, junk;
        split; [reflexivity|]; split; [vm_compute; reflexivity|];
        split; [apply Z.leb_le; vm_compute; reflexivity|];
        first [ left; apply Z.leb_le; vm_compute; reflexivity
              | right; apply Z.ltb_lt; vm_compute; reflexivity ] ]
  end.
Defined.

(** Counterexample to C7 as stated: a carriage return, a vertical tab and
    a form feed are white space, and a host part that contains one is
    accepted; "70x" is not a number, and a port part "70x" is accepted as
    70; a blank in the host part that lies beyond the first 1289 bytes of
    the address is not seen. *)
Lemma lenient_addresses_accepted :
  isspace CR = true
  ∧ parse_gopher_address (cs "exa" ++ CR :: cs "mple.org")
    = Some (cs "exa" ++ CR :: cs "mple.org", 70, [])
  ∧ isspace "011" = true
  ∧ parse_gopher_address (cs "exa" ++ "011"%char :: cs "mple.org")
    = Some (cs "exa" ++ "011"%char :: cs "mple.org", 70, [])
  ∧ isspace "012" = true
  ∧ parse_gopher_address (cs "exa" ++ "012"%char :: cs "mple.org")
    = Some (cs "exa" ++ "012"%char :: cs "mple.org", 70, [])
  ∧ parse_gopher_address (cs "example.org:70x")
    = Some (cs "example.org", 70, [])
  ∧ SPACE ∈ blank_after_1289
  ∧ parse_gopher_address blank_after_1289
    = Some (take 255 blank_after_1289, 70, []).
Proof.
  split_and!; try (vm_compute; reflexivity).
  unfold blank_after_1289. rewrite !elem_of_app. right. right. by left.
Qed.

(** ** Sessions *)

Lemma shows_history_inv w ps i : shows w ps i → history_inv w.
Proof.
  intros (Hlt & l & Hchain & _ & Hcur & Hi). split; [done|].
  rewrite Hcur. destruct (l !! i) as [cur|] eqn:Hl.
  - exists l. split; [done|]. by eapply list_elem_of_lookup_2.
  - destruct l as [|x l]; [|apply lookup_ge_None in Hl; specialize (Hi ltac:(done)); lia].
    destruct Hchain as (_ & Hdom & _). apply map_empty. intros a.
    apply eq_None_not_Some. rewrite Hdom. apply not_elem_of_nil.
Qed.

Lemma dllseg_links h h' p l e :
  (∀ x n, x ∈ l → h !! x = Some n →
     ∃ n', h' !! x = Some n' ∧ NavigationState.prev n' = NavigationState.prev n
           ∧ NavigationState.next n' = NavigationState.next n) →
  dllseg h p l e → dllseg h' p l e.
Proof.
  revert p. induction l as [|x r IH]; intros p Hag; simpl; [done|].
  intros (n & Hn & Hp & Hnx & Hrest).
  destruct (Hag x n ltac:(left) Hn) as (n' & Hn' & Hp' & Hnx').
  exists n'. split_and!; [done|congruence|congruence|].
  apply IH; [|done]. intros y m Hy. apply Hag. by right.
Qed.

Lemma pages_agree (h h' : gmap addr NavigationState.t) l ps :
  (∀ a, a ∈ l → node_page <$> h' !! a = node_page <$> h !! a) →
  Forall2 (λ a p, node_page <$> h !! a = Some p) l ps →
  Forall2 (λ a p, node_page <$> h' !! a = Some p) l ps.
Proof.
  intros Hag Hps. induction Hps as [|a p l ps Hp Hps IH]; [done|].
  apply Forall2_cons. split.
  - rewrite Hag by left. done.
  - apply IH. intros b Hb. apply Hag. by right.
Qed.

(** [navigate_to] on a history that shows [ps] at place [i]. *)
Lemma navigate_to_shows w ps i host port selector :
  shows w ps i →
  ∃ w', navigate_to w.1 w.2 host port selector = Some w'
        ∧ shows w' (browse_step (ps, i) (Visit host port selector)).1
            (browse_step (ps, i) (Visit host port selector)).2.
Proof.
  destruct w as [m state]. intros (Hlt & l & Hchain & Hps & Hcur & Hi).
  simpl in Hlt, Hchain, Hps, Hcur, Hi. cbn [fst snd].
  unfold navigate_to, create_nav_state.
  set (new := next_addr m).
  set (N0 := NavigationState.mk _ _ _ _ _ _).
  destruct l as [|x0 l0].
  - (* the empty history *)
    apply Forall2_nil_inv_l in Hps as ->. simpl in Hcur. rewrite Hcur. simpl.
    eexists. split; [reflexivity|]. simpl.
    assert (Hempty : heap m = ∅).
    { destruct Hchain as (_ & Hdom & _). apply map_empty. intros a.
      apply eq_None_not_Some. rewrite Hdom. apply not_elem_of_nil. }
    unfold shows. simpl. rewrite Hempty. split.
    + intros a [n Hn]. apply lookup_insert_Some in Hn as [[<- _]|[_ Hn]];
        [lia|]. by rewrite lookup_empty in Hn.
    + exists [new]. split_and!.
      * split_and!.
        -- apply NoDup_singleton.
        -- intros a. rewrite lookup_insert_is_Some, list_elem_of_singleton.
           split; [intros [->|[_ [? H]]]; [done|by rewrite lookup_empty in H]
                  | intros ->; by left].
        -- simpl. eexists. split; [apply lookup_insert_eq|]. done.
      * apply Forall2_cons. split; [|done].
        by rewrite lookup_insert_eq.
      * done.
      * simpl. lia.
  - specialize (Hi ltac:(done)).
    set (l := x0 :: l0) in *.
    destruct (lookup_lt_is_Some_2 l i Hi) as [cur Hli].
    rewrite Hli in Hcur. rewrite Hcur.
    pose proof (take_drop_middle l i cur Hli) as Hsplit.
    set (l1 := take i l) in *. set (l2 := drop (S i) l) in *.
    assert (Hl1 : length l1 = i) by (unfold l1; rewrite length_take; lia).
    clearbody l1 l2. clearbody l. subst l. clear Hli x0 l0.
    pose proof (chain_at_size _ _ Hchain) as Hsize.
    destruct Hchain as (Hnd & Hdom & Hseg).
    assert (Hnew : ∀ a, a ∈ l1 ++ cur :: l2 → a ≠ new).
    { intros a Ha ->. apply Hdom, Hlt in Ha. lia. }
    assert (Hcn : cur ≠ new) by (apply Hnew; set_solver).
    assert (Hn2 : new ∉ l2) by (intros ?; eapply Hnew; [|done]; set_solver).
    apply dllseg_app in Hseg as [Hseg1 Hseg2].
    destruct Hseg2 as (nc & Hnc & Hpc & Hnxc & Hseg2).
    apply NoDup_app in Hnd as (Hnd1 & Hdisj & Hnd2).
    apply NoDup_cons in Hnd2 as [Hcur2 Hnd2].
    apply Forall2_app_inv_l in Hps as (ps1 & ps2' & Hps1 & Hps2 & ->).
    apply Forall2_cons_inv_l in Hps2 as (pc & ps2 & Hpc' & Hps2 & ->).
    pose proof (Forall2_length _ _ _ Hps1) as Hlen1.
    assert (Hbrowse :
      browse_step (ps1 ++ pc :: ps2, i) (Visit host port selector)
      = (ps1 ++ [pc; node_page N0], S i)).
    { simpl. destruct (ps1 ++ pc :: ps2) eqn:Happ;
        [by destruct ps1|]. rewrite <- Happ. f_equal.
      replace (S i) with (length (ps1 ++ [pc])) at 1
        by (rewrite length_app; simpl; lia).
      replace (ps1 ++ pc :: ps2) with ((ps1 ++ [pc]) ++ ps2)
        by (by rewrite <- app_assoc).
      rewrite take_app_length. by rewrite <- app_assoc. }
    rewrite Hbrowse. clear Hbrowse.
    unfold free_forward_history. simpl.
    rewrite lookup_insert_ne by done. rewrite Hnc. simpl.
    rewrite Hnxc, from_option_head.
    rewrite (free_forward_loop_spec l2 _ (Some cur)); cycle 1.
    { eapply dllseg_agree; [|done]. intros y Hy.
      apply lookup_insert_ne. intros <-. done. }
    { done. }
    { rewrite map_size_insert_None.
      - rewrite Hsize, length_app. simpl. lia.
      - apply eq_None_not_Some. intros Hs. apply Hlt in Hs. lia. }
    simpl.
    rewrite lookup_foldr_delete_not_elem_of, lookup_insert_ne, Hnc by done.
    simpl. rewrite lookup_insert_eq. simpl.
    rewrite lookup_insert_ne, lookup_insert_ne,
      lookup_foldr_delete_not_elem_of, lookup_insert_eq by done.
    simpl. eexists. split; [reflexivity|].
    set (H4 := <[new := _]> _).
    assert (Hl_new : H4 !! new = Some (set_prev N0 (Some cur)))
      by apply lookup_insert_eq.
    assert (Hl_cur : H4 !! cur =
                     Some (set_next (set_next nc None) (Some new))).
    { unfold H4. rewrite lookup_insert_ne by done. apply lookup_insert_eq. }
    assert (Hl_old : ∀ a, a ≠ new → a ≠ cur → a ∉ l2 → H4 !! a = heap m !! a).
    { intros a ? ? ?. unfold H4.
      rewrite !lookup_insert_ne, lookup_foldr_delete_not_elem_of,
        lookup_insert_ne by done. done. }
    assert (Hl_gone : ∀ a, a ∈ l2 → H4 !! a = None).
    { intros a Ha. unfold H4.
      rewrite !lookup_insert_ne.
      - by apply lookup_foldr_delete.
      - intros <-. done.
      - intros <-. done.
      - intros <-. done. }
    assert (Hl_1 : ∀ a, a ∈ l1 → H4 !! a = heap m !! a).
    { intros a Ha. apply Hl_old.
      - apply Hnew. set_solver.
      - intros ->. eapply Hdisj; [done|left].
      - intros Ha2. eapply Hdisj; [done|by right]. }
    unfold shows. simpl. split.
    + intros a [n Hn]. destruct (decide (a = new)) as [->|Han]; [lia|].
      destruct (decide (a = cur)) as [->|Hac].
      { assert (Hs : is_Some (heap m !! cur)) by eauto.
        apply Hlt in Hs. lia. }
      destruct (decide (a ∈ l2)) as [Hal|Hal].
      { rewrite Hl_gone in Hn by done. done. }
      rewrite Hl_old in Hn by done.
      assert (Hs : is_Some (heap m !! a)) by eauto.
      apply Hlt in Hs. lia.
    + exists (l1 ++ [cur; new]). split_and!.
      * split_and!.
        -- apply NoDup_app. split_and!; [done| |].
           ++ intros a Ha Ha'. apply elem_of_cons in Ha' as [->|Ha'].
              ** eapply Hdisj; [done|left].
              ** apply list_elem_of_singleton in Ha' as ->.
                 eapply Hnew; [|done]. set_solver.
           ++ apply NoDup_cons. split; [set_solver|]. apply NoDup_singleton.
        -- intros a. destruct (decide (a = new)) as [->|Han].
           { rewrite Hl_new. split; [set_solver|eauto]. }
           destruct (decide (a = cur)) as [->|Hac].
           { rewrite Hl_cur. split; [set_solver|eauto]. }
           destruct (decide (a ∈ l2)) as [Hal|Hal].
           { rewrite Hl_gone by done. split; [intros [? ?]; done|].
             intros Ha. apply elem_of_app in Ha as [Ha|Ha].
             - exfalso. eapply Hdisj; [done|]. by right.
             - set_solver. }
           rewrite Hl_old, Hdom by done. set_solver.
        -- apply dllseg_app. split.
           ++ eapply dllseg_agree; [|exact Hseg1]. done.
           ++ simpl. eexists. split; [exact Hl_cur|]. split_and!; try done.
              eexists. split; [exact Hl_new|]. done.
      * apply Forall2_app.
        -- eapply pages_agree; [|exact Hps1].
           intros a Ha. by rewrite Hl_1.
        -- apply Forall2_cons. split.
           { rewrite Hl_cur. rewrite Hnc in Hpc'. simpl. simpl in Hpc'.
             by injection Hpc' as <-. }
           apply Forall2_cons. split; [|done]. by rewrite Hl_new.
      * rewrite lookup_app_r by lia. by replace (S i - length l1)%nat with 1%nat by lia.
      * intros _. rewrite length_app. simpl. lia.
Qed.

Lemma navigate_back_shows w ps i :
  shows w ps i →
  ∃ w', navigate_back w.1 w.2 = Some w' ∧ shows w' ps (pred i) ∧ w'.1 = w.1
        ∧ (i ≠ 0%nat → ps ≠ [] → w'.2 = set_current_reset w.2 (current_nav w'.2)).
Proof.
  destruct w as [m state]. intros (Hlt & l & Hchain & Hps & Hcur & Hi).
  simpl in *. unfold navigate_back. rewrite Hcur.
  destruct (l !! i) as [cur|] eqn:Hli.
  - destruct (chain_at_lookup _ _ Hchain i cur Hli) as (n & Hn & Hp & _).
    rewrite Hn. simpl. rewrite Hp. destruct i as [|j].
    + eexists. split; [reflexivity|]. split_and!; [|done|done].
      split; [done|]. exists l. simpl. by rewrite Hcur, Hli.
    + assert (is_Some (l !! j)) as [p Hlj].
      { apply lookup_lt_is_Some_2. apply lookup_lt_Some in Hli. lia. }
      rewrite Hlj. eexists. split; [reflexivity|]. split_and!; [|done|done].
      split; [done|]. exists l. simpl. split_and!; try done.
      intros _. apply lookup_lt_Some in Hlj. done.
  - eexists. split; [reflexivity|]. split_and!; [|done|].
    + split; [done|]. exists l. simpl. split_and!; try done.
      * rewrite Hcur. symmetry. destruct l; [done|].
        specialize (Hi ltac:(done)). apply lookup_ge_None in Hli. lia.
      * intros Hl. specialize (Hi Hl). lia.
    + intros _ Hne. destruct l.
      * apply Forall2_nil_inv_l in Hps. done.
      * specialize (Hi ltac:(done)). apply lookup_ge_None in Hli. lia.
Qed.

Lemma navigate_forward_shows w ps i :
  shows w ps i →
  ∃ w', navigate_forward w.1 w.2 = Some w'
        ∧ shows w' ps (if decide (S i < length ps)%nat then S i else i)
        ∧ w'.1 = w.1.
Proof.
  destruct w as [m state]. intros (Hlt & l & Hchain & Hps & Hcur & Hi).
  simpl in *. unfold navigate_forward. rewrite Hcur.
  pose proof (Forall2_length _ _ _ Hps) as Hlen. rewrite <- Hlen.
  destruct (l !! i) as [cur|] eqn:Hli.
  - destruct (chain_at_lookup _ _ Hchain i cur Hli) as (n & Hn & _ & Hnx).
    rewrite Hn. simpl. rewrite Hnx.
    destruct (l !! S i) as [nx|] eqn:Hls.
    + apply lookup_lt_Some in Hls as Hlt'. rewrite decide_True by done.
      eexists. split; [reflexivity|]. split; [|done].
      split; [done|]. exists l. simpl. done.
    + apply lookup_ge_None in Hls. rewrite decide_False by lia.
      eexists. split; [reflexivity|]. split; [|done].
      split; [done|]. exists l. simpl. by rewrite Hcur, Hli.
  - destruct l.
    + simpl. eexists. split; [reflexivity|]. split; [|done].
      split; [done|]. exists []. simpl. rewrite Hcur. split_and!; try done.
    + specialize (Hi ltac:(done)). apply lookup_ge_None in Hli. lia.
Qed.

Lemma alter_fixed {A} (f : A → A) (l : list A) (i : nat) (x : A) :
  l !! i = Some x → f x = x → alter f i l = l.
Proof.
  intros Hl Hf. apply list_eq. intros j.
  destruct (decide (i = j)) as [<-|Hij].
  - rewrite list_lookup_alter_eq, Hl. simpl. by rewrite Hf.
  - by rewrite list_lookup_alter_ne.
Qed.

(** Writing the body of the current node. *)
Lemma set_body_shows m state ps i cur n (c : option cstring) :
  shows (m, state) ps i → current_nav state = Some cur →
  heap m !! cur = Some n →
  shows (mk_Memory (<[cur := set_page_content n c]> (heap m)) (next_addr m),
         state)
    (alter (λ p, mk_Page (page_location p) c) i ps) i.
Proof.
  intros (Hlt & l & Hchain & Hps & Hcur & Hi) Hc Hn. simpl in *.
  rewrite Hc in Hcur. symmetry in Hcur.
  destruct Hchain as (Hnd & Hdom & Hseg).
  split; simpl.
  - intros a Ha. apply Hlt. apply lookup_insert_is_Some in Ha as [->|[_ Ha]];
      [eauto|done].
  - exists l. split_and!.
    + split_and!; [done| |].
      * intros a. rewrite lookup_insert_is_Some, <- Hdom.
        split; [intros [->|[_ ?]]; [eauto|done]|].
        intros Ha. destruct (decide (cur = a)); [by left|by right].
      * eapply dllseg_links; [|exact Hseg]. intros x nx Hx Hnx.
        destruct (decide (x = cur)) as [->|Hne].
        -- rewrite lookup_insert_eq. eexists. split; [done|].
           rewrite Hn in Hnx. by injection Hnx as <-.
        -- rewrite lookup_insert_ne by done. eauto.
    + apply Forall2_same_length_lookup_2.
      { rewrite length_alter. by eapply Forall2_length. }
      intros j a p Hla Hpa.
      destruct (decide (j = i)) as [->|Hji].
      * rewrite Hcur in Hla. injection Hla as <-.
        rewrite lookup_insert_eq. simpl.
        rewrite list_lookup_alter_eq in Hpa.
        destruct (ps !! i) as [p0|] eqn:Hp0; [|done].
        simpl in Hpa. injection Hpa as <-.
        pose proof (Forall2_lookup_lr _ _ _ _ _ _ Hps Hcur Hp0) as Hp.
        simpl in Hp. rewrite Hn in Hp. simpl in Hp. injection Hp as <-. done.
      * rewrite list_lookup_alter_ne in Hpa by done.
        rewrite lookup_insert_ne.
        -- by eapply (Forall2_lookup_lr _ _ _ _ _ _ Hps).
        -- intros <-. apply Hji. by eapply NoDup_lookup.
    + by rewrite Hc.
    + done.
Qed.

Lemma load_current_shows w ps i response :
  shows w ps i → ps ≠ [] →
  ∃ w', load_current w.1 w.2 response = Some w'
        ∧ shows w' (browse_step (ps, i) (Load response)).1 i
        ∧ w'.2 = w.2.
Proof.
  destruct w as [m state]. intros Hs Hne.
  pose proof Hs as (Hlt & l & Hchain & Hps & Hcur & Hi). simpl in *.
  destruct l as [|x0 l0]; [by apply Forall2_nil_inv_l in Hps|].
  specialize (Hi ltac:(done)).
  destruct (lookup_lt_is_Some_2 _ i Hi) as [cur Hli].
  rewrite Hli in Hcur.
  destruct (chain_at_lookup _ _ Hchain i cur Hli) as (n & Hn & _).
  destruct (Forall2_lookup_l _ _ _ _ _ Hps Hli) as (p & Hp & Hnp).
  rewrite Hn in Hnp. simpl in Hnp. injection Hnp as <-.
  unfold load_current, fetch_current_content. rewrite Hcur. simpl.
  rewrite Hn. simpl.
  destruct (NavigationState.page_content n) as [c|] eqn:Hc.
  - eexists. split; [reflexivity|]. split; [|done].
    rewrite (alter_fixed _ _ _ _ Hp); [done|]. simpl. by rewrite Hc.
  - eexists. split; [reflexivity|]. split; [|done].
    pose proof (set_body_shows m state ps i cur n (Some response) Hs Hcur Hn)
      as Hs'.
    replace (alter _ i ps) with
      (alter (λ p, mk_Page (page_location p) (Some response)) i ps); [done|].
    apply list_eq. intros j.
    destruct (decide (i = j)) as [<-|Hji].
    + rewrite !list_lookup_alter_eq, Hp. simpl. by rewrite Hc.
    + by rewrite !list_lookup_alter_ne.
Qed.

Lemma reload_current_shows w ps i :
  shows w ps i → ps ≠ [] →
  ∃ w', reload_current w.1 w.2 = Some w'
        ∧ shows w' (browse_step (ps, i) Reload).1 i
        ∧ w'.2 = w.2.
Proof.
  destruct w as [m state]. intros Hs Hne.
  pose proof Hs as (Hlt & l & Hchain & Hps & Hcur & Hi). simpl in *.
  destruct l as [|x0 l0]; [by apply Forall2_nil_inv_l in Hps|].
  specialize (Hi ltac:(done)).
  destruct (lookup_lt_is_Some_2 _ i Hi) as [cur Hli].
  rewrite Hli in Hcur.
  destruct (chain_at_lookup _ _ Hchain i cur Hli) as (n & Hn & _).
  destruct (Forall2_lookup_l _ _ _ _ _ Hps Hli) as (p & Hp & Hnp).
  rewrite Hn in Hnp. simpl in Hnp. injection Hnp as <-.
  unfold reload_current. rewrite Hcur. simpl. rewrite Hn. simpl.
  destruct (NavigationState.page_content n) as [c|] eqn:Hc.
  - eexists. split; [reflexivity|]. split; [|done].
    by apply set_body_shows.
  - eexists. split; [reflexivity|]. split; [|done].
    rewrite (alter_fixed _ _ _ _ Hp); [done|].
    unfold node_page. simpl. by rewrite Hc.
Qed.

(** What [shows] means for the two readers of the memory. *)
Lemma shows_view w ps i :
  shows w ps i → ps ≠ [] →
  history_pages w = Some ps ∧ history_position w = Some i
  ∧ (i < length ps)%nat.
Proof.
  destruct w as [m state]. intros (Hlt & l & Hchain & Hps & Hcur & Hi) Hne.
  simpl in *.
  destruct l as [|x0 l0]; [by apply Forall2_nil_inv_l in Hps|].
  specialize (Hi ltac:(done)).
  destruct (lookup_lt_is_Some_2 _ i Hi) as [cur Hli].
  rewrite Hli in Hcur.
  remember (x0 :: l0) as l eqn:Hl. clear Hl.
  assert (Hin : cur ∈ l) by (by eapply list_elem_of_lookup_2).
  pose proof (history_chain_spec m state cur _ Hcur Hchain Hin) as Hhc.
  unfold history_pages, history_position. simpl. rewrite Hhc. simpl.
  split_and!.
  - by apply mapM_Some.
  - rewrite Hcur. simpl.
    assert (list_find (λ a, a = cur) l = Some (i, cur)) as ->; [|done].
    apply list_find_Some. split_and!; [done|done|].
    intros j y Hj Hlt' ->. destruct Hchain as (Hnd & _).
    pose proof (NoDup_lookup _ _ _ _ Hnd Hj Hli). lia.
  - by rewrite <- (Forall2_length _ _ _ Hps).
Qed.

Lemma shows_initial ws : shows (initial_memory, initial_state ws) [] 0.
Proof.
  split; simpl.
  - intros a [n Hn]. by rewrite lookup_empty in Hn.
  - exists []. split_and!; try done. split_and!.
    + apply NoDup_nil_2.
    + intros a. rewrite lookup_empty. split; [intros [? ?]; done|].
      intros Ha. by apply elem_of_nil in Ha.
    + done.
Qed.

Lemma browse_step_nonempty b op :
  b.1 ≠ [] ∨ (∃ host port selector, op = Visit host port selector) →
  (browse_step b op).1 ≠ [].
Proof.
  destruct b as [ps i]. simpl. intros [Hne|(host & port & selector & ->)].
  - destruct op; simpl; try done.
    + destruct ps; [done|]. simpl. done.
    + intros H. apply (f_equal length) in H. rewrite length_alter in H.
      by destruct ps.
    + intros H. apply (f_equal length) in H. rewrite length_alter in H.
      by destruct ps.
  - destruct ps; [done|]. simpl. done.
Qed.

Lemma session_step_shows w ps i op :
  shows w ps i →
  ps ≠ [] ∨ (∃ host port selector, op = Visit host port selector) →
  ∃ w', session_step w op = Some w'
        ∧ shows w' (browse_step (ps, i) op).1 (browse_step (ps, i) op).2.
Proof.
  intros Hs Hok. destruct op as [host port selector| | |response|]; simpl.
  - by apply navigate_to_shows.
  - destruct (navigate_back_shows w ps i Hs) as (w' & ? & ? & _). eauto.
  - destruct (navigate_forward_shows w ps i Hs) as (w' & ? & ? & _). eauto.
  - destruct Hok as [Hne|(? & ? & ? & ?)]; [|done].
    destruct (load_current_shows w ps i response Hs Hne) as (w' & ? & ? & _).
    eauto.
  - destruct Hok as [Hne|(? & ? & ? & ?)]; [|done].
    destruct (reload_current_shows w ps i Hs Hne) as (w' & ? & ? & _). eauto.
Qed.

Lemma session_run_shows ops : ∀ w ps i,
  shows w ps i → ps ≠ [] ∨ session_ready ops ∨ ops = [] →
  ∃ w', session_run ops w = Some w'
        ∧ shows w' (foldl browse_step (ps, i) ops).1
            (foldl browse_step (ps, i) ops).2.
Proof.
  induction ops as [|op ops IH]; intros w ps i Hs Hok.
  - simpl. eauto.
  - assert (Hok' : ps ≠ [] ∨ ∃ host port selector, op = Visit host port selector).
    { destruct Hok as [?|[(h & p & s & r & [= -> ->])|?]]; [by left| |done].
      right. eauto. }
    destruct (session_step_shows w ps i op Hs Hok') as (w1 & Hstep & Hs1).
    change (session_run (op :: ops) w)
      with (session_step w op ≫= session_run ops).
    rewrite Hstep.
    change (foldl browse_step (ps, i) (op :: ops))
      with (foldl browse_step (browse_step (ps, i) op) ops).
    destruct (browse_step (ps, i) op) as [ps1 i1] eqn:Hb.
    apply (IH w1 ps1 i1 Hs1). left.
    change ps1 with (ps1, i1).1. rewrite <- Hb. by apply browse_step_nonempty.
Qed.

Lemma find_head_chain h l cur :
  chain_at h l → cur ∈ l → find_head (size h) h cur = head l.
Proof.
  intros Hc Hin.
  pose proof (chain_at_size _ _ Hc) as Hsize.
  destruct Hc as (Hnd & Hdom & Hseg).
  apply list_elem_of_split in Hin as (l1 & l2 & ->).
  destruct l1 as [|x l1].
  - destruct Hseg as (n & Hn & Hp & _).
    destruct (size h); simpl; rewrite Hn; simpl; by rewrite Hp.
  - simpl. apply (find_head_spec l1 h x cur (head l2)).
    + replace ((x :: l1) ++ cur :: l2) with ((x :: l1 ++ [cur]) ++ l2) in Hseg
        by (simpl; by rewrite <- app_assoc).
      apply dllseg_app in Hseg as [Hseg _].
      by rewrite from_option_head in Hseg.
    + rewrite Hsize, length_app. simpl. lia.
Qed.

Lemma free_navigation_history_shows w ps i :
  shows w ps i →
  ∃ m, free_navigation_history w.1 (current_nav w.2) = Some m ∧ heap m = ∅.
Proof.
  destruct w as [m state]. intros (Hlt & l & Hchain & Hps & Hcur & Hi).
  simpl in *. unfold free_navigation_history. rewrite Hcur.
  destruct (l !! i) as [cur|] eqn:Hli.
  - assert (Hin : cur ∈ l) by (by eapply list_elem_of_lookup_2).
    rewrite (find_head_chain _ l) by done.
    pose proof (chain_at_size _ _ Hchain) as Hsize.
    destruct Hchain as (Hnd & Hdom & Hseg).
    destruct l as [|x l]; [by apply elem_of_nil in Hin|]. simpl head. simpl mbind.
    change (Some x) with (head (x :: l)).
    rewrite (free_forward_loop_spec (x :: l) _ None) by (done || lia).
    eexists. split; [reflexivity|]. simpl.
    apply map_empty. intros a.
    destruct (decide (a ∈ x :: l)) as [Ha|Ha].
    + change (delete x (foldr delete (heap m) l)) with
        (foldr delete (heap m) (x :: l)). by apply lookup_foldr_delete.
    + change (delete x (foldr delete (heap m) l)) with
        (foldr delete (heap m) (x :: l)).
      rewrite lookup_foldr_delete_not_elem_of by done.
      apply eq_None_not_Some. by rewrite Hdom.
  - eexists. split; [reflexivity|].
    destruct l as [|x l].
    + destruct Hchain as (_ & Hdom & _). apply map_empty. intros a.
      apply eq_None_not_Some. rewrite Hdom. apply not_elem_of_nil.
    + specialize (Hi ltac:(done)). apply lookup_ge_None in Hli. lia.
Qed.

Lemma browse_nonempty ops : ∀ b, b.1 ≠ [] → (foldl browse_step b ops).1 ≠ [].
Proof.
  induction ops as [|op ops IH]; intros b Hb; [done|].
  apply (IH (browse_step b op)). apply browse_step_nonempty. by left.
Qed.

(** X1. The history is a browser history.  Every session that starts with
    a visit and goes on with visits, Back, Forward, the fetch of the main
    loop and reloads returns, and the pages read from the memory by the
    traversal of the chain, with the place of the current node, are those
    of the list-with-cursor model [browse]: a visit cuts the pages after
    the current one and adds the new page (host cut to 255 bytes, selector
    to 1023, no body), Back and Forward move the cursor and stay at the
    ends, a fetch fills the body of the current page only when it has
    none, a reload empties it. *)
Theorem session_is_browser_history (ws : winsize) (host : cstring) (port : Z)
    (selector : cstring) (ops : list session_op) :
  let session := Visit host port selector :: ops in
  ∃ w, session_run session (initial_memory, initial_state ws) = Some w
       ∧ history_pages w = Some (browse session).1
       ∧ history_position w = Some (browse session).2
       ∧ ((browse session).2 < length (browse session).1)%nat.
Proof.
  intros session.
  destruct (session_run_shows session _ [] 0%nat (shows_initial ws))
    as (w & Hrun & Hs).
  { right. left. unfold session, session_ready. eauto 10. }
  exists w. split; [done|]. apply shows_view; [done|].
  apply (browse_nonempty ops (browse_step ([], 0%nat) (Visit host port selector))).
  apply browse_step_nonempty. right. eauto.
Qed.

(** X2. After every session that starts with a visit,
    [free_navigation_history] called on the current node, wherever it is in
    the chain, returns and leaves no node allocated. *)
Theorem free_navigation_history_frees_every_node (ws : winsize)
    (host : cstring) (port : Z) (selector : cstring) (ops : list session_op) :
  ∃ w m, session_run (Visit host port selector :: ops)
           (initial_memory, initial_state ws) = Some w
         ∧ free_navigation_history w.1 (current_nav w.2) = Some m
         ∧ heap m = ∅.
Proof.
  destruct (session_run_shows (Visit host port selector :: ops) _ [] 0%nat
              (shows_initial ws)) as (w & Hrun & Hs).
  { right. left. unfold session_ready. eauto 10. }
  exists w.
  destruct (free_navigation_history_shows _ _ _ Hs) as (m & Hm & Hempty).
  eauto.
Qed.

Lemma back_forward_shows w ps i :
  shows w ps i →
  ∃ w1 w2,
    navigate_back w.1 w.2 = Some w1
    ∧ navigate_forward w1.1 w1.2 = Some w2
    ∧ w1.1 = w.1 ∧ w2.1 = w.1
    ∧ (current_nav w1.2 ≠ current_nav w.2 →
       current_nav w2.2 = current_nav w.2
       ∧ w2.2 = set_current_reset w.2 (current_nav w.2)).
Proof.
  intros Hs.
  destruct (navigate_back_shows w ps i Hs) as (w1 & Hback & Hs1 & Hm1 & _).
  destruct (navigate_forward_shows w1 ps (pred i) Hs1)
    as (w2 & Hfwd & Hs2 & Hm2).
  exists w1, w2. split_and!; [done..|congruence|].
  intros Hmoved. clear Hs1 Hs2.
  destruct w as [m state]. destruct Hs as (_ & l & Hchain & _ & Hcur & _).
  simpl in *. unfold navigate_back in Hback.
  destruct (current_nav state) as [cur|] eqn:Hc;
    [|injection Hback as <-; simpl in Hmoved; by rewrite Hc in Hmoved].
  symmetry in Hcur.
  destruct (chain_at_lookup _ _ Hchain i cur Hcur) as (n & Hn & Hp & _).
  rewrite Hn in Hback. simpl in Hback. rewrite Hp in Hback.
  destruct i as [|j];
    [injection Hback as <-; simpl in Hmoved; by rewrite Hc in Hmoved|].
  destruct (l !! j) as [p|] eqn:Hlj;
    [|injection Hback as <-; simpl in Hmoved; by rewrite Hc in Hmoved].
  injection Hback as <-. simpl in *.
  destruct (chain_at_lookup _ _ Hchain j p Hlj) as (np & Hnp & _ & Hnx).
  unfold navigate_forward in Hfwd. simpl in Hfwd.
  rewrite Hnp in Hfwd. simpl in Hfwd. rewrite Hnx, Hcur in Hfwd.
  injection Hfwd as <-. done.
Qed.

(** X3. After every session that starts with a visit, Back followed by
    Forward leaves the memory as it is, and when Back moved the current
    pointer, Forward brings it back to the node it left (with the view
    reset). *)
Theorem back_then_forward_returns (ws : winsize) (host : cstring) (port : Z)
    (selector : cstring) (ops : list session_op) :
  let session := Visit host port selector :: ops in
  ∃ w w1 w2,
    session_run session (initial_memory, initial_state ws) = Some w
    ∧ navigate_back w.1 w.2 = Some w1
    ∧ navigate_forward w1.1 w1.2 = Some w2
    ∧ w1.1 = w.1 ∧ w2.1 = w.1
    ∧ (current_nav w1.2 ≠ current_nav w.2 →
       current_nav w2.2 = current_nav w.2
       ∧ w2.2 = set_current_reset w.2 (current_nav w.2)).
Proof.
  intros session.
  destruct (session_run_shows session _ [] 0%nat (shows_initial ws))
    as (w & Hrun & Hs).
  { right. left. unfold session, session_ready. eauto 10. }
  destruct (back_forward_shows _ _ _ Hs) as (w1 & w2 & H).
  exists w, w1, w2. split; [done|]. exact H.
Qed.

(** ** Text on the screen *)

Lemma strchr_split (s : cstring) (c : ascii) (n : nat) :
  strchr s c = Some n → c ≠ NUL →
  s = take n s ++ c :: drop (S n) s ∧ c ∉ take n s.
Proof.
  revert n. induction s as [|x r IH]; intros n; simpl.
  - destruct (Ascii.eqb_spec c NUL); [done|done].
  - destruct (Ascii.eqb_spec x c) as [->|Hx].
    + intros [= <-] _. simpl. split; [done|]. apply not_elem_of_nil.
    + destruct (strchr r c) as [i|] eqn:Hr; [|done].
      simpl. intros [= <-] Hc. destruct (IH i eq_refl Hc) as [Heq Hnot].
      simpl. split; [by rewrite <- Heq|].
      apply not_elem_of_cons. done.
Qed.

Lemma text_lines_from_line (cur a r : cstring) :
  LF ∉ a → text_lines_from cur (a ++ LF :: r) = (cur ++ a) :: text_lines_from [] r.
Proof.
  revert cur. induction a as [|x a IH]; intros cur Ha; simpl.
  - by rewrite app_nil_r.
  - apply not_elem_of_cons in Ha as [Hx Ha].
    rewrite (proj2 (Ascii.eqb_neq x LF)) by done.
    rewrite IH by done. by rewrite <- app_assoc.
Qed.

Lemma text_lines_from_last (cur a : cstring) :
  LF ∉ a → cur ++ a ≠ [] → text_lines_from cur a = [cur ++ a].
Proof.
  revert cur. induction a as [|x a IH]; intros cur Ha Hne; simpl.
  - rewrite app_nil_r in *. by destruct cur.
  - apply not_elem_of_cons in Ha as [Hx Ha].
    rewrite (proj2 (Ascii.eqb_neq x LF)) by done.
    rewrite IH; [by rewrite <- app_assoc|done|].
    rewrite <- app_assoc. simpl. done.
Qed.

(** The lines of a text that is not empty, by its first newline. *)
Lemma text_lines_strchr (x : ascii) (r : cstring) :
  text_lines (x :: r) =
  match strchr (x :: r) LF with
  | Some n => take n (x :: r) :: text_lines (drop (S n) (x :: r))
  | None => [x :: r]
  end.
Proof.
  destruct (strchr (x :: r) LF) as [n|] eqn:Hn.
  - destruct (strchr_split _ _ _ Hn ltac:(done)) as [Heq Hnot].
    unfold text_lines. rewrite Heq at 1. by rewrite text_lines_from_line.
  - apply strchr_None_not_elem in Hn; [|done].
    unfold text_lines. by rewrite text_lines_from_last.
Qed.

Lemma skip_lines_text_lines (n : nat) : ∀ ptr,
  text_lines (skip_lines n ptr) = drop n (text_lines ptr).
Proof.
  induction n as [|n IH]; intros ptr; simpl; [done|].
  destruct ptr as [|x r]; [done|].
  rewrite (text_lines_strchr x r).
  destruct (strchr (x :: r) LF) as [i|]; simpl.
  - apply IH.
  - by rewrite drop_nil.
Qed.

Lemma text_lines_nil (ptr : cstring) : text_lines ptr = [] ↔ ptr = [].
Proof.
  split; [|by intros ->].
  destruct ptr as [|x r]; [done|]. rewrite text_lines_strchr.
  by destruct (strchr (x :: r) LF).
Qed.

Lemma draw_text_rows_lines (rows_left : nat) : ∀ ptr drawn_lines start_col,
  draw_text_rows rows_left ptr drawn_lines start_col =
  concat (imap (λ i line,
                  print_string_at (take 78 line)
                    (4 + (drawn_lines + Z.of_nat i)) start_col)
            (take rows_left (text_lines ptr))).
Proof.
  induction rows_left as [|k IH]; intros ptr d col; [done|].
  destruct ptr as [|x r]; [done|].
  rewrite (text_lines_strchr x r). cbn [draw_text_rows].
  unfold strncpy0, MAX_CONTENT_DISPLAY_WIDTH.
  destruct (strchr (x :: r) LF) as [n|] eqn:Hn.
  - rewrite firstn_cons. cbn [imap concat]. rewrite IH.
    replace (d + Z.of_nat 0) with d by lia.
    assert (take (if (78 <? n)%nat then 78%nat else n) (x :: r)
            = take 78 (take n (x :: r))) as ->.
    { rewrite take_take. f_equal. destruct (Nat.ltb_spec 78 n); lia. }
    f_equal. f_equal. apply imap_ext. intros i line _. simpl.
    do 2 f_equal. lia.
  - rewrite firstn_cons, take_nil. cbn [imap concat].
    rewrite !app_nil_r. replace (d + Z.of_nat 0) with d by lia.
    f_equal.
    destruct (Nat.ltb_spec 78 (length (x :: r))) as [Hlt|Hge]; [done|].
    rewrite !take_ge; [done|lia|lia].
Qed.

(** X4. [draw_text_viewer] writes, after the cleared screen, the header
    and the text colour, the lines of the content from line
    [text_scroll_line] on (from the first line when that is negative), at
    most [ws_row - 4] of them, each cut to 78 bytes, on the rows 4, 5, ...
    at the content column, and then the colour reset. *)
Theorem draw_text_viewer_shows_window (state : AppState)
    (nav : NavigationState.t) (content : cstring) :
  let rows := Z.to_nat (viewable_rows_of state 0) in
  let scroll := Z.to_nat (text_scroll_line state) in
  draw_text_viewer state nav content =
  header ← draw_header state nav;
  Some (clear_terminal ++ header ++ TEXT_COLOR
        ++ concat (imap (λ i line,
                           print_string_at (take 78 line) (4 + Z.of_nat i)
                             (content_column state))
                     (take rows (drop scroll (text_lines content))))
        ++ COLOR_RESET).
Proof.
  intros rows scroll. unfold draw_text_viewer.
  destruct (draw_header state nav) as [header|]; [|done].
  unfold mbind, option_bind.
  rewrite draw_text_rows_lines, skip_lines_text_lines.
  assert (Hrows : Z.to_nat (if 4 <? ws_row (terminal_size state)
                            then ws_row (terminal_size state) - 4 else 0) = rows).
  { unfold rows, viewable_rows_of.
    destruct (Z.ltb_spec 4 (ws_row (terminal_size state))); lia. }
  rewrite Hrows. fold scroll.
  assert (Hcol : (if (ws_col (terminal_size state)
                      - Z.of_nat MAX_CONTENT_DISPLAY_WIDTH) ÷ 2 + 1 <? 1
                  then 1
                  else (ws_col (terminal_size state)
                        - Z.of_nat MAX_CONTENT_DISPLAY_WIDTH) ÷ 2 + 1)
                 = content_column state).
  { unfold content_column, MAX_CONTENT_DISPLAY_WIDTH.
    change (Z.of_nat 78) with 78.
    destruct (Z.ltb_spec ((ws_col (terminal_size state) - 78) ÷ 2 + 1) 1); lia. }
  rewrite Hcol.
  rewrite (imap_ext _ (λ i line,
             print_string_at (take 78 line) (4 + Z.of_nat i)
               (content_column state))); [done|].
  intros i line _. simpl. done.
Qed.

Lemma text_lines_from_length (s : cstring) : ∀ cur,
  Z.of_nat (length (text_lines_from cur s)) =
  count_char LF s +
  match last s with
  | Some c => if decide (c = LF) then 0 else 1
  | None => match cur with [] => 0 | _ :: _ => 1 end
  end.
Proof.
  unfold count_char.
  induction s as [|c r IH]; intros cur.
  - simpl. by destruct cur.
  - cbn [text_lines_from]. destruct (Ascii.eqb_spec c LF) as [->|Hc].
    + rewrite filter_cons_True by done. cbn [length]. rewrite Nat2Z.inj_succ, IH.
      destruct r as [|c' r']; [simpl; lia|].
      rewrite last_cons_cons.
      destruct (last (c' :: r')) eqn:Hl; [lia|by apply last_None in Hl].
    + rewrite filter_cons_False by done. rewrite IH.
      destruct r as [|c' r'].
      * cbn [text_lines_from last filter list_filter length].
        rewrite decide_False by done. by destruct cur.
      * rewrite last_cons_cons.
        destruct (last (c' :: r')) eqn:Hl; [lia|by apply last_None in Hl].
Qed.

Lemma calculate_text_lines_text_lines (state : AppState) (content : cstring) :
  total_content_lines (calculate_text_lines state content)
  = Z.of_nat (length (text_lines content)).
Proof.
  rewrite calculate_text_lines_total. unfold text_lines.
  rewrite text_lines_from_length. done.
Qed.

(** X5. The number [calculate_text_lines] stores is the number of lines
    [draw_text_viewer] sees in the content: skipping [n] lines leaves
    nothing to draw exactly when [n] is at least that number. *)
Theorem calculate_text_lines_counts_drawn_lines (state : AppState)
    (content : cstring) :
  let total := total_content_lines (calculate_text_lines state content) in
  total = Z.of_nat (length (text_lines content))
  ∧ ∀ n, skip_lines n content = [] ↔ total ≤ Z.of_nat n.
Proof.
  pose proof (calculate_text_lines_text_lines state content) as Htotal.
  split; [done|]. intros n. rewrite Htotal.
  rewrite <- text_lines_nil, skip_lines_text_lines.
  split.
  - intros Hd. apply (f_equal length) in Hd. rewrite length_drop in Hd.
    simpl in Hd. lia.
  - intros Hle. apply drop_ge. lia.
Qed.

Lemma text_scroll_key_range (state : AppState) (rows limit : Z) (key : ascii) :
  1 ≤ rows → 0 ≤ text_scroll_line state ≤ limit →
  0 ≤ text_scroll_line (text_scroll_key state rows key) ≤ limit + rows
  ∧ terminal_size (text_scroll_key state rows key) = terminal_size state
  ∧ is_running (text_scroll_key state rows key) = is_running state.
Proof.
  intros Hrows Hs. unfold text_scroll_key.
  destruct (Ascii.eqb key KEY_UP && (0 <? text_scroll_line state)) eqn:Hup.
  { apply andb_true_iff in Hup as [_ Hpos]. apply Z.ltb_lt in Hpos.
    simpl. split_and!; [lia|lia|done|done]. }
  destruct (Ascii.eqb key KEY_DOWN); [simpl; split_and!; [lia|lia|done|done]|].
  destruct (Ascii.eqb key KEY_PGUP).
  { simpl. destruct (Z.ltb_spec (text_scroll_line state - rows) 0);
      split_and!; try done; lia. }
  destruct (Ascii.eqb key KEY_PGDN); [simpl; split_and!; [lia|lia|done|done]|].
  split_and!; [lia|lia|done|done].
Qed.

Lemma text_viewer_loop_bounds (content : cstring) (rows limit : Z)
    (events : list input_event) : ∀ state renders,
  existsb is_resize events = false →
  rows = viewable_rows_of state 1 →
  limit = Z.max (Z.of_nat (length (text_lines content)) - rows) 0 →
  Forall (λ r, 0 ≤ r ≤ limit + rows) renders →
  0 ≤ text_scroll_line state ≤ limit + rows →
  Forall (λ r, 0 ≤ r ≤ limit + rows)
    (text_viewer_loop state content events renders).1.2
  ∧ 0 ≤ text_scroll_line (text_viewer_loop state content events renders).1.1
      ≤ limit + rows.
Proof.
  induction events as [|ev rest IH]; intros state renders Hnr Hrows Hlimit Hr Hs.
  - simpl. done.
  - cbn [text_viewer_loop].
    destruct (is_running state); [|simpl; done]. cbn [negb].
    set (vrows := if 4 <? ws_row (terminal_size state) then _ else 1).
    assert (Hv : vrows = rows).
    { rewrite Hrows. unfold vrows, viewable_rows_of.
      destruct (Z.ltb_spec 4 (ws_row (terminal_size state))); lia. }
    assert (1 ≤ rows) by (rewrite Hrows; unfold viewable_rows_of; lia).
    set (st := clamp_text_scroll (calculate_text_lines state content) vrows).
    assert (Hc : 0 ≤ text_scroll_line st ≤ limit).
    { unfold st. rewrite clamp_text_scroll_range.
      rewrite (calculate_text_lines_text_lines state content), Hv, <- Hlimit.
      unfold clamp. lia. }
    assert (Hts : terminal_size st = terminal_size state).
    { unfold st, clamp_text_scroll, calculate_text_lines.
      repeat case_match; done. }
    assert (Hvr : viewable_rows_of st 1 = rows).
    { rewrite Hrows. unfold viewable_rows_of. by rewrite Hts. }
    simpl in Hnr. apply orb_false_iff in Hnr as [Hev Hnr].
    destruct ev as [ws| |key|c]; [done| | |].
    + apply IH; try done. lia.
    + destruct (text_scroll_key_range st rows limit key ltac:(done) Hc)
        as (Hk & Hkts & _).
      rewrite Hv. apply IH; try done.
      * unfold viewable_rows_of. rewrite Hkts. by rewrite <- Hvr.
      * apply Forall_app. split; [done|]. by apply Forall_singleton.
    + destruct (Ascii.eqb c "a").
      * apply IH; try done; [|lia].
        apply Forall_app. split; [done|]. apply Forall_singleton. lia.
      * simpl. split; [done|lia].
Qed.

(** X6. In the text viewer, entered with the scroll line between 0 and
    the clamp limit max(lines - rows, 0), and as long as the terminal is
    not resized, every render, and the scroll line left at the end, is at a
    line between 0 and the limit plus one page. *)
Theorem text_viewer_overscroll_is_bounded (state : AppState) (content : cstring)
    (events : list input_event) :
  let rows := viewable_rows_of state 1 in
  let limit := Z.max (Z.of_nat (length (text_lines content)) - rows) 0 in
  existsb is_resize events = false →
  0 ≤ text_scroll_line state ≤ limit →
  Forall (λ r, 0 ≤ r ≤ limit + rows)
    (handle_text_viewer_interaction state content events).1.2
  ∧ 0 ≤ text_scroll_line
          (handle_text_viewer_interaction state content events).1.1
      ≤ limit + rows.
Proof.
  intros rows limit Hnr Hs. unfold handle_text_viewer_interaction.
  assert (1 ≤ rows) by (unfold rows, viewable_rows_of; lia).
  apply text_viewer_loop_bounds; try done.
  - apply Forall_singleton. lia.
  - lia.
Qed.

Lemma text_viewer_overscroll_is_bounded_witness :
  existsb is_resize [EvEscape KEY_PGDN; EvIdle; EvEscape KEY_DOWN] = false
  ∧ 0 ≤ text_scroll_line viewer_at_0
      ≤ Z.max (Z.of_nat (length (text_lines ten_lines))
               - viewable_rows_of viewer_at_0 1) 0
  ∧ Forall (λ r, 0 ≤ r ≤ Z.max (Z.of_nat (length (text_lines ten_lines))
                                - viewable_rows_of viewer_at_0 1) 0
                         + viewable_rows_of viewer_at_0 1)
      (handle_text_viewer_interaction viewer_at_0 ten_lines
         [EvEscape KEY_PGDN; EvIdle; EvEscape KEY_DOWN]).1.2.
Proof.
  assert (H1 : existsb is_resize [EvEscape KEY_PGDN; EvIdle; EvEscape KEY_DOWN]
               = false) by reflexivity.
  assert (H2 : 0 ≤ text_scroll_line viewer_at_0
      ≤ Z.max (Z.of_nat (length (text_lines ten_lines))
               - viewable_rows_of viewer_at_0 1) 0) by (vm_compute; split; discriminate).
  split; [exact H1|]. split; [exact H2|].
  exact (proj1 (text_viewer_overscroll_is_bounded viewer_at_0 ten_lines
                  [EvEscape KEY_PGDN; EvIdle; EvEscape KEY_DOWN] H1 H2)).
Defined.

(** ** The URL of the header *)

Lemma pretty_N_go_length (k : nat) : ∀ x s,
  (x < 10 ^ N.of_nat k)%N →
  (length (cs (pretty_N_go x s)) ≤ k + length (cs s))%nat.
Proof.
  induction k as [|k IH]; intros x s Hx.
  - assert (x = 0%N) as -> by (simpl in Hx; lia).
    rewrite pretty_N_go_0. simpl. lia.
  - destruct (decide (x = 0)%N) as [->|Hx0].
    + rewrite pretty_N_go_0. lia.
    + rewrite pretty_N_go_step by lia.
      etrans; [apply IH|simpl; lia].
      rewrite Nat2N.inj_succ, N.pow_succ_r' in Hx.
      apply N.Div0.div_lt_upper_bound. lia.
Qed.

Lemma sprintf_d_length (z : Z) :
  -9999 ≤ z ≤ 99999 → (length (sprintf_d z) ≤ 5)%nat.
Proof.
  intros Hz. unfold sprintf_d, pretty, pretty_N.
  destruct (Z.ltb_spec z 0).
  - rewrite decide_False by lia. simpl.
    pose proof (pretty_N_go_length 4 (Z.to_N (- z)) EmptyString) as Hl.
    simpl in Hl. specialize (Hl ltac:(lia)). lia.
  - destruct (decide (Z.to_N z = 0%N)); [simpl; lia|].
    pose proof (pretty_N_go_length 5 (Z.to_N z) EmptyString) as Hl.
    simpl in Hl. specialize (Hl ltac:(lia)). lia.
Qed.

(** X7. For a port between -9999 and 99999 (five characters at most, as
    the size computed allows for) [get_current_url] never writes past a
    buffer of [size] > 0 bytes: it returns a string shorter than
    [size]. *)
Theorem get_current_url_fits_buffer (nav : NavigationState.t) (size : nat) :
  (0 < size)%nat → -9999 ≤ NavigationState.port nav ≤ 99999 →
  ∃ url, get_current_url nav size = Some url ∧ (length url < size)%nat.
Proof.
  intros Hsize Hport. unfold get_current_url, sprintf_into.
  pose proof (sprintf_d_length _ Hport) as Hd.
  destruct (_ || _).
  - destruct (Nat.ltb_spec (length (cs "gopher://")
                            + length (NavigationState.host nav) + 1 + 5 + 1) size)
      as [Hfit|Hfit].
    + assert (Hlen : (length (cs "gopher://" ++ NavigationState.host nav
                               ++ cs ":" ++ sprintf_d (NavigationState.port nav)
                               ++ cs "/") < size)%nat).
      { rewrite !length_app. simpl in *. lia. }
      apply Nat.ltb_lt in Hlen as Hlen'. rewrite Hlen'. eauto.
    + apply Nat.ltb_lt in Hsize as Hs. simpl length at 1. rewrite Hs.
      exists []. split; [done|simpl; lia].
  - destruct (Nat.ltb_spec (length (cs "gopher://")
                            + length (NavigationState.host nav) + 1 + 5 + 1
                            + length (NavigationState.selector nav) + 1) size)
      as [Hfit|Hfit].
    + assert (Hlen : (length (cs "gopher://" ++ NavigationState.host nav
                               ++ cs ":" ++ sprintf_d (NavigationState.port nav)
                               ++ cs "/" ++ NavigationState.selector nav)
                      < size)%nat).
      { rewrite !length_app. simpl in *. lia. }
      apply Nat.ltb_lt in Hlen as Hlen'. rewrite Hlen'. eauto.
    + apply Nat.ltb_lt in Hsize as Hs. simpl length at 1. rewrite Hs.
      exists []. split; [done|simpl; lia].
Qed.

Lemma get_current_url_fits_buffer_witness :
  (0 < MAX_URL_INPUT_LENGTH)%nat
  ∧ -9999 ≤ NavigationState.port search_node ≤ 99999
  ∧ ∃ url, get_current_url search_node MAX_URL_INPUT_LENGTH = Some url
           ∧ (length url < MAX_URL_INPUT_LENGTH)%nat.
Proof.
  assert (H1 : (0 < MAX_URL_INPUT_LENGTH)%nat) by (vm_compute; lia).
  assert (H2 : -9999 ≤ NavigationState.port search_node ≤ 99999)
    by (vm_compute; split; discriminate).
  split; [exact H1|]. split; [exact H2|].
  exact (get_current_url_fits_buffer search_node MAX_URL_INPUT_LENGTH H1 H2).
Defined.

Lemma sprintf_d_decimal (p : Z) : 0 ≤ p → sprintf_d p = decimal p.
Proof.
  intros Hp. unfold sprintf_d, decimal.
  destruct (Z.ltb_spec p 0); [lia|done].
Qed.

(** What the parser makes of the two forms [get_current_url] writes. *)
Lemma parse_gopher_address_url (h : cstring) (p : Z) (s : cstring) :
  valid_host h → 1 ≤ p ≤ 65535 → NUL ∉ s → (length s ≤ 1023)%nat →
  (length h + length s < 1273)%nat →
  parse_gopher_address
    (cs "gopher://" ++ h ++ cs ":" ++ sprintf_d p ++ cs "/" ++ s)
  = Some (h, p, s).
Proof.
  intros Hh Hp Hs Hls Hlen.
  pose proof (valid_host_chars h Hh) as (Hn & _ & _ & _ & Hsl & Hco).
  pose proof (sprintf_d_length p ltac:(lia)) as Hdl.
  rewrite sprintf_d_decimal in * by lia.
  assert (Hdig : ∀ c, c ∈ decimal p → isdigit c = true)
    by (intros c; apply decimal_chars; lia).
  change (cs "gopher://" ++ h ++ cs ":" ++ decimal p ++ cs "/" ++ s)
    with (address_of true h (Some (decimal p)) (Some s)).
  rewrite parse_gopher_address_cut.
  - simpl default. apply address_verdict_accept; try done.
    + destruct (decimal_digits p ltac:(lia)) as (d & ds & -> & _). done.
    + rewrite <- (app_nil_r (decimal p)). apply atoi_decimal; [|done].
      unfold INT_MAX. lia.
  - done.
  - unfold address_of, opt_field. rewrite !length_app. simpl.
    rewrite ?length_app. simpl. lia.
  - unfold address_of, opt_field. intros Hin.
    assert (Hg : NUL ∉ cs "gopher://")
      by (apply (bool_decide_unpack _); by vm_compute).
    apply elem_of_app in Hin as [Hin|Hin]; [done|].
    apply elem_of_app in Hin as [Hin|Hin]; [done|].
    apply elem_of_app in Hin as [Hin|Hin].
    + apply elem_of_cons in Hin as [Hin|Hin]; [done|].
      apply Hdig in Hin. by vm_compute in Hin.
    + apply elem_of_cons in Hin as [Hin|Hin]; [done|]. done.
  - done.
  - intros q [= <-]. split; intros Hin; apply Hdig in Hin;
      by vm_compute in Hin.
  - done.
  - done.
Qed.

(** X8. The URL of the header parses back: for a node with a valid
    host, a port in 1..65535 and a selector free of NUL within the node's
    bounds, such that the URL fits the buffer (host and selector of less
    than 1273 bytes together), [parse_gopher_address] on what
    [get_current_url] writes gives the node's host and port, and its
    selector, except that the selector "1" comes back empty. *)
Theorem get_current_url_parses_back (nav : NavigationState.t) :
  let h := NavigationState.host nav in
  let p := NavigationState.port nav in
  let s := NavigationState.selector nav in
  valid_host h → 1 ≤ p ≤ 65535 → NUL ∉ s → (length s ≤ 1023)%nat →
  (length h + length s < 1273)%nat →
  ∃ url, get_current_url nav MAX_URL_INPUT_LENGTH = Some url
         ∧ parse_gopher_address url =
             Some (h, p, if bool_decide (s = cs "1") then [] else s).
Proof.
  intros h p s Hh Hp Hs Hls Hlen.
  unfold get_current_url, sprintf_into. fold h p s.
  pose proof (sprintf_d_length p ltac:(lia)) as Hdl.
  assert (Hroot : Ascii.eqb (char_at s 0) NUL
                  || Ascii.eqb (char_at s 0) "1" && Ascii.eqb (char_at s 1) NUL
                  = bool_decide (s = [] ∨ s = cs "1")).
  { clearbody s. unfold char_at.
    destruct (bool_decide_reflect (s = [] ∨ s = cs "1")) as [[->| ->]|Hr];
      [done|done|].
    destruct s as [|c [|c' r]]; cbn [nth].
    - exfalso. apply Hr. by left.
    - apply not_elem_of_cons in Hs as [Hc _].
      rewrite (proj2 (Ascii.eqb_neq c NUL)) by done.
      destruct (Ascii.eqb_spec c "1") as [->|Hc1]; [|done].
      exfalso. apply Hr. by right.
    - apply not_elem_of_cons in Hs as [Hc Hs].
      apply not_elem_of_cons in Hs as [Hc' _].
      rewrite (proj2 (Ascii.eqb_neq c NUL)), (proj2 (Ascii.eqb_neq c' NUL))
        by done. by rewrite andb_false_r. }
  rewrite Hroot. clear Hroot.
  destruct (bool_decide_reflect (s = [] ∨ s = cs "1")) as [Hr|Hr].
  - assert (Hfit : (length (cs "gopher://") + length h + 1 + 5 + 1
                    <? MAX_URL_INPUT_LENGTH)%nat = true).
    { apply Nat.ltb_lt. unfold MAX_URL_INPUT_LENGTH, MAX_HOST_LENGTH,
        MAX_SELECTOR_LENGTH. simpl. lia. }
    rewrite Hfit.
    assert (Hfit2 : (length (cs "gopher://" ++ h ++ cs ":" ++ sprintf_d p
                               ++ cs "/") <? MAX_URL_INPUT_LENGTH)%nat = true).
    { apply Nat.ltb_lt. rewrite !length_app. unfold MAX_URL_INPUT_LENGTH,
        MAX_HOST_LENGTH, MAX_SELECTOR_LENGTH. simpl. lia. }
    rewrite Hfit2. eexists. split; [reflexivity|].
    pose proof (parse_gopher_address_url h p [] Hh Hp ltac:(apply not_elem_of_nil)
                  ltac:(simpl; lia) ltac:(simpl; lia)) as Hparse.
    rewrite app_nil_r in Hparse.
    rewrite Hparse. destruct Hr as [->| ->]; [|done].
    by rewrite bool_decide_false.
  - assert (Hfit : (length (cs "gopher://") + length h + 1 + 5 + 1
                    + length s + 1 <? MAX_URL_INPUT_LENGTH)%nat = true).
    { apply Nat.ltb_lt. unfold MAX_URL_INPUT_LENGTH, MAX_HOST_LENGTH,
        MAX_SELECTOR_LENGTH. simpl. lia. }
    rewrite Hfit.
    assert (Hfit2 : (length (cs "gopher://" ++ h ++ cs ":" ++ sprintf_d p
                               ++ cs "/" ++ s) <? MAX_URL_INPUT_LENGTH)%nat
                    = true).
    { apply Nat.ltb_lt. rewrite !length_app. unfold MAX_URL_INPUT_LENGTH,
        MAX_HOST_LENGTH, MAX_SELECTOR_LENGTH. simpl. lia. }
    rewrite Hfit2. eexists. split; [reflexivity|].
    rewrite parse_gopher_address_url by done.
    rewrite bool_decide_false; [done|]. intros ->. apply Hr. by right.
Qed.

Lemma get_current_url_parses_back_witness :
  valid_host (NavigationState.host search_node)
  ∧ 1 ≤ NavigationState.port search_node ≤ 65535
  ∧ ∃ url, get_current_url search_node MAX_URL_INPUT_LENGTH = Some url
           ∧ parse_gopher_address url =
               Some (cs "example.org", 70, cs "7/search").
Proof.
  assert (H1 : valid_host (NavigationState.host search_node)).
  { split_and!; [done|simpl; lia| |left].
    - intros c Hc. apply (bool_decide_unpack _). revert c Hc.
      apply Forall_forall. by repeat constructor.
    - apply (bool_decide_unpack _). by vm_compute. }
  assert (H2 : 1 ≤ NavigationState.port search_node ≤ 65535)
    by (vm_compute; split; discriminate).
  assert (H3 : NUL ∉ NavigationState.selector search_node)
    by (apply (bool_decide_unpack _); by vm_compute).
  assert (H4 : (length (NavigationState.selector search_node) ≤ 1023)%nat)
    by (simpl; lia).
  assert (H5 : (length (NavigationState.host search_node)
                + length (NavigationState.selector search_node) < 1273)%nat)
    by (simpl; lia).
  split; [exact H1|]. split; [exact H2|].
  exact (get_current_url_parses_back search_node H1 H2 H3 H4 H5).
Defined.

(** ** Menus: numbering, selection and keys *)

(** ** The numbering of a menu *)

Lemma trim_whitespace_length (buf : cstring) :
  (length (trim_whitespace buf) ≤ length buf)%nat.
Proof.
  unfold trim_whitespace. destruct (drop (leading_spaces buf) buf); [done|].
  rewrite length_take. lia.
Qed.

Lemma parse_gopher_line_fresh (line : list ascii) (current_host : cstring)
    (current_port : Z) (item : GopherItem.t) :
  parse_gopher_line line current_host current_port = Some item →
  GopherItem.menu_index item = 0
  ∧ (length (GopherItem.display_string item) ≤ 1023)%nat.
Proof.
  unfold parse_gopher_line.
  set (line1 := if _ && _ then _ else line).
  destruct (_ || _); [done|].
  destruct (tokenize 3 line1 1) as [line2 found].
  assert (Hd : (length (trim_whitespace
                          (strncpy0 (str_at line2 1) (MAX_DISPLAY_LENGTH - 1)))
                ≤ 1023)%nat).
  { etrans; [apply trim_whitespace_length|].
    unfold strncpy0. rewrite length_take. unfold MAX_DISPLAY_LENGTH. lia. }
  repeat case_match; intros [= <-]; simpl; done.
Qed.

Lemma count_selectable_cons (item : GopherItem.t) (rest : list GopherItem.t) :
  count_selectable (item :: rest) =
  (if GopherItem.is_selectable item then 1 else 0) + count_selectable rest.
Proof.
  unfold count_selectable.
  destruct (GopherItem.is_selectable item) eqn:Hs.
  - rewrite filter_cons_True by done. simpl length. lia.
  - rewrite filter_cons_False by (by rewrite Hs). lia.
Qed.

Lemma count_selectable_nonneg (items : list GopherItem.t) :
  0 ≤ count_selectable items.
Proof. unfold count_selectable. lia. Qed.

Lemma process_lines_numbered (lines : list cstring) (current_host : cstring)
    (current_port : Z) : ∀ (items : list GopherItem.t) (selectable : Z),
  ∃ new,
    process_lines lines current_host current_port items selectable =
      (items ++ new, selectable + count_selectable new)
    ∧ numbered new selectable
    ∧ Forall (λ it, (length (GopherItem.display_string it) ≤ 1023)%nat) new.
Proof.
  induction lines as [|line rest IH]; intros items selectable.
  - exists []. simpl. rewrite app_nil_r. split_and!; [|done|done].
    f_equal. unfold count_selectable. simpl. lia.
  - cbn [process_lines].
    destruct (parse_gopher_line line current_host current_port)
      as [item|] eqn:Hparse; [|apply IH].
    destruct (parse_gopher_line_fresh _ _ _ _ Hparse) as [Hidx Hlen].
    destruct (GopherItem.is_selectable item) eqn:Hsel.
    + destruct (IH (items ++ [set_menu_index item (selectable + 1)])
                  (selectable + 1)) as (new & -> & Hnum & Hall).
      exists (set_menu_index item (selectable + 1) :: new). split_and!.
      * rewrite <- app_assoc. simpl. f_equal.
        rewrite count_selectable_cons. simpl. rewrite Hsel. lia.
      * simpl. rewrite Hsel. done.
      * apply Forall_cons. done.
    + destruct (IH (items ++ [item]) selectable) as (new & -> & Hnum & Hall).
      exists (item :: new). split_and!.
      * rewrite <- app_assoc. simpl. f_equal.
        rewrite count_selectable_cons. rewrite Hsel. lia.
      * simpl. rewrite Hsel. done.
      * apply Forall_cons. done.
Qed.

(** What [process_gopher_response] leaves in the state. *)
Lemma process_gopher_response_menu (nav : NavigationState.t) (state : AppState)
    (data : cstring) :
  let menu := process_gopher_response nav state data in
  total_items menu = Z.of_nat (length (gopher_items menu))
  ∧ selectable_items menu = count_selectable (gopher_items menu)
  ∧ selected_index menu = 1
  ∧ numbered (gopher_items menu) 0
  ∧ Forall (λ it, (length (GopherItem.display_string it) ≤ 1023)%nat)
      (gopher_items menu).
Proof.
  unfold process_gopher_response.
  destruct (process_lines_numbered (strtok_lines [] data)
              (NavigationState.host nav) (NavigationState.port nav) [] 0)
    as (new & -> & Hnum & Hall).
  simpl. split_and!; try done.
Qed.

Lemma handle_menu_navigation_keeps (state : AppState) (input : ascii) :
  gopher_items (handle_menu_navigation state input) = gopher_items state
  ∧ total_items (handle_menu_navigation state input) = total_items state
  ∧ selectable_items (handle_menu_navigation state input)
    = selectable_items state
  ∧ terminal_size (handle_menu_navigation state input) = terminal_size state.
Proof.
  unfold handle_menu_navigation.
  destruct (selectable_items state =? 0); simpl; done.
Qed.

Lemma menu_loop_keeps (events : list input_event) : ∀ state,
  gopher_items (menu_loop state events).1 = gopher_items state
  ∧ total_items (menu_loop state events).1 = total_items state
  ∧ selectable_items (menu_loop state events).1 = selectable_items state.
Proof.
  induction events as [|ev rest IH]; intros state; [done|].
  cbn [menu_loop]. destruct (is_running state); [|done]. cbn [negb].
  destruct ev as [ws| |key|c]; [|apply IH| |done].
  - destruct (IH (set_terminal_size state ws)) as (-> & -> & ->). done.
  - destruct (IH (handle_menu_navigation state key)) as (-> & -> & ->).
    destruct (handle_menu_navigation_keeps state key) as (-> & -> & -> & _).
    done.
Qed.

(** The search of [handle_menu_navigation] finds the [n]-th selectable
    item. *)
Lemma find_selected_nth (items : list GopherItem.t) : ∀ i k n,
  k < n ≤ k + count_selectable items →
  ∃ idx item,
    find_selected items i k n = i + Z.of_nat idx
    ∧ items !! idx = Some item
    ∧ GopherItem.is_selectable item = true
    ∧ k + count_selectable (take idx items) = n - 1.
Proof.
  induction items as [|item rest IH]; intros i k n Hn.
  - unfold count_selectable in Hn. simpl in Hn. lia.
  - rewrite count_selectable_cons in Hn. cbn [find_selected].
    destruct (GopherItem.is_selectable item) eqn:Hsel.
    + destruct (Z.eqb_spec (k + 1) n) as [Heq|Hne].
      * exists 0%nat, item. split_and!; [lia|done|done|].
        unfold count_selectable. simpl. lia.
      * destruct (IH (i + 1) (k + 1) n ltac:(lia))
          as (idx & it & Hf & Hl & Hs & Hc).
        exists (S idx), it. split_and!; [lia|done|done|].
        rewrite firstn_cons, count_selectable_cons, Hsel. lia.
    + destruct (IH (i + 1) k n ltac:(lia)) as (idx & it & Hf & Hl & Hs & Hc).
      exists (S idx), it. split_and!; [lia|done|done|].
      rewrite firstn_cons, count_selectable_cons, Hsel. lia.
Qed.

(** On a numbered menu the search of [handle_menu_action] finds the same
    item. *)
Lemma find_activated_nth (items : list GopherItem.t) : ∀ k n idx item,
  numbered items k →
  items !! idx = Some item → GopherItem.is_selectable item = true →
  k + count_selectable (take idx items) = n - 1 →
  find_activated items n = Some item.
Proof.
  induction items as [|it rest IH]; intros k n idx item Hnum Hl Hs Hc; [done|].
  cbn [numbered] in Hnum. cbn [find_activated].
  destruct idx as [|idx].
  - injection Hl as ->. rewrite Hs in *. destruct Hnum as [Hm _].
    unfold count_selectable in Hc. simpl in Hc.
    rewrite Hm. by rewrite (proj2 (Z.eqb_eq (k + 1) n)) by lia.
  - rewrite firstn_cons, count_selectable_cons in Hc. simpl in Hl.
    pose proof (count_selectable_nonneg (take idx rest)).
    destruct (GopherItem.is_selectable it) eqn:Hsel.
    + destruct Hnum as [Hm Hnum]. rewrite Hm.
      rewrite (proj2 (Z.eqb_neq (k + 1) n)) by lia. simpl.
      apply (IH (k + 1) n idx); [done|done|done|lia].
    + destruct Hnum as [_ Hnum]. simpl.
      apply (IH k n idx); [done|done|done|lia].
Qed.

Lemma viewable_rows_menu (state : AppState) :
  (if 4 <? ws_row (terminal_size state)
   then ws_row (terminal_size state) - 4 else 0) = viewable_rows_of state 0.
Proof.
  unfold viewable_rows_of.
  destruct (Z.ltb_spec 4 (ws_row (terminal_size state))); lia.
Qed.

(** How [handle_menu_navigation] sets the scroll offset from the place of
    the newly selected item. *)
Lemma handle_menu_navigation_scroll (state : AppState) (input : ascii) :
  selectable_items state ≠ 0 →
  let after := handle_menu_navigation state input in
  let idx :=
    find_selected (take (Z.to_nat (total_items state)) (gopher_items state))
      0 0 (selected_index after) in
  let rows := viewable_rows_of state 0 in
  scroll_offset after =
    if negb (idx =? -1) then
      if idx <? scroll_offset state then idx
      else if scroll_offset state + rows <=? idx then idx - rows + 1
      else scroll_offset state
    else scroll_offset state.
Proof.
  intros Hsel. unfold handle_menu_navigation.
  rewrite viewable_rows_menu.
  rewrite (proj2 (Z.eqb_neq _ _) Hsel). simpl. done.
Qed.

Lemma menu_after_keys (nav : NavigationState.t) (state : AppState)
    (data : cstring) (events : list input_event) :
  let menu := (menu_loop (process_gopher_response nav state data) events).1 in
  1 ≤ selectable_items menu →
  take (Z.to_nat (total_items menu)) (gopher_items menu) = gopher_items menu
  ∧ selectable_items menu = count_selectable (gopher_items menu)
  ∧ 1 ≤ selected_index menu ≤ selectable_items menu
  ∧ numbered (gopher_items menu) 0
  ∧ Forall (λ it, (length (GopherItem.display_string it) ≤ 1023)%nat)
      (gopher_items menu).
Proof.
  intros menu Hsel.
  destruct (menu_loop_keeps events (process_gopher_response nav state data))
    as (Hitems & Htotal & Hcount).
  destruct (process_gopher_response_menu nav state data)
    as (Ht & Hc & Hs & Hnum & Hall).
  fold menu in Hitems, Htotal, Hcount.
  rewrite Hcount in Hsel.
  pose proof (menu_loop_range events (process_gopher_response nav state data)
                ltac:(lia)) as [_ Hrange].
  fold menu in Hrange.
  rewrite Hitems, Htotal, Hcount. split_and!; try done.
  - apply take_ge. lia.
  - lia.
  - lia.
Qed.

(** X9. On a menu built by [process_gopher_response] and moved by any
    keys, with one selectable item at least and one content row at least,
    after one more arrow or page key the selected item (the item whose
    rank among the selectable ones is [selected_index]) lies between
    [scroll_offset] and [scroll_offset + rows - 1]. *)
Theorem selected_item_is_scrolled_into_view (nav : NavigationState.t)
    (state : AppState) (data : cstring) (events : list input_event)
    (key : ascii) :
  let menu := (menu_loop (process_gopher_response nav state data) events).1 in
  let after := handle_menu_navigation menu key in
  let rows := viewable_rows_of menu 0 in
  1 ≤ selectable_items menu → 1 ≤ rows →
  ∃ idx,
    is_nth_selectable (gopher_items after) (selected_index after) idx
    ∧ scroll_offset after ≤ Z.of_nat idx < scroll_offset after + rows.
Proof.
  intros menu after rows Hsel Hrows.
  destruct (menu_after_keys nav state data events Hsel)
    as (Htake & Hcount & Hrange & _).
  fold menu in Htake, Hcount, Hrange.
  destruct (handle_menu_navigation_range menu key Hrange) as [_ Hrange'].
  destruct (handle_menu_navigation_keeps menu key) as (Hitems & _).
  fold after in Hrange', Hitems.
  pose proof (handle_menu_navigation_scroll menu key ltac:(lia)) as Hscroll.
  cbv zeta in Hscroll. fold after rows in Hscroll. rewrite Htake in Hscroll.
  destruct (find_selected_nth (gopher_items menu) 0 0 (selected_index after)
              ltac:(lia)) as (idx & item & Hfind & Hl & Hs & Hc).
  rewrite Hfind in Hscroll.
  exists idx. split.
  - rewrite Hitems. exists item. split_and!; [done|done|lia].
  - rewrite Hscroll.
    rewrite (proj2 (Z.eqb_neq (0 + Z.of_nat idx) (-1))) by lia. simpl negb.
    destruct (Z.ltb_spec (0 + Z.of_nat idx) (scroll_offset menu)); [lia|].
    destruct (Z.leb_spec (scroll_offset menu + rows) (0 + Z.of_nat idx)); lia.
Qed.

Lemma selected_item_is_scrolled_into_view_witness :
  1 ≤ selectable_items (menu_loop three_links_menu [EvEscape KEY_DOWN]).1
  ∧ 1 ≤ viewable_rows_of (menu_loop three_links_menu [EvEscape KEY_DOWN]).1 0
  ∧ ∃ idx,
      is_nth_selectable
        (gopher_items
           (handle_menu_navigation
              (menu_loop three_links_menu [EvEscape KEY_DOWN]).1 KEY_DOWN))
        (selected_index
           (handle_menu_navigation
              (menu_loop three_links_menu [EvEscape KEY_DOWN]).1 KEY_DOWN))
        idx
      ∧ scroll_offset
          (handle_menu_navigation
             (menu_loop three_links_menu [EvEscape KEY_DOWN]).1 KEY_DOWN)
        ≤ Z.of_nat idx
        < scroll_offset
            (handle_menu_navigation
               (menu_loop three_links_menu [EvEscape KEY_DOWN]).1 KEY_DOWN)
          + viewable_rows_of
              (menu_loop three_links_menu [EvEscape KEY_DOWN]).1 0.
Proof.
  assert (H1 : 1 ≤ selectable_items
                     (menu_loop three_links_menu [EvEscape KEY_DOWN]).1)
    by (vm_compute; discriminate).
  assert (H2 : 1 ≤ viewable_rows_of
                     (menu_loop three_links_menu [EvEscape KEY_DOWN]).1 0)
    by (vm_compute; discriminate).
  split; [exact H1|]. split; [exact H2|].
  exact (selected_item_is_scrolled_into_view root_node
           (initial_state terminal_24x80) _ [EvEscape KEY_DOWN] KEY_DOWN H1 H2).
Defined.

(** X10. On a menu built by [process_gopher_response] and moved by any
    keys, with one selectable item at least, Enter (or carriage return)
    acts on the item whose rank among the selectable ones is
    [selected_index]: it calls [navigate_to] with that item's host, port
    and selector, or the search prompt when the item has type 7. *)
Theorem enter_opens_the_selected_item (nav : NavigationState.t)
    (state : AppState) (data : cstring) (events : list input_event)
    (m : Memory) (key : ascii) (stdin : list ascii) :
  let menu := (menu_loop (process_gopher_response nav state data) events).1 in
  1 ≤ selectable_items menu →
  key = KEY_ENTER ∨ key = KEY_CARRIAGE_RETURN →
  ∃ idx item,
    gopher_items menu !! idx = Some item
    ∧ is_nth_selectable (gopher_items menu) (selected_index menu) idx
    ∧ handle_menu_action m menu key stdin =
        if Ascii.eqb (GopherItem.type item) "7"
        then handle_search_prompt m menu item stdin
        else
          w ← navigate_to m menu (GopherItem.host item)
                (GopherItem.port item) (GopherItem.selector item);
          Some (w, stdin).
Proof.
  intros menu Hsel Hkey.
  destruct (menu_after_keys nav state data events Hsel)
    as (Htake & Hcount & Hrange & Hnum & _).
  fold menu in Htake, Hcount, Hrange, Hnum.
  destruct (find_selected_nth (gopher_items menu) 0 0 (selected_index menu)
              ltac:(lia)) as (idx & item & _ & Hl & Hs & Hc).
  exists idx, item. split; [done|]. split.
  - exists item. split_and!; [done|done|lia].
  - unfold handle_menu_action.
    assert (Ascii.eqb key KEY_ENTER || Ascii.eqb key KEY_CARRIAGE_RETURN = true)
      as -> by (by destruct Hkey as [-> | ->]).
    rewrite Htake.
    by rewrite (find_activated_nth _ 0 (selected_index menu) idx item).
Qed.

Lemma enter_opens_the_selected_item_witness :
  1 ≤ selectable_items (menu_loop three_links_menu [EvEscape KEY_DOWN]).1
  ∧ ∃ idx item,
      gopher_items (menu_loop three_links_menu [EvEscape KEY_DOWN]).1 !! idx
        = Some item
      ∧ is_nth_selectable
          (gopher_items (menu_loop three_links_menu [EvEscape KEY_DOWN]).1)
          (selected_index (menu_loop three_links_menu [EvEscape KEY_DOWN]).1)
          idx
      ∧ handle_menu_action initial_memory
          (menu_loop three_links_menu [EvEscape KEY_DOWN]).1 KEY_ENTER []
        = if Ascii.eqb (GopherItem.type item) "7"
          then handle_search_prompt initial_memory
                 (menu_loop three_links_menu [EvEscape KEY_DOWN]).1 item []
          else
            w ← navigate_to initial_memory
                  (menu_loop three_links_menu [EvEscape KEY_DOWN]).1
                  (GopherItem.host item) (GopherItem.port item)
                  (GopherItem.selector item);
            Some (w, []).
Proof.
  assert (H1 : 1 ≤ selectable_items
                     (menu_loop three_links_menu [EvEscape KEY_DOWN]).1)
    by (vm_compute; discriminate).
  split; [exact H1|].
  exact (enter_opens_the_selected_item root_node
           (initial_state terminal_24x80) _ [EvEscape KEY_DOWN] initial_memory
           KEY_ENTER [] H1 (or_introl eq_refl)).
Defined.

Lemma handle_menu_navigation_up (state : AppState) :
  selectable_items state ≠ 0 →
  selected_index (handle_menu_navigation state KEY_UP) =
  if 1 <? selected_index state then selected_index state - 1
  else selectable_items state.
Proof.
  intros Hsel. unfold handle_menu_navigation.
  rewrite (proj2 (Z.eqb_neq _ _) Hsel). simpl. done.
Qed.

Lemma handle_menu_navigation_down (state : AppState) :
  selectable_items state ≠ 0 →
  selected_index (handle_menu_navigation state KEY_DOWN) =
  if selected_index state <? selectable_items state
  then selected_index state + 1 else 1.
Proof.
  intros Hsel. unfold handle_menu_navigation.
  rewrite (proj2 (Z.eqb_neq _ _) Hsel). simpl. done.
Qed.

(** X11. With the selection within 1..selectable_items, Down after Up and
    Up after Down bring [selected_index] back to what it was. *)
Theorem menu_up_and_down_undo_each_other (state : AppState) :
  1 ≤ selected_index state ≤ selectable_items state →
  selected_index
    (handle_menu_navigation (handle_menu_navigation state KEY_UP) KEY_DOWN)
  = selected_index state
  ∧ selected_index
      (handle_menu_navigation (handle_menu_navigation state KEY_DOWN) KEY_UP)
    = selected_index state.
Proof.
  intros Hrange.
  destruct (handle_menu_navigation_keeps state KEY_UP) as (_ & _ & Hu & _).
  destruct (handle_menu_navigation_keeps state KEY_DOWN) as (_ & _ & Hd & _).
  split.
  - rewrite handle_menu_navigation_down by lia.
    rewrite Hu, handle_menu_navigation_up by lia.
    destruct (Z.ltb_spec 1 (selected_index state)).
    + destruct (Z.ltb_spec (selected_index state - 1) (selectable_items state));
        lia.
    + destruct (Z.ltb_spec (selectable_items state) (selectable_items state));
        lia.
  - rewrite handle_menu_navigation_up by lia.
    rewrite Hd, handle_menu_navigation_down by lia.
    destruct (Z.ltb_spec (selected_index state) (selectable_items state)).
    + destruct (Z.ltb_spec 1 (selected_index state + 1)); lia.
    + destruct (Z.ltb_spec 1 1); lia.
Qed.

Lemma menu_up_and_down_undo_each_other_witness :
  1 ≤ selected_index three_links_menu ≤ selectable_items three_links_menu
  ∧ selected_index
      (handle_menu_navigation (handle_menu_navigation three_links_menu KEY_UP)
         KEY_DOWN) = 1
  ∧ selected_index
      (handle_menu_navigation (handle_menu_navigation three_links_menu KEY_DOWN)
         KEY_UP) = 1.
Proof.
  assert (H1 : 1 ≤ selected_index three_links_menu
               ≤ selectable_items three_links_menu)
    by (vm_compute; split; discriminate).
  split; [exact H1|].
  exact (menu_up_and_down_undo_each_other three_links_menu H1).
Defined.

(** ** The menu on the screen *)

Lemma sprintf_into_fits (size : nat) (s : cstring) :
  (length s < size)%nat → sprintf_into size s = Some s.
Proof.
  intros Hlen. unfold sprintf_into.
  by rewrite (proj2 (Nat.ltb_lt _ _) Hlen).
Qed.

Lemma draw_menu_rows_spec (rows_left : nat) (state : AppState) (col : Z) :
  total_items state = Z.of_nat (length (gopher_items state)) →
  Forall (λ it, (length (GopherItem.display_string it) ≤ 1023)%nat)
    (gopher_items state) →
  ∀ (j : nat) (count : Z),
    draw_menu_rows rows_left state (Z.of_nat j) count col =
    Some (concat
            (imap (λ t item,
                     menu_row item
                       (GopherItem.is_selectable item
                        && (GopherItem.menu_index item =? selected_index state))
                       (4 + (count + Z.of_nat t)) col)
               (take rows_left (drop j (gopher_items state))))).
Proof.
  intros Htotal Hall.
  induction rows_left as [|k IH]; intros j count; [done|].
  cbn [draw_menu_rows]. rewrite Htotal.
  destruct (Z.ltb_spec (Z.of_nat j) (Z.of_nat (length (gopher_items state))))
    as [Hlt|Hge].
  - rewrite (proj2 (Z.ltb_ge (Z.of_nat j) 0)) by lia.
    rewrite Nat2Z.id.
    destruct (lookup_lt_is_Some_2 (gopher_items state) j ltac:(lia))
      as [item Hitem].
    rewrite Hitem. cbn [mbind option_bind].
    rewrite (drop_S _ _ _ Hitem), firstn_cons. cbn [imap concat].
    pose proof (proj1 (Forall_lookup _ _) Hall j item Hitem) as Hlen.
    simpl in Hlen.
    assert (Hfit : (length (GopherItem.display_string item) + 3
                    <? MAX_DISPLAY_LENGTH + 20)%nat = true).
    { apply Nat.ltb_lt. unfold MAX_DISPLAY_LENGTH. lia. }
    rewrite Hfit.
    set (is_selected := GopherItem.is_selectable item && _).
    assert (Hbuf : (if GopherItem.is_selectable item
                    then sprintf_into (MAX_DISPLAY_LENGTH + 20)
                           ((if is_selected then cs "->" else cs "  ")
                              ++ GopherItem.display_string item)
                    else sprintf_into (MAX_DISPLAY_LENGTH + 20)
                           (cs "  " ++ GopherItem.display_string item))
                   = Some ((if is_selected then cs "->" else cs "  ")
                             ++ GopherItem.display_string item)).
    { unfold is_selected.
      destruct (GopherItem.is_selectable item); simpl andb.
      - apply sprintf_into_fits. rewrite length_app. unfold MAX_DISPLAY_LENGTH.
        destruct (_ =? _); simpl; lia.
      - apply sprintf_into_fits. rewrite length_app. unfold MAX_DISPLAY_LENGTH.
        simpl. lia. }
    rewrite Hbuf. cbn [mbind option_bind].
    replace (Z.of_nat j + 1) with (Z.of_nat (S j)) by lia.
    rewrite IH. cbn [mbind option_bind]. f_equal.
    replace (count + Z.of_nat 0) with count by lia.
    rewrite (imap_ext _
               ((λ t item0,
                   menu_row item0
                     (GopherItem.is_selectable item0
                      && (GopherItem.menu_index item0 =? selected_index state))
                     (4 + (count + Z.of_nat t)) col) ∘ S)).
    + unfold menu_row at 2. by rewrite <- !app_assoc.
    + intros t it _. unfold compose. f_equal. lia.
  - rewrite drop_ge by lia. by rewrite take_nil.
Qed.

Lemma numbered_menu_index (items : list GopherItem.t) : ∀ k idx item,
  numbered items k → items !! idx = Some item →
  GopherItem.is_selectable item = true →
  GopherItem.menu_index item = k + count_selectable (take idx items) + 1.
Proof.
  induction items as [|it rest IH]; intros k idx item Hnum Hl Hs; [done|].
  cbn [numbered] in Hnum. destruct idx as [|idx].
  - injection Hl as ->. rewrite Hs in Hnum. destruct Hnum as [-> _].
    unfold count_selectable. simpl. lia.
  - simpl in Hl. rewrite firstn_cons, count_selectable_cons.
    destruct (GopherItem.is_selectable it).
    + destruct Hnum as [_ Hnum]. rewrite (IH (k + 1) idx item) by done. lia.
    + destruct Hnum as [_ Hnum]. rewrite (IH k idx item) by done. lia.
Qed.

Lemma find_selected_bounds (items : list GopherItem.t) : ∀ i k n,
  find_selected items i k n = -1 ∨ i ≤ find_selected items i k n.
Proof.
  induction items as [|item rest IH]; intros i k n; [by left|].
  cbn [find_selected]. destruct (GopherItem.is_selectable item).
  - destruct (k + 1 =? n); [right; lia|].
    destruct (IH (i + 1) (k + 1) n); [by left|right; lia].
  - destruct (IH (i + 1) k n); [by left|right; lia].
Qed.

Lemma handle_menu_navigation_scroll_nonneg (state : AppState) (input : ascii) :
  0 ≤ scroll_offset state →
  0 ≤ scroll_offset (handle_menu_navigation state input).
Proof.
  intros Hs.
  destruct (decide (selectable_items state = 0)) as [H0|H0].
  { by rewrite handle_menu_navigation_empty. }
  rewrite handle_menu_navigation_scroll by done.
  set (idx := find_selected _ _ _ _).
  destruct (find_selected_bounds
              (take (Z.to_nat (total_items state)) (gopher_items state)) 0 0
              (selected_index (handle_menu_navigation state input)))
    as [Hm|Hge]; fold idx in Hm || fold idx in Hge.
  - rewrite Hm. simpl. done.
  - rewrite (proj2 (Z.eqb_neq idx (-1))) by lia. simpl negb.
    destruct (Z.ltb_spec idx (scroll_offset state)); [lia|].
    destruct (Z.leb_spec (scroll_offset state + viewable_rows_of state 0) idx);
      lia.
Qed.

Lemma menu_loop_scroll_nonneg (events : list input_event) : ∀ state,
  0 ≤ scroll_offset state → 0 ≤ scroll_offset (menu_loop state events).1.
Proof.
  induction events as [|ev rest IH]; intros state Hs; [done|].
  cbn [menu_loop]. destruct (is_running state); [|done]. cbn [negb].
  destruct ev as [ws| |key|c]; [by apply IH|by apply IH| |done].
  apply IH. by apply handle_menu_navigation_scroll_nonneg.
Qed.

Lemma process_gopher_response_scroll (nav : NavigationState.t)
    (state : AppState) (data : cstring) :
  scroll_offset (process_gopher_response nav state data) = scroll_offset state.
Proof. unfold process_gopher_response. by destruct (process_lines _ _ _ _ _). Qed.

(** X12. [draw_gopher_menu], on a menu built by [process_gopher_response]
    from a state with a scroll offset that is not negative and moved by any
    keys, writes the cleared screen, the header, and one row for each of
    the items from [scroll_offset] on, at most [ws_row - 4] of them, on the
    rows 4, 5, ...; the row has the marker "->" and the selection colour
    exactly when the item is selectable and its rank among the selectable
    items is [selected_index], and two blanks and the colour of its type
    otherwise. *)
Theorem draw_gopher_menu_marks_the_selection (nav : NavigationState.t)
    (state : AppState) (data : cstring) (events : list input_event)
    (node : NavigationState.t) :
  let menu := (menu_loop (process_gopher_response nav state data) events).1 in
  let items := gopher_items menu in
  let rows := Z.to_nat (viewable_rows_of menu 0) in
  let scroll := Z.to_nat (scroll_offset menu) in
  0 ≤ scroll_offset state →
  draw_gopher_menu menu node =
  header ← draw_header menu node;
  Some (clear_terminal ++ header
        ++ concat
             (imap (λ t item,
                      menu_row item
                        (GopherItem.is_selectable item
                         && bool_decide
                              (count_selectable (take (scroll + t) items)
                               = selected_index menu - 1))
                        (4 + Z.of_nat t) (content_column menu))
                (take rows (drop scroll items)))).
Proof.
  intros menu items rows scroll Hscroll.
  destruct (menu_loop_keeps events (process_gopher_response nav state data))
    as (Hitems & Htotal & _).
  destruct (process_gopher_response_menu nav state data)
    as (Ht & _ & _ & Hnum & Hall).
  fold menu in Hitems, Htotal. rewrite <- Hitems in Hnum, Hall, Ht.
  rewrite <- Htotal in Ht. fold items in Hnum, Hall, Ht.
  rewrite <- (process_gopher_response_scroll nav state data) in Hscroll.
  pose proof (menu_loop_scroll_nonneg events
                (process_gopher_response nav state data) Hscroll) as Hs.
  fold menu in Hs.
  unfold draw_gopher_menu.
  destruct (draw_header menu node) as [header|]; [|done].
  cbn [mbind option_bind].
  rewrite viewable_rows_menu. fold rows.
  replace (scroll_offset menu) with (Z.of_nat scroll) at 1
    by (unfold scroll; lia).
  rewrite draw_menu_rows_spec by done. cbn [mbind option_bind].
  do 3 f_equal. fold items.
  assert (Hcol : (if (ws_col (terminal_size menu)
                      - Z.of_nat MAX_CONTENT_DISPLAY_WIDTH) ÷ 2 + 1 <? 1
                  then 1
                  else (ws_col (terminal_size menu)
                        - Z.of_nat MAX_CONTENT_DISPLAY_WIDTH) ÷ 2 + 1)
                 = content_column menu).
  { unfold content_column, MAX_CONTENT_DISPLAY_WIDTH.
    change (Z.of_nat 78) with 78.
    destruct (Z.ltb_spec ((ws_col (terminal_size menu) - 78) ÷ 2 + 1) 1); lia. }
  rewrite Hcol. f_equal. apply imap_ext. intros t item Ht'. cbv beta.
  rewrite lookup_take_Some in Ht'. destruct Ht' as [Ht' _].
  rewrite lookup_drop in Ht'.
  f_equal.
  destruct (GopherItem.is_selectable item) eqn:Hsel; [|done]. simpl andb.
  rewrite (numbered_menu_index items 0 (scroll + t) item) by done.
  destruct (Z.eqb_spec (0 + count_selectable (take (scroll + t) items) + 1)
              (selected_index menu)) as [Heq|Hne].
  - by rewrite bool_decide_true by lia.
  - by rewrite bool_decide_false by lia.
Qed.

Lemma draw_gopher_menu_marks_the_selection_witness :
  0 ≤ scroll_offset (initial_state terminal_24x80)
  ∧ let menu := (menu_loop three_links_menu [EvEscape KEY_DOWN]).1 in
    draw_gopher_menu menu root_node =
    header ← draw_header menu root_node;
    Some (clear_terminal ++ header
          ++ concat
               (imap (λ t item,
                        menu_row item
                          (GopherItem.is_selectable item
                           && bool_decide
                                (count_selectable
                                   (take (Z.to_nat (scroll_offset menu) + t)
                                      (gopher_items menu))
                                 = selected_index menu - 1))
                          (4 + Z.of_nat t) (content_column menu))
                  (take (Z.to_nat (viewable_rows_of menu 0))
                     (drop (Z.to_nat (scroll_offset menu))
                        (gopher_items menu))))).
Proof.
  assert (H1 : 0 ≤ scroll_offset (initial_state terminal_24x80))
    by (vm_compute; discriminate).
  split; [exact H1|].
  exact (draw_gopher_menu_marks_the_selection root_node
           (initial_state terminal_24x80) _ [EvEscape KEY_DOWN] root_node H1).
Defined.

(** ** Prompts *)

Lemma isprint_not_NUL (c : ascii) : isprint c = true → c ≠ NUL.
Proof. intros H ->. by vm_compute in H. Qed.

Lemma c_str_insert_NUL (buf : list ascii) (j : nat) :
  (j < length buf)%nat → NUL ∉ take j buf →
  c_str (<[j := NUL]> buf) = take j buf.
Proof.
  intros Hj Hn.
  destruct (lookup_lt_is_Some_2 buf j Hj) as [x Hx].
  rewrite (insert_take_drop buf j NUL Hj).
  rewrite c_str_app by done. simpl. by rewrite app_nil_r.
Qed.

Lemma search_prompt_loop_read_line (stdin : list ascii) : ∀ buf i,
  (i ≤ 1023)%nat → length buf = 1024%nat → NUL ∉ take i buf →
  ∃ buf' j,
    search_prompt_loop stdin buf i =
      (buf', j, (read_line search_cancel 1023 stdin (take i buf)).2)
    ∧ take j buf' = (read_line search_cancel 1023 stdin (take i buf)).1
    ∧ length buf' = 1024%nat ∧ (j ≤ 1023)%nat ∧ NUL ∉ take j buf'.
Proof.
  induction stdin as [|c rest IH]; intros buf i Hi Hlen Hn.
  - exists buf, i. simpl. done.
  - cbn [search_prompt_loop read_line].
    destruct (Ascii.eqb c KEY_ENTER || Ascii.eqb c KEY_CARRIAGE_RETURN).
    { exists buf, i. simpl. done. }
    assert (Hti : length (take i buf) = i) by (rewrite length_take; lia).
    destruct (Ascii.eqb c KEY_BACKSPACE || Ascii.eqb c "008").
    { rewrite Hti, take_take.
      replace ((i - 1) `min` i)%nat with (i - 1)%nat by lia.
      destruct (Nat.ltb_spec 0 i).
      - apply IH; [lia|done|].
        intros Hin. apply Hn. apply elem_of_take in Hin as (k & Hk & Hlt).
        apply elem_of_take. exists k. split; [done|lia].
      - replace (i - 1)%nat with i by lia. apply IH; done. }
    change (Ascii.eqb c KEY_ESC || Ascii.eqb c "q") with (search_cancel c).
    destruct (search_cancel c).
    { exists buf, 0%nat. simpl.
      split_and!; [done|done|done|lia|apply not_elem_of_nil]. }
    rewrite Hti. unfold MAX_SELECTOR_LENGTH.
    change (1024 - 1)%nat with 1023%nat.
    destruct (isprint c && (i <? 1023)%nat) eqn:Hp.
    + apply andb_true_iff in Hp as [Hp Hlt]. apply Nat.ltb_lt in Hlt.
      assert (Htake : take (S i) (<[i := c]> buf) = take i buf ++ [c]).
      { rewrite (take_S_r _ _ c) by (apply list_lookup_insert_eq; lia).
        by rewrite take_insert_ge by lia. }
      rewrite <- Htake. apply IH; [lia|by rewrite length_insert|].
      rewrite Htake. intros Hin. apply elem_of_app in Hin as [Hin|Hin]; [done|].
      apply list_elem_of_singleton in Hin. by apply (isprint_not_NUL c).
    + apply IH; done.
Qed.

(** X13. The search prompt is a line editor: for an item whose selector
    has at most 1023 bytes, [handle_search_prompt] reads a line (printable
    characters up to 1023 of them, backspace removes the last one, Enter
    ends, Escape and the letter q cancel), does nothing when the line is
    empty or cancelled, and otherwise calls [navigate_to] with the item's
    host and port and the selector, a tab and the line.  The bytes left in
    the buffer by erased characters never reach the query, and the branch
    that reports a query too long is never taken. *)
Theorem search_prompt_reads_a_line (m : Memory) (state : AppState)
    (item : GopherItem.t) (stdin : list ascii) :
  (length (GopherItem.selector item) ≤ 1023)%nat →
  handle_search_prompt m state item stdin =
  let '(query, rest) := read_line search_cancel 1023 stdin [] in
  match query with
  | [] => Some (m, state, rest)
  | _ :: _ =>
      w ← navigate_to m state (GopherItem.host item) (GopherItem.port item)
            (GopherItem.selector item ++ TAB :: query);
      Some (w, rest)
  end.
Proof.
  intros Hsel. unfold handle_search_prompt.
  destruct (search_prompt_loop_read_line stdin
              (replicate MAX_SELECTOR_LENGTH NUL) 0 ltac:(lia)
              ltac:(by rewrite length_replicate) ltac:(apply not_elem_of_nil))
    as (buf & j & -> & Htake & Hlen & Hj & Hn).
  change (take 0 (replicate MAX_SELECTOR_LENGTH NUL)) with (@nil ascii) in *.
  destruct (read_line search_cancel 1023 stdin []) as [query rest].
  simpl in Htake. simpl snd.
  rewrite c_str_insert_NUL by (done || lia). rewrite Htake.
  assert (Hq : length query = j) by (rewrite <- Htake, length_take; lia).
  destruct query as [|c q].
  - simpl in Hq. subst j. done.
  - simpl in Hq. rewrite (proj2 (Nat.ltb_lt 0 j)) by lia.
    assert (Hfit : (length (GopherItem.selector item) + length (c :: q) + 2
                    <? MAX_SELECTOR_LENGTH * 2 + 2)%nat = true).
    { apply Nat.ltb_lt. unfold MAX_SELECTOR_LENGTH. simpl. lia. }
    rewrite Hfit. rewrite sprintf_into_fits.
    + done.
    + rewrite !length_app. unfold MAX_SELECTOR_LENGTH. simpl. lia.
Qed.

Lemma search_prompt_reads_a_line_witness :
  (length (cs "/search") ≤ 1023)%nat
  ∧ handle_search_prompt initial_memory (initial_state terminal_24x80)
      (GopherItem.mk "7" (cs "Find") (cs "/search") (cs "example.org") 70
         true 1)
      (cs "cats" ++ [KEY_BACKSPACE] ++ cs "s" ++ [KEY_ENTER])
    = navigate_to initial_memory (initial_state terminal_24x80)
        (cs "example.org") 70 (cs "/search" ++ TAB :: cs "cats")
      ≫= λ w, Some (w, []).
Proof.
  assert (H1 : (length (cs "/search") ≤ 1023)%nat) by (simpl; lia).
  split; [exact H1|].
  exact (search_prompt_reads_a_line initial_memory
           (initial_state terminal_24x80)
           (GopherItem.mk "7" (cs "Find") (cs "/search") (cs "example.org") 70
              true 1)
           (cs "cats" ++ [KEY_BACKSPACE] ++ cs "s" ++ [KEY_ENTER]) H1).
Defined.

Lemma open_prompt_loop_read_line (stdin : list ascii) : ∀ buf i,
  (i ≤ 1289)%nat → length buf = 1290%nat → NUL ∉ take i buf →
  ∃ buf' j,
    open_prompt_loop stdin buf i =
      (buf', j, (read_line open_cancel 1289 stdin (take i buf)).2)
    ∧ take j buf' = (read_line open_cancel 1289 stdin (take i buf)).1
    ∧ length buf' = 1290%nat ∧ (j ≤ 1289)%nat ∧ NUL ∉ take j buf'.
Proof.
  induction stdin as [|c rest IH]; intros buf i Hi Hlen Hn.
  - exists buf, i. simpl. done.
  - cbn [open_prompt_loop read_line].
    destruct (Ascii.eqb c KEY_ENTER || Ascii.eqb c KEY_CARRIAGE_RETURN).
    { exists buf, i. simpl. done. }
    assert (Hti : length (take i buf) = i) by (rewrite length_take; lia).
    destruct (Ascii.eqb c KEY_BACKSPACE || Ascii.eqb c "008").
    { rewrite Hti, take_take.
      replace ((i - 1) `min` i)%nat with (i - 1)%nat by lia.
      destruct (Nat.ltb_spec 0 i).
      - apply IH; [lia|done|].
        intros Hin. apply Hn. apply elem_of_take in Hin as (k & Hk & Hlt).
        apply elem_of_take. exists k. split; [done|lia].
      - replace (i - 1)%nat with i by lia. apply IH; done. }
    change (Ascii.eqb c KEY_ESC) with (open_cancel c).
    destruct (open_cancel c).
    { exists buf, 0%nat. simpl.
      split_and!; [done|done|done|lia|apply not_elem_of_nil]. }
    rewrite Hti. unfold MAX_URL_INPUT_LENGTH, MAX_HOST_LENGTH,
      MAX_SELECTOR_LENGTH.
    change (256 + 1024 + 10 - 1)%nat with 1289%nat.
    destruct (isprint c && (i <? 1289)%nat) eqn:Hp.
    + apply andb_true_iff in Hp as [Hp Hlt]. apply Nat.ltb_lt in Hlt.
      assert (Htake : take (S i) (<[i := c]> buf) = take i buf ++ [c]).
      { rewrite (take_S_r _ _ c) by (apply list_lookup_insert_eq; lia).
        by rewrite take_insert_ge by lia. }
      rewrite <- Htake. apply IH; [lia|by rewrite length_insert|].
      rewrite Htake. intros Hin. apply elem_of_app in Hin as [Hin|Hin]; [done|].
      apply list_elem_of_singleton in Hin. by apply (isprint_not_NUL c).
    + apply IH; done.
Qed.

Lemma read_line_consumes (cancel : ascii → bool) (limit : nat)
    (stdin : list ascii) : ∀ text,
  (stdin = [] ∧ read_line cancel limit stdin text = (text, []))
  ∨ (length (read_line cancel limit stdin text).2 < length stdin)%nat.
Proof.
  induction stdin as [|c rest IH]; intros text; [by left|]. right.
  cbn [read_line].
  assert (Hrec : ∀ t, (length (read_line cancel limit rest t).2
                       < length (c :: rest))%nat).
  { intros t. destruct (IH t) as [[-> ->]|Hlt]; simpl in *; lia. }
  destruct (_ || _); [simpl; lia|].
  destruct (_ || _); [apply Hrec|].
  destruct (cancel c); [simpl; lia|].
  destruct (_ && _); apply Hrec.
Qed.

(** One turn of the loop of [handle_open_prompt]. *)
Lemma open_prompt_turn (fuel : nat) (m : Memory) (state : AppState)
    (buf : list ascii) (stdin : list ascii) :
  length buf = 1290%nat →
  ∃ buf', length buf' = 1290%nat ∧
    open_prompt_turns (S fuel) m state buf stdin =
    let '(url, rest) := read_line open_cancel 1289 stdin [] in
    match url with
    | [] => Some (m, state, rest)
    | _ :: _ =>
        match parse_gopher_address url with
        | Some (new_host, new_port, new_selector) =>
            w ← navigate_to m state new_host new_port new_selector;
            Some (w, rest)
        | None => open_prompt_turns fuel m state buf' (tail rest)
        end
    end.
Proof.
  intros Hlen. cbn [open_prompt_turns].
  destruct (open_prompt_loop_read_line stdin (<[0%nat := NUL]> buf) 0
              ltac:(lia) ltac:(by rewrite length_insert)
              ltac:(apply not_elem_of_nil))
    as (buf1 & j & -> & Htake & Hlen1 & Hj & Hn).
  change (take 0 (<[0%nat := NUL]> buf)) with (@nil ascii) in *.
  destruct (read_line open_cancel 1289 stdin []) as [url rest].
  simpl in Htake. simpl snd.
  exists (<[j := NUL]> buf1). split; [by rewrite length_insert|].
  rewrite c_str_insert_NUL by (done || lia). rewrite Htake.
  assert (Hq : length url = j) by (rewrite <- Htake, length_take; lia).
  destruct url as [|c q].
  - simpl in Hq. subst j. done.
  - simpl in Hq. rewrite (proj2 (Nat.eqb_neq j 0)) by lia. done.
Qed.

Lemma open_prompt_turns_enough (n : nat) : ∀ stdin fuel1 fuel2 buf1 buf2 m state,
  (length stdin ≤ n)%nat →
  (length stdin < fuel1)%nat → (length stdin < fuel2)%nat →
  length buf1 = 1290%nat → length buf2 = 1290%nat →
  open_prompt_turns fuel1 m state buf1 stdin
  = open_prompt_turns fuel2 m state buf2 stdin.
Proof.
  induction n as [|n IH]; intros stdin fuel1 fuel2 buf1 buf2 m state
    Hn Hf1 Hf2 Hb1 Hb2.
  - destruct stdin; [|simpl in Hn; lia].
    destruct fuel1 as [|f1]; [simpl in Hf1; lia|].
    destruct fuel2 as [|f2]; [simpl in Hf2; lia|].
    destruct (open_prompt_turn f1 m state buf1 [] Hb1) as (b1 & _ & ->).
    destruct (open_prompt_turn f2 m state buf2 [] Hb2) as (b2 & _ & ->).
    done.
  - destruct fuel1 as [|f1]; [lia|]. destruct fuel2 as [|f2]; [lia|].
    destruct (open_prompt_turn f1 m state buf1 stdin Hb1) as (b1 & Hl1 & ->).
    destruct (open_prompt_turn f2 m state buf2 stdin Hb2) as (b2 & Hl2 & ->).
    destruct (read_line_consumes open_cancel 1289 stdin [])
      as [[-> Heq]|Hlt].
    { rewrite Heq. done. }
    destruct (read_line open_cancel 1289 stdin []) as [url rest].
    simpl in Hlt.
    destruct url as [|c q]; [done|].
    destruct (parse_gopher_address (c :: q)) as [[[h p] s]|]; [done|].
    assert (length (tail rest) ≤ length rest)%nat by (destruct rest; simpl; lia).
    apply IH; try done; lia.
Qed.

(** X14. The open prompt reads lines until one parses:
    [handle_open_prompt] reads a line (printable characters up to 1289 of
    them, backspace, Enter, Escape to cancel); on an empty or cancelled
    line it returns with the state unchanged; on a line that
    [parse_gopher_address] accepts it calls [navigate_to] with the result;
    on any other line it drops one more byte of the input (the key that
    acknowledges the error) and starts again. *)
Theorem open_prompt_reads_addresses_until_one_parses (m : Memory)
    (state : AppState) (stdin : list ascii) :
  handle_open_prompt m state stdin =
  let '(url, rest) := read_line open_cancel 1289 stdin [] in
  match url with
  | [] => Some (m, state, rest)
  | _ :: _ =>
      match parse_gopher_address url with
      | Some (new_host, new_port, new_selector) =>
          w ← navigate_to m state new_host new_port new_selector;
          Some (w, rest)
      | None => handle_open_prompt m state (tail rest)
      end
  end.
Proof.
  unfold handle_open_prompt at 1.
  destruct (open_prompt_turn (length stdin) m state
              (replicate MAX_URL_INPUT_LENGTH NUL) stdin
              ltac:(by rewrite length_replicate)) as (buf' & Hlen & ->).
  destruct (read_line_consumes open_cancel 1289 stdin []) as [[-> Heq]|Hlt].
  { rewrite Heq. done. }
  destruct (read_line open_cancel 1289 stdin []) as [url rest].
  simpl in Hlt.
  destruct url as [|c q]; [done|].
  destruct (parse_gopher_address (c :: q)) as [[[h p] s]|]; [done|].
  assert (length (tail rest) ≤ length rest)%nat by (destruct rest; simpl; lia).
  unfold handle_open_prompt.
  apply (open_prompt_turns_enough (length (tail rest))); try done; lia.
Qed.

(** ** The connection *)

Lemma write_all_spec (os : list write_result) (buffer : cstring) :
  ∀ bytes_sent,
    (bytes_sent ≤ length buffer)%nat →
    write_all os buffer (length buffer) bytes_sent (take bytes_sent buffer) =
    if (length buffer <=? bytes_sent + room_offered os)%nat
    then Some (Z.of_nat (length buffer), buffer)
    else if fails os
    then Some (-1, take (bytes_sent + room_offered os) buffer)
    else None.
Proof.
  induction os as [|answer os IH]; intros bytes_sent Hle.
  - simpl. rewrite Nat.add_0_r.
    destruct (Nat.ltb_spec bytes_sent (length buffer)) as [Hlt|Hge].
    + by rewrite (proj2 (Nat.leb_gt _ _)) by lia.
    + rewrite (proj2 (Nat.leb_le _ _)) by lia.
      assert (bytes_sent = length buffer) as -> by lia.
      by rewrite take_ge by lia.
  - cbn [write_all].
    destruct (Nat.ltb_spec bytes_sent (length buffer)) as [Hlt|Hge].
    + destruct answer as [room| |]; cbn [room_offered fails].
      * set (n_sent := (room `min` (length buffer - bytes_sent))%nat).
        assert (Hw : take bytes_sent buffer
                     ++ take n_sent (drop bytes_sent buffer)
                     = take (bytes_sent + n_sent) buffer).
        { apply take_take_drop. }
        rewrite Hw, IH by lia.
        destruct (Nat.leb_spec (length buffer)
                    (bytes_sent + (room + room_offered os))) as [H1|H1].
        -- by rewrite (proj2 (Nat.leb_le _ _)) by lia.
        -- rewrite (proj2 (Nat.leb_gt _ _)) by lia.
           replace (bytes_sent + n_sent + room_offered os)%nat
             with (bytes_sent + (room + room_offered os))%nat by lia.
           done.
      * apply IH. lia.
      * rewrite Nat.add_0_r. by rewrite (proj2 (Nat.leb_gt _ _)) by lia.
    + rewrite (proj2 (Nat.leb_le _ _)) by lia.
      assert (bytes_sent = length buffer) as -> by lia.
      by rewrite take_ge by lia.
Qed.

(** X15. [write_all] sends the buffer whole and in order: whatever the
    partial writes and interruptions, it returns the length with exactly
    the buffer sent when the kernel takes that many bytes before any
    failure; it returns -1 with a prefix of the buffer sent when a write
    fails first; and it has no result when the answers run out before
    either. *)
Theorem write_all_sends_the_buffer_in_order (os : list write_result)
    (buffer : cstring) :
  write_all os buffer (length buffer) 0 [] =
  if (length buffer <=? room_offered os)%nat
  then Some (Z.of_nat (length buffer), buffer)
  else if fails os then Some (-1, take (room_offered os) buffer)
  else None.
Proof. apply (write_all_spec os buffer 0). lia. Qed.

Lemma receive_loop_all (e : stream_end) (fuel : nat) :
  ∀ segments buffer buffer_size,
    Forall (λ s, s ≠ []) segments →
    (length buffer + 1 < buffer_size)%nat →
    (length (concat segments) < fuel)%nat →
    receive_loop fuel segments e buffer buffer_size =
    Some (match e with
          | Closed => Returns (buffer ++ concat segments)
          | ReadError => Dies (cs "Error: Failed to read from socket.")
          end).
Proof.
  induction fuel as [|fuel IH]; intros segments buffer bs Hne Hbs Hfuel;
    [lia|].
  cbn [receive_loop].
  rewrite (proj2 (Nat.ltb_ge _ _)) by lia.
  destruct segments as [|segment rest].
  { simpl. rewrite app_nil_r. by destruct e. }
  apply Forall_cons in Hne as [Hseg Hrest].
  set (count := (bs - length buffer - 1)%nat).
  assert (Hcount : (1 ≤ count)%nat) by (unfold count; lia).
  pose proof (take_drop count segment) as Hsplit.
  destruct (take count segment) as [|c got] eqn:Htake.
  { destruct segment; [done|]. destruct count; [lia|done]. }
  assert (Hgot : (length (c :: got) ≤ count)%nat).
  { rewrite <- Htake, length_take. lia. }
  simpl concat in Hfuel. rewrite <- Hsplit in Hfuel.
  rewrite !length_app in Hfuel.
  rewrite IH.
  - f_equal. destruct e; [|done]. f_equal. rewrite <- app_assoc. f_equal.
    simpl concat. rewrite <- Hsplit at 2. rewrite <- app_assoc. f_equal.
    by destruct (drop count segment).
  - destruct (drop count segment); [done|]. by apply Forall_cons.
  - rewrite length_app.
    destruct (Nat.leb_spec (bs - 1) (length buffer + length (c :: got))); lia.
  - destruct (drop count segment) as [|d left] eqn:Hdrop.
    + simpl in Hfuel. lia.
    + simpl in Hfuel |- *. rewrite length_app. lia.
Qed.

(** X16. [receive_gopher_data] returns the whole stream, however the
    reads cut it into segments (each of one byte at least), when the peer
    closes it, without reading or writing past its buffer at any size of
    the stream; when a read fails after the segments it dies with its
    message. *)
Theorem receive_gopher_data_returns_the_whole_stream
    (segments : list cstring) :
  Forall (λ s, s ≠ []) segments →
  receive_gopher_data segments Closed = Some (Returns (concat segments))
  ∧ receive_gopher_data segments ReadError =
      Some (Dies (cs "Error: Failed to read from socket.")).
Proof.
  intros Hne. unfold receive_gopher_data, INITIAL_BUFFER_SIZE.
  split; rewrite receive_loop_all; try done; simpl; lia.
Qed.

Lemma receive_gopher_data_returns_the_whole_stream_witness :
  Forall (λ s, s ≠ []) [cs "iWelcome"; [CR]; [LF]; cs "."]
  ∧ receive_gopher_data [cs "iWelcome"; [CR]; [LF]; cs "."] Closed
    = Some (Returns (cs "iWelcome" ++ [CR; LF] ++ cs ".")).
Proof.
  assert (H1 : Forall (λ s : cstring, s ≠ [])
                 [cs "iWelcome"; [CR]; [LF]; cs "."])
    by (repeat constructor; discriminate).
  split; [exact H1|].
  exact (proj1 (receive_gopher_data_returns_the_whole_stream _ H1)).
Defined.

Lemma connect_loop_first (addresses : list attempt) : ∀ p sock,
  connect_loop addresses p = Some sock →
  ∃ k, sock = (p + k)%nat ∧ addresses !! k = Some Connects
       ∧ ∀ j, (j < k)%nat → addresses !! j ≠ Some Connects.
Proof.
  induction addresses as [|a rest IH]; intros p sock; [done|].
  destruct a; simpl.
  - intros Hc. destruct (IH _ _ Hc) as (k & -> & Hk & Hfirst).
    exists (S k). split_and!; [lia|done|].
    intros [|j] Hj; [done|]. simpl. apply Hfirst. lia.
  - intros Hc. destruct (IH _ _ Hc) as (k & -> & Hk & Hfirst).
    exists (S k). split_and!; [lia|done|].
    intros [|j] Hj; [done|]. simpl. apply Hfirst. lia.
  - intros [= <-]. exists 0%nat. split_and!; [lia|done|]. intros j Hj. lia.
Qed.

Lemma connect_loop_none (addresses : list attempt) : ∀ p,
  connect_loop addresses p = None ↔ Connects ∉ addresses.
Proof.
  induction addresses as [|a rest IH]; intros p.
  - split; [intros _; apply not_elem_of_nil|done].
  - destruct a; simpl.
    + rewrite IH, not_elem_of_cons. naive_solver.
    + rewrite IH, not_elem_of_cons. naive_solver.
    + split; [done|]. intros H. exfalso. apply H. left.
Qed.

(** X17. For the node [create_nav_state] makes from any selector, and a
    host that resolves, [connect_and_send_request] on the node's selector
    connects to the first address that accepts (and dies when none does),
    never finds the request too long, and when the kernel takes the bytes
    sends exactly the selector (cut to 1023 bytes) followed by CR LF; it
    dies when a write fails first. *)
Theorem request_is_the_selector_line (m : Memory) (host : cstring) (port : Z)
    (selector : cstring) (addresses : list attempt) (os : list write_result) :
  let created := create_nav_state m host port selector in
  ∃ node,
    heap created.2 !! created.1 = Some node
    ∧ NavigationState.selector node = take 1023 selector
    ∧ connect_and_send_request (Some addresses)
        (NavigationState.selector node) os =
      match connect_loop addresses 0 with
      | None => Some (Dies (cs "Error: Could not connect to host"))
      | Some sock =>
          if (length (take 1023 selector) + 2 <=? room_offered os)%nat
          then Some (Returns (sock, take 1023 selector ++ [CR; LF]))
          else if fails os
          then Some (Dies (cs "Error: Failed to send the request."))
          else None
      end
    ∧ (connect_loop addresses 0 = None ↔ Connects ∉ addresses)
    ∧ ∀ sock, connect_loop addresses 0 = Some sock →
        addresses !! sock = Some Connects
        ∧ ∀ j, (j < sock)%nat → addresses !! j ≠ Some Connects.
Proof.
  intros created. unfold created, create_nav_state. cbn [fst snd heap].
  eexists. split; [apply lookup_insert_eq|].
  cbn [NavigationState.selector].
  unfold strncpy0, MAX_SELECTOR_LENGTH. change (1024 - 1)%nat with 1023%nat.
  split; [done|]. split; [|split].
  - unfold connect_and_send_request.
    destruct (connect_loop addresses 0) as [sock|]; [|done].
    set (sel := take 1023 selector).
    assert (Hsel : (length sel ≤ 1023)%nat)
      by (unfold sel; rewrite length_take; lia).
    unfold CRLF, MAX_SELECTOR_LENGTH. cbn [length].
    rewrite (proj2 (Nat.leb_gt _ _)) by lia.
    rewrite sprintf_into_fits by (rewrite length_app; simpl; lia).
    cbn [mbind option_bind].
    replace (length sel + 2)%nat with (length (sel ++ [CR; LF]))
      by (rewrite length_app; simpl; lia).
    pose proof (write_all_spec os (sel ++ [CR; LF]) 0 ltac:(lia)) as Hw.
    change (take 0 (sel ++ [CR; LF])) with (@nil ascii) in Hw.
    rewrite Hw. clear Hw. cbn [Nat.add].
    destruct (_ <=? _)%nat.
    + cbn [mbind option_bind fst snd]. by rewrite Z.eqb_refl.
    + destruct (fails os); [|done]. cbn [mbind option_bind fst snd].
      rewrite (proj2 (Z.eqb_neq _ _)); [done|lia].
  - apply connect_loop_none.
  - intros sock Hc. destruct (connect_loop_first _ _ _ Hc) as (k & -> & ? & ?).
    done.
Qed.

(** ** The parsers under other inputs *)

(** X18. The scheme is optional: an address free of NUL, of at most 1280
    bytes, that does not itself start with "gopher://" is parsed the same
    with and without that prefix. *)
Theorem scheme_prefix_is_optional (address : cstring) :
  NUL ∉ address → (length address ≤ 1280)%nat →
  take 9 address ≠ cs "gopher://" →
  parse_gopher_address (cs "gopher://" ++ address)
  = parse_gopher_address address.
Proof.
  intros Hn Hlen Hs.
  destruct address as [|c0 r0] eqn:Ha; [by vm_compute|]. rewrite <- Ha in *.
  assert (Hne : address ≠ []) by (by rewrite Ha). clear Ha c0 r0.
  destruct (address_of_covers address)
    as (scheme & h & pt & sel & Heq & Hh & Hpt & Hnone & _).
  destruct scheme.
  { exfalso. apply Hs. rewrite Heq. unfold address_of.
    by rewrite take_app_length' by done. }
  assert (Hpre : cs "gopher://" ++ address = address_of true h pt sel).
  { rewrite Heq. reflexivity. }
  assert (Hg : NUL ∉ cs "gopher://")
    by (apply (bool_decide_unpack _); by vm_compute).
  assert (H1 : parse_gopher_address (cs "gopher://" ++ address)
               = address_verdict h pt (default [] sel)).
  { rewrite Hpre. apply parse_gopher_address_cut; try done.
    - rewrite <- Hpre. rewrite length_app. simpl. lia.
    - rewrite <- Hpre. intros Hin.
      apply elem_of_app in Hin as [Hin|Hin]; done. }
  assert (H2 : parse_gopher_address address
               = address_verdict h pt (default [] sel)).
  { rewrite Heq. apply parse_gopher_address_cut; try done.
    - by rewrite <- Heq.
    - rewrite <- Heq. lia.
    - by rewrite <- Heq.
    - intros _. by rewrite <- Heq. }
  congruence.
Qed.

Lemma scheme_prefix_is_optional_witness :
  (NUL ∉ cs "example.org:7070/1/docs")
  ∧ (length (cs "example.org:7070/1/docs") ≤ 1280)%nat
  ∧ take 9 (cs "example.org:7070/1/docs") ≠ cs "gopher://"
  ∧ parse_gopher_address (cs "gopher://" ++ cs "example.org:7070/1/docs")
    = parse_gopher_address (cs "example.org:7070/1/docs").
Proof.
  assert (H1 : NUL ∉ cs "example.org:7070/1/docs")
    by (apply (bool_decide_unpack _); by vm_compute).
  assert (H2 : (length (cs "example.org:7070/1/docs") ≤ 1280)%nat)
    by (simpl; lia).
  assert (H3 : take 9 (cs "example.org:7070/1/docs") ≠ cs "gopher://")
    by discriminate.
  split; [exact H1|]. split; [exact H2|]. split; [exact H3|].
  exact (scheme_prefix_is_optional (cs "example.org:7070/1/docs") H1 H2 H3).
Defined.

(** X19. Apart from Enter, carriage return and the letter a, a single
    key does the same in the text viewer as in the menu (b and backspace go
    back, f goes forward, r reloads, o opens the prompt, q quits, any other
    key changes nothing). *)
Theorem both_views_share_their_keys (m : Memory) (state : AppState)
    (c : ascii) (stdin : list ascii) :
  c ≠ KEY_ENTER → c ≠ KEY_CARRIAGE_RETURN → c ≠ "a"%char →
  text_viewer_action m state c stdin = handle_menu_action m state c stdin.
Proof.
  intros H1 H2 H3. unfold text_viewer_action, handle_menu_action.
  rewrite (proj2 (Ascii.eqb_neq c KEY_ENTER)),
    (proj2 (Ascii.eqb_neq c KEY_CARRIAGE_RETURN)),
    (proj2 (Ascii.eqb_neq c "a")) by done.
  done.
Qed.

Lemma both_views_share_their_keys_witness :
  "b"%char ≠ KEY_ENTER ∧ "b"%char ≠ KEY_CARRIAGE_RETURN
  ∧ text_viewer_action initial_memory (initial_state terminal_24x80) "b" []
    = handle_menu_action initial_memory (initial_state terminal_24x80) "b" [].
Proof.
  assert (H1 : "b"%char ≠ KEY_ENTER) by discriminate.
  assert (H2 : "b"%char ≠ KEY_CARRIAGE_RETURN) by discriminate.
  assert (H3 : "b"%char ≠ "a"%char) by discriminate.
  split; [exact H1|]. split; [exact H2|].
  exact (both_views_share_their_keys initial_memory
           (initial_state terminal_24x80) "b" [] H1 H2 H3).
Defined.

(** ** Line ends of a menu *)

Lemma c_str_app_ends (a t : list ascii) : ends t → c_str (a ++ t) = c_str a.
Proof.
  intros Ht. induction a as [|x a IH]; simpl.
  - by apply c_str_ends.
  - destruct (Ascii.eqb x NUL); [done|]. by rewrite IH.
Qed.

Lemma c_str_length (a : list ascii) : (length (c_str a) ≤ length a)%nat.
Proof.
  induction a as [|x a IH]; simpl; [done|].
  destruct (Ascii.eqb x NUL); simpl; lia.
Qed.

Lemma str_at_tail (buf t : list ascii) (tok : nat) :
  (tok ≤ length buf)%nat → ends t → str_at (buf ++ t) tok = str_at buf tok.
Proof.
  intros Htok Ht. unfold str_at. rewrite drop_app_le by done.
  by apply c_str_app_ends.
Qed.

Lemma strchr_bound (s : cstring) (c : ascii) (i : nat) :
  c ≠ NUL → strchr s c = Some i → (i < length s)%nat.
Proof.
  intros Hc. revert i. induction s as [|x r IH]; intros i; simpl.
  - by rewrite (proj2 (Ascii.eqb_neq c NUL)).
  - destruct (Ascii.eqb x c); [intros [= <-]; lia|].
    destruct (strchr r c) as [j|]; [|done]. simpl. intros [= <-].
    specialize (IH j eq_refl). lia.
Qed.

Lemma tokenize_tail (n : nat) (t : list ascii) : ∀ buf tok,
  ends t → (tok ≤ length buf)%nat →
  tokenize n (buf ++ t) tok
  = ((tokenize n buf tok).1 ++ t, (tokenize n buf tok).2)
  ∧ length (tokenize n buf tok).1 = length buf
  ∧ Forall (λ f, (f ≤ length buf)%nat) (tokenize n buf tok).2.
Proof.
  induction n as [|n IH]; intros buf tok Ht Htok; [done|].
  cbn [tokenize]. rewrite str_at_tail by done.
  destruct (strchr (str_at buf tok) TAB) as [i|] eqn:Hi; [|done].
  apply strchr_bound in Hi; [|done].
  assert (Hlen : (tok + i < length buf)%nat).
  { pose proof (c_str_length (drop tok buf)) as Hc.
    unfold str_at in Hi. rewrite length_drop in Hc. lia. }
  rewrite insert_app_l by done.
  destruct (IH (<[(tok + i)%nat := NUL]> buf) (tok + i + 1)%nat Ht
              ltac:(rewrite length_insert; lia)) as (Heq & Hl & Hf).
  rewrite Heq.
  destruct (tokenize n (<[(tok + i)%nat := NUL]> buf) (tok + i + 1))
    as [line fields]. simpl in *. rewrite length_insert in Hl, Hf.
  split_and!; [done|done|]. apply Forall_cons. split; [lia|done].
Qed.

(** What follows the end of the string in the buffer does not matter to
    [parse_gopher_line]. *)
Lemma parse_gopher_line_tail (line t : list ascii) (current_host : cstring)
    (current_port : Z) :
  ends t →
  parse_gopher_line (line ++ t) current_host current_port
  = parse_gopher_line line current_host current_port.
Proof.
  intros Ht. unfold parse_gopher_line.
  rewrite !c_str_app_ends by done.
  set (len := length (c_str line)).
  set (strip := (0 <? len)%nat && Ascii.eqb (char_at (c_str line) (len - 1)) CR).
  set (line1 := if strip then <[(len - 1)%nat := NUL]> line else line).
  assert (Hline1 : (if strip then <[(len - 1)%nat := NUL]> (line ++ t)
                    else line ++ t) = line1 ++ t).
  { unfold line1. destruct strip eqn:Hs; [|done].
    apply andb_true_iff in Hs as [Hpos _]. apply Nat.ltb_lt in Hpos.
    rewrite insert_app_l; [done|].
    pose proof (c_str_length line). unfold len in *. lia. }
  rewrite Hline1. clearbody line1. clear Hline1 strip len.
  rewrite !c_str_app_ends by done.
  destruct (_ || _) eqn:Hskip; [done|].
  assert (Hone : (1 ≤ length line1)%nat).
  { apply orb_false_iff in Hskip as [_ Hlen]. apply Nat.ltb_ge in Hlen.
    pose proof (c_str_length line1). lia. }
  destruct (tokenize_tail 3 t line1 1 Ht Hone) as (-> & Hl & Hf).
  destruct (tokenize 3 line1 1) as [line2 found]. simpl in Hl, Hf. simpl fst.
  simpl snd.
  assert (Hat : ∀ f, (f ≤ length line1)%nat →
                     str_at (line2 ++ t) f = str_at line2 f).
  { intros f Hle. apply str_at_tail; [lia|done]. }
  rewrite (Hat 1%nat Hone).
  destruct (Ascii.eqb (char_at (c_str line1) 0) "i"); [done|].
  cbn [lookup list_lookup].
  destruct found as [|f1 [|f2 [|f3 rest]]]; try done.
  - apply Forall_cons in Hf as [H1 Hf]. apply Forall_cons in Hf as [H2 _].
    cbn [lookup list_lookup]. rewrite (Hat f1 H1), (Hat f2 H2). done.
  - apply Forall_cons in Hf as [H1 Hf]. apply Forall_cons in Hf as [H2 Hf].
    apply Forall_cons in Hf as [H3 _].
    cbn [lookup list_lookup]. rewrite (Hat f1 H1), (Hat f2 H2), (Hat f3 H3).
    done.
Qed.

(** A carriage return at the end of a line is cut off before the line is
    looked at. *)
Lemma parse_gopher_line_cr (line : cstring) (current_host : cstring)
    (current_port : Z) :
  NUL ∉ line → last line ≠ Some CR →
  parse_gopher_line (line ++ [CR]) current_host current_port
  = parse_gopher_line line current_host current_port.
Proof.
  intros Hn Hlast.
  rewrite <- (parse_gopher_line_tail line [NUL]) by (right; eauto).
  unfold parse_gopher_line.
  assert (H1 : (if (0 <? length (c_str (line ++ [CR])))%nat
                   && Ascii.eqb (char_at (c_str (line ++ [CR]))
                                   (length (c_str (line ++ [CR])) - 1)) CR
                then <[(length (c_str (line ++ [CR])) - 1)%nat := NUL]>
                       (line ++ [CR])
                else line ++ [CR]) = line ++ [NUL]).
  { rewrite c_str_id
      by (rewrite elem_of_app, list_elem_of_singleton; intros [?|?]; done).
    rewrite length_app. simpl length.
    replace (length line + 1 - 1)%nat with (length line) by lia.
    rewrite (proj2 (Nat.ltb_lt 0 (length line + 1))) by lia.
    unfold char_at. rewrite app_nth2, Nat.sub_diag by lia. simpl.
    by apply insert_middle. }
  assert (H2 : (if (0 <? length (c_str (line ++ [NUL])))%nat
                   && Ascii.eqb (char_at (c_str (line ++ [NUL]))
                                   (length (c_str (line ++ [NUL])) - 1)) CR
                then <[(length (c_str (line ++ [NUL])) - 1)%nat := NUL]>
                       (line ++ [NUL])
                else line ++ [NUL]) = line ++ [NUL]).
  { rewrite c_str_field by (done || right; eauto).
    destruct (Ascii.eqb_spec (char_at line (length line - 1)) CR) as [Hc|Hc];
      [|by rewrite andb_false_r].
    destruct (Nat.ltb_spec 0 (length line)) as [Hpos|Hpos]; [|done].
    exfalso. apply Hlast. rewrite last_lookup.
    replace (pred (length line)) with (length line - 1)%nat by lia.
    unfold char_at in Hc. rewrite nth_lookup in Hc.
    destruct (line !! (length line - 1)%nat) as [c|] eqn:Hl.
    - simpl in Hc. by rewrite Hc.
    - apply lookup_ge_None in Hl. lia. }
  rewrite H1, H2. done.
Qed.

Lemma strtok_lines_line (a rest cur : cstring) :
  LF ∉ a →
  strtok_lines cur (a ++ LF :: rest) =
  match cur ++ a with
  | [] => strtok_lines [] rest
  | _ :: _ => (cur ++ a) :: strtok_lines [] rest
  end.
Proof.
  revert cur. induction a as [|x a IH]; intros cur Ha; simpl.
  - rewrite app_nil_r. by destruct cur.
  - apply not_elem_of_cons in Ha as [Hx Ha].
    rewrite (proj2 (Ascii.eqb_neq x LF)) by done.
    rewrite IH by done. by rewrite <- app_assoc.
Qed.

Lemma strtok_lines_joined (e : cstring) (lines : list cstring) :
  LF ∉ e → Forall (λ l, LF ∉ l) lines →
  strtok_lines [] (concat ((λ l, l ++ e ++ [LF]) <$> lines))
  = filter (λ l, l ≠ []) ((λ l, l ++ e) <$> lines).
Proof.
  intros He Hall. induction Hall as [|l lines Hl Hall IH]; [done|].
  cbn [fmap list_fmap concat].
  replace ((l ++ e ++ [LF]) ++ concat ((λ l, l ++ e ++ [LF]) <$> lines))
    with ((l ++ e) ++ LF :: concat ((λ l, l ++ e ++ [LF]) <$> lines))
    by (by rewrite <- !app_assoc).
  rewrite strtok_lines_line
    by (rewrite elem_of_app; intros [?|?]; done).
  rewrite IH. simpl app.
  destruct (l ++ e) eqn:Hle.
  - by rewrite filter_cons_False by (intros ?; done).
  - by rewrite filter_cons_True by done.
Qed.

Lemma process_lines_cr (current_host : cstring) (current_port : Z)
    (lines : list cstring) : ∀ items selectable,
  Forall (λ l, (NUL ∉ l) ∧ last l ≠ Some CR) lines →
  process_lines (filter (λ l, l ≠ []) ((λ l, l ++ [CR]) <$> lines))
    current_host current_port items selectable
  = process_lines (filter (λ l, l ≠ []) ((λ l, l ++ []) <$> lines))
      current_host current_port items selectable.
Proof.
  induction lines as [|l lines IH]; intros items selectable Hall; [done|].
  apply Forall_cons in Hall as [[Hn Hlast] Hall].
  cbn [fmap list_fmap].
  rewrite filter_cons_True by (by destruct l).
  destruct l as [|c l].
  - rewrite filter_cons_False by (intros ?; done).
    cbn [process_lines].
    assert (parse_gopher_line ([] ++ [CR]) current_host current_port = None)
      as -> by reflexivity.
    by apply IH.
  - rewrite filter_cons_True by done. rewrite app_nil_r.
    cbn [process_lines]. rewrite parse_gopher_line_cr by done.
    destruct (parse_gopher_line (c :: l) current_host current_port);
      [|by apply IH].
    destruct (GopherItem.is_selectable t); by apply IH.
Qed.

(** X20. A menu whose lines end in CR LF gives the same state as the same
    menu with lines ending in LF only (for lines free of NUL and newline
    that do not themselves end in a carriage return). *)
Theorem menu_lines_may_end_in_lf_or_crlf (nav : NavigationState.t)
    (state : AppState) (lines : list cstring) :
  Forall (λ l, (LF ∉ l) ∧ (NUL ∉ l) ∧ last l ≠ Some CR) lines →
  process_gopher_response nav state
    (concat ((λ l, l ++ [CR; LF]) <$> lines))
  = process_gopher_response nav state (concat ((λ l, l ++ [LF]) <$> lines)).
Proof.
  intros Hall. unfold process_gopher_response.
  pose proof (strtok_lines_joined [CR] lines
                ltac:(by apply not_elem_of_cons; split;
                         [|apply not_elem_of_nil])
                ltac:(eapply Forall_impl; [done|]; by intros l [? _]))
    as H1.
  pose proof (strtok_lines_joined [] lines ltac:(apply not_elem_of_nil)
                ltac:(eapply Forall_impl; [done|]; by intros l [? _]))
    as H2.
  simpl in H1, H2. rewrite H1, H2.
  rewrite process_lines_cr; [done|].
  eapply Forall_impl; [done|]. by intros l (_ & ? & ?).
Qed.

Lemma menu_lines_may_end_in_lf_or_crlf_witness :
  Forall (λ l, (LF ∉ l) ∧ (NUL ∉ l) ∧ last l ≠ Some CR)
    [info_line; home_line; cs "."]
  ∧ process_gopher_response root_node (initial_state terminal_24x80)
      (concat ((λ l, l ++ [CR; LF]) <$> [info_line; home_line; cs "."]))
    = process_gopher_response root_node (initial_state terminal_24x80)
        (concat ((λ l, l ++ [LF]) <$> [info_line; home_line; cs "."])).
Proof.
  assert (H1 : Forall (λ l, (LF ∉ l) ∧ (NUL ∉ l) ∧ last l ≠ Some CR)
                 [info_line; home_line; cs "."]).
  { repeat constructor; try discriminate;
      apply (bool_decide_unpack _); by vm_compute. }
  split; [exact H1|].
  exact (menu_lines_may_end_in_lf_or_crlf root_node
           (initial_state terminal_24x80) _ H1).
Defined.

(** ** Start of the program and results of the parsers *)

(** X21. Started with the address gopher://h:p/s (valid host, port in
    1..65535, selector free of NUL of at most 1023 bytes, host and selector
    of less than 1273 bytes together), [main] reaches the main loop with a
    history of one page, (h, p, s) with no body, which is current, with
    [is_running] set and the terminal size read. *)
Theorem main_starts_on_the_address_given (prog h : cstring) (p : Z)
    (s : cstring) (ws : winsize) :
  valid_host h → 1 ≤ p ≤ 65535 → NUL ∉ s → (length s ≤ 1023)%nat →
  (length h + length s < 1273)%nat →
  ∃ w,
    main_start
      [prog; cs "gopher://" ++ h ++ cs ":" ++ sprintf_d p ++ cs "/" ++ s] ws
    = Some (Starts w)
    ∧ history_pages w = Some [mk_Page (mk_Location h p s) None]
    ∧ history_position w = Some 0%nat
    ∧ is_running w.2 = true
    ∧ terminal_size w.2 = ws.
Proof.
  intros Hh Hp Hs Hls Hlen. unfold main_start. cbn [lookup list_lookup].
  set (arg := cs "gopher://" ++ h ++ cs ":" ++ sprintf_d p ++ cs "/" ++ s).
  unfold streq.
  rewrite !bool_decide_false by (unfold arg; simpl; discriminate).
  cbn [orb].
  unfold arg. rewrite parse_gopher_address_url by done.
  destruct (navigate_to_shows (initial_memory, initial_state ws) [] 0 h p s
              (shows_initial ws)) as (w & Hnav & Hshows).
  cbn [fst snd] in Hnav. rewrite Hnav. cbn [mbind option_bind].
  cbn [browse_step fst snd] in Hshows.
  destruct Hh as (_ & Hhl & _).
  rewrite (take_ge h), (take_ge s) in Hshows by lia.
  destruct (shows_view _ _ _ Hshows ltac:(done)) as (Hpages & Hpos & _).
  unfold navigate_to, create_nav_state in Hnav. simpl in Hnav.
  injection Hnav as <-. simpl. eauto 10.
Qed.

Lemma main_starts_on_the_address_given_witness :
  valid_host (cs "example.org") ∧ 1 ≤ 7070 ≤ 65535
  ∧ ∃ w,
      main_start
        [cs "tocaia";
         cs "gopher://" ++ cs "example.org" ++ cs ":" ++ sprintf_d 7070
           ++ cs "/" ++ cs "1/docs"] terminal_24x80
      = Some (Starts w)
      ∧ history_pages w =
          Some [mk_Page (mk_Location (cs "example.org") 7070 (cs "1/docs"))
                  None]
      ∧ history_position w = Some 0%nat
      ∧ is_running w.2 = true
      ∧ terminal_size w.2 = terminal_24x80.
Proof.
  assert (H1 : valid_host (cs "example.org")).
  { split_and!; [done|simpl; lia| |left].
    - intros c Hc. apply (bool_decide_unpack _). revert c Hc.
      apply Forall_forall. by repeat constructor.
    - apply (bool_decide_unpack _). by vm_compute. }
  assert (H2 : 1 ≤ 7070 ≤ 65535) by lia.
  assert (H3 : NUL ∉ cs "1/docs")
    by (apply (bool_decide_unpack _); by vm_compute).
  assert (H4 : (length (cs "1/docs") ≤ 1023)%nat) by (simpl; lia).
  assert (H5 : (length (cs "example.org") + length (cs "1/docs") < 1273)%nat)
    by (simpl; lia).
  split; [exact H1|]. split; [exact H2|].
  exact (main_starts_on_the_address_given (cs "tocaia") (cs "example.org") 7070
           (cs "1/docs") terminal_24x80 H1 H2 H3 H4 H5).
Defined.

Lemma count_selectable_app (a b : list GopherItem.t) :
  count_selectable (a ++ b) = count_selectable a + count_selectable b.
Proof. unfold count_selectable. rewrite filter_app, length_app. lia. Qed.

Lemma numbered_other (items : list GopherItem.t) : ∀ k idx item,
  numbered items k → items !! idx = Some item →
  GopherItem.is_selectable item = false → GopherItem.menu_index item = 0.
Proof.
  induction items as [|it rest IH]; intros k idx item Hnum Hl Hs; [done|].
  cbn [numbered] in Hnum. destruct idx as [|idx].
  - injection Hl as ->. rewrite Hs in Hnum. by destruct Hnum.
  - simpl in Hl. destruct (GopherItem.is_selectable it);
      destruct Hnum as [_ Hnum]; by eapply IH.
Qed.

(** X22. In the menu [process_gopher_response] builds, a selectable item
    carries as [menu_index] its rank among the selectable items (a number
    from 1 to [selectable_items]), and every other item carries 0. *)
Theorem menu_numbers_are_ordinals (nav : NavigationState.t) (state : AppState)
    (data : cstring) (idx : nat) (item : GopherItem.t) :
  let menu := process_gopher_response nav state data in
  gopher_items menu !! idx = Some item →
  if GopherItem.is_selectable item
  then GopherItem.menu_index item
       = count_selectable (take idx (gopher_items menu)) + 1
       ∧ 1 ≤ GopherItem.menu_index item ≤ selectable_items menu
  else GopherItem.menu_index item = 0.
Proof.
  intros menu Hl.
  destruct (process_gopher_response_menu nav state data)
    as (_ & Hc & _ & Hnum & _). fold menu in Hc, Hnum.
  destruct (GopherItem.is_selectable item) eqn:Hsel.
  - pose proof (numbered_menu_index _ 0 idx item Hnum Hl Hsel) as Hm.
    split; [lia|]. rewrite Hm, Hc.
    pose proof (count_selectable_nonneg (take idx (gopher_items menu))).
    pose proof (count_selectable_nonneg (drop (S idx) (gopher_items menu))).
    assert (Hsplit : count_selectable (gopher_items menu)
                     = count_selectable (take idx (gopher_items menu))
                       + (1 + count_selectable (drop (S idx) (gopher_items menu)))).
    { rewrite <- (take_drop_middle _ _ _ Hl) at 1.
      by rewrite count_selectable_app, count_selectable_cons, Hsel. }
    lia.
  - by eapply numbered_other.
Qed.

Lemma menu_numbers_are_ordinals_witness :
  ∃ item,
    gopher_items three_links_menu !! 2%nat = Some item
    ∧ GopherItem.is_selectable item = true
    ∧ GopherItem.menu_index item = 2.
Proof.
  eexists. split; [reflexivity|]. split; [reflexivity|].
  pose proof (menu_numbers_are_ordinals root_node
                (initial_state terminal_24x80) _ 2 _
                (eq_refl : gopher_items three_links_menu !! 2%nat = Some _))
    as H.
  exact (proj1 H).
Defined.

Lemma no_carriage_return (l : cstring) :
  NUL ∉ l → last l ≠ Some CR →
  (0 <? length (c_str l))%nat
  && Ascii.eqb (char_at (c_str l) (length (c_str l) - 1)) CR = false.
Proof.
  intros Hn Hlast. rewrite c_str_id by done.
  destruct (Ascii.eqb_spec (char_at l (length l - 1)) CR) as [Hc|Hc];
    [|by rewrite andb_false_r].
  destruct (Nat.ltb_spec 0 (length l)) as [Hpos|Hpos]; [|done].
  exfalso. apply Hlast. rewrite last_lookup.
  replace (pred (length l)) with (length l - 1)%nat by lia.
  unfold char_at in Hc. rewrite nth_lookup in Hc.
  destruct (l !! (length l - 1)%nat) as [c|] eqn:Hl.
  - simpl in Hc. by rewrite Hc.
  - apply lookup_ge_None in Hl. lia.
Qed.

(** X23. [parse_gopher_line], on a line free of NUL that does not end in
    a carriage return, with or without a carriage return after it, returns
    FALSE exactly when the line has fewer than two characters (the empty
    line, the end marker "." and every other single character), and
    otherwise gives an item whose type is the first character. *)
Theorem parse_gopher_line_skips_short_lines (l : cstring) (cr : bool)
    (current_host : cstring) (current_port : Z) :
  let line := l ++ (if cr then [CR] else []) in
  NUL ∉ l → last l ≠ Some CR →
  (parse_gopher_line line current_host current_port = None
   ↔ (length l < 2)%nat)
  ∧ ∀ item, parse_gopher_line line current_host current_port = Some item →
            GopherItem.type item = char_at l 0.
Proof.
  intros line Hn Hlast.
  assert (Hline : parse_gopher_line line current_host current_port
                  = parse_gopher_line l current_host current_port).
  { unfold line. destruct cr; [by apply parse_gopher_line_cr|].
    by rewrite app_nil_r. }
  rewrite Hline. clear Hline line.
  unfold parse_gopher_line.
  rewrite (no_carriage_return l Hn Hlast). rewrite !c_str_id by done.
  destruct (Nat.ltb_spec (length l) 2) as [Hshort|Hlong].
  - rewrite !orb_true_r. split; [done|]. intros item. done.
  - rewrite orb_false_r.
    assert (l ≠ []) by (intros ->; simpl in Hlong; lia).
    rewrite (proj2 (Ascii.eqb_neq (char_at l 0) NUL))
      by (by rewrite char_at_0).
    assert (streq l (cs ".") = false) as ->.
    { unfold streq. apply bool_decide_false. intros ->. simpl in Hlong. lia. }
    simpl orb. cbv iota.
    destruct (tokenize 3 l 1) as [line2 found].
    split.
    + split; [|lia]. repeat case_match; done.
    + intros item. repeat case_match; intros [= <-]; done.
Qed.

Lemma parse_gopher_line_skips_short_lines_witness :
  (NUL ∉ cs ".") ∧ last (cs ".") ≠ Some CR
  ∧ parse_gopher_line (cs "." ++ [CR]) (cs "example.org") 70 = None
  ∧ (NUL ∉ home_line)
  ∧ ∀ item, parse_gopher_line (home_line ++ [CR]) (cs "example.org") 70
              = Some item → GopherItem.type item = "1"%char.
Proof.
  assert (H1 : NUL ∉ cs ".") by (apply (bool_decide_unpack _); by vm_compute).
  assert (H2 : last (cs ".") ≠ Some CR) by discriminate.
  assert (H3 : NUL ∉ home_line)
    by (apply (bool_decide_unpack _); by vm_compute).
  assert (H4 : last home_line ≠ Some CR) by discriminate.
  split; [exact H1|]. split; [exact H2|]. split.
  - apply (proj1 (parse_gopher_line_skips_short_lines (cs ".") true
                    (cs "example.org") 70 H1 H2)). simpl. lia.
  - split; [exact H3|].
    exact (proj2 (parse_gopher_line_skips_short_lines home_line true
                    (cs "example.org") 70 H3 H4)).
Defined.

Lemma c_str_no_NUL (buf : list ascii) : NUL ∉ c_str buf.
Proof.
  induction buf as [|x r IH]; simpl; [apply not_elem_of_nil|].
  destruct (Ascii.eqb_spec x NUL); [apply not_elem_of_nil|].
  apply not_elem_of_cons. done.
Qed.

Lemma not_elem_of_take {A} (x : A) (n : nat) (l : list A) :
  x ∉ l → x ∉ take n l.
Proof.
  intros Hx Hin. apply Hx. apply elem_of_take in Hin as (i & Hi & _).
  by eapply list_elem_of_lookup_2.
Qed.

Lemma c_str_insert_take (b : list ascii) : ∀ k,
  c_str (<[k := NUL]> b) = take k (c_str b).
Proof.
  induction b as [|x r IH]; intros k; [by destruct k|].
  destruct k as [|k]; simpl.
  - by destruct (Ascii.eqb x NUL).
  - destruct (Ascii.eqb x NUL); [done|]. simpl. by rewrite IH.
Qed.

Lemma str_at_insert_take (b : list ascii) (p i : nat) :
  str_at (<[(p + i)%nat := NUL]> b) p = take i (str_at b p).
Proof.
  unfold str_at. rewrite drop_insert_ge by lia.
  replace (p + i - p)%nat with i by lia. apply c_str_insert_take.
Qed.

(** X24. Whatever the input, a result of [parse_gopher_address] is within
    bounds: the host is not empty, has at most 255 bytes and holds no NUL,
    space, tab, newline or slash; the port is in 1..65535; the selector has
    at most 1023 bytes and holds no NUL. *)
Theorem parse_gopher_address_stays_in_bounds (address h : cstring) (p : Z)
    (s : cstring) :
  parse_gopher_address address = Some (h, p, s) →
  h ≠ [] ∧ (length h ≤ 255)%nat ∧ 1 ≤ p ≤ 65535 ∧ (length s ≤ 1023)%nat
  ∧ (∀ c, c ∈ [NUL; SPACE; TAB; LF; "/"]%char → c ∉ h)
  ∧ (NUL ∉ s).
Proof.
  unfold parse_gopher_address.
  destruct (length address =? 0)%nat; [done|].
  set (temp := strncpy0 address (MAX_URL_INPUT_LENGTH - 1)).
  set (ptr := if strneq temp (cs "gopher://") 9 then 9%nat else 0%nat).
  assert (Hsel : ∃ temp1 sel,
    (match strchr (str_at temp ptr) "/" with
     | Some i =>
         (<[(ptr + i)%nat := NUL]> temp,
          strncpy0 (str_at (<[(ptr + i)%nat := NUL]> temp) (ptr + i + 1))
            (MAX_SELECTOR_LENGTH - 1))
     | None => (temp, [])
     end) = (temp1, sel)
    ∧ ("/"%char ∉ str_at temp1 ptr) ∧ (length sel ≤ 1023)%nat ∧ (NUL ∉ sel)).
  { destruct (strchr (str_at temp ptr) "/") as [i|] eqn:Hslash.
    - eexists _, _. split; [reflexivity|]. split_and!.
      + rewrite str_at_insert_take.
        by destruct (strchr_split _ _ _ Hslash ltac:(done)) as [_ ?].
      + unfold strncpy0, MAX_SELECTOR_LENGTH. rewrite length_take. lia.
      + apply not_elem_of_take, c_str_no_NUL.
    - eexists _, _. split; [reflexivity|]. split_and!.
      + by apply strchr_None_not_elem in Hslash.
      + simpl. lia.
      + apply not_elem_of_nil. }
  destruct Hsel as (temp1 & sel & -> & Hslash & Hlsel & Hnsel).
  assert (Hhost : ∀ temp2 : list ascii,
            (temp2 = temp1 ∨ ∃ j, temp2 = <[(ptr + j)%nat := NUL]> temp1) →
            "/"%char ∉ str_at temp2 ptr).
  { intros temp2 [->|[j ->]]; [done|].
    rewrite str_at_insert_take. by apply not_elem_of_take. }
  set (after := match strrchr (str_at temp1 ptr) ":" with
                | Some i0 => _
                | None => _
                end).
  assert (Hafter : ∀ temp2 port, after = Some (temp2, port) →
            temp2 = temp1 ∨ ∃ j, temp2 = <[(ptr + j)%nat := NUL]> temp1).
  { unfold after. intros temp2 port.
    destruct (strrchr (str_at temp1 ptr) ":") as [j|].
    - destruct (_ <? _)%nat; [|done]. intros [= <- _]. right. eauto.
    - intros [= <- _]. by left. }
  destruct after as [[temp2 port]|]; [|done].
  specialize (Hhost temp2 (Hafter temp2 port eq_refl)).
  set (host := str_at temp2 ptr) in *.
  destruct (Nat.eqb_spec (length host) 0) as [|Hne]; [done|].
  destruct (strchr host SPACE) eqn:Hsp; [done|].
  destruct (strchr host TAB) eqn:Htab; [done|].
  destruct (strchr host LF) eqn:Hlf; [done|]. cbn [orb].
  destruct (_ && _); [done|].
  destruct (Z.leb_spec port 0); [done|].
  destruct (Z.ltb_spec 65535 port); [done|]. cbn [orb].
  intros [= <- <- <-].
  apply strchr_None_not_elem in Hsp, Htab, Hlf; try done.
  unfold strncpy0, MAX_HOST_LENGTH. change (256 - 1)%nat with 255%nat.
  assert (Hlen : (length (take 255 host) ≤ 255)%nat)
    by (rewrite length_take; lia).
  assert (Hnn : take 255 host ≠ []) by (by destruct host).
  assert (Hin : ∀ c, c ∈ [NUL; SPACE; TAB; LF; "/"]%char → c ∉ take 255 host).
  { intros c Hc. apply not_elem_of_take.
    repeat (apply elem_of_cons in Hc as [->|Hc]); try done.
    - apply c_str_no_NUL.
    - by apply elem_of_nil in Hc. }
  assert (Hport : 1 ≤ port ≤ 65535) by lia.
  exact (conj Hnn (conj Hlen (conj Hport (conj Hlsel (conj Hin Hnsel))))).
Qed.

Lemma parse_gopher_address_stays_in_bounds_witness :
  parse_gopher_address (cs "gopher://example.org:7070/1/docs")
    = Some (cs "example.org", 7070, cs "1/docs")
  ∧ (length (cs "example.org") ≤ 255)%nat ∧ 1 ≤ 7070 ≤ 65535.
Proof.
  assert (H1 : parse_gopher_address (cs "gopher://example.org:7070/1/docs")
               = Some (cs "example.org", 7070, cs "1/docs"))
    by (by vm_compute).
  split; [exact H1|].
  pose proof (parse_gopher_address_stays_in_bounds _ _ _ _ H1)
    as (_ & H2 & H3 & _).
  split; [exact H2|exact H3].
Defined.
